(** * attention_common.h: shared utilities of the attention kernels

    A shallow embedding of [src/attention_common.h] (the workload descriptor
    [AttentionConfig], [init_random], [verify_results], [print_stats]) and of
    the pattern match of [scripts/run_benchmarks.sh], with the properties the
    specification states about them.

    C++ [float] is IEEE 754 binary32: it is modelled by the standard
    library's [spec_float] at precision 24 and maximal exponent 128, with
    round-to-nearest-even operations.  C++ [int] is the 32-bit signed integer
    (overflow is undefined behaviour: [None]); [size_t] is the 64-bit
    unsigned integer with wrap-around. *)

From Stdlib Require Import ZArith List Bool Lia String Ascii PeanoNat DecimalString.
From Stdlib Require Import Floats.SpecFloat.
Import ListNotations.
Local Open Scope Z_scope.

(** ** Single-precision floating point *)

Module F32.

Definition prec : Z := 24.
Definition emax : Z := 128.

Definition float : Type := spec_float.

Definition add : float -> float -> float := SFadd prec emax.
Definition sub : float -> float -> float := SFsub prec emax.
Definition mul : float -> float -> float := SFmul prec emax.
Definition div : float -> float -> float := SFdiv prec emax.
Definition sqrt : float -> float := SFsqrt prec emax.
Definition abs : float -> float := SFabs.
Definition opp : float -> float := SFopp.

(** [a < b], [a <= b] and [a > b] of C++; false as soon as an operand is NaN. *)
Definition ltb : float -> float -> bool := SFltb.
Definition leb : float -> float -> bool := SFleb.
Definition gtb (a b : float) : bool := SFltb b a.

(** Conversion of an integer to [float] ([static_cast<float>(n)] and the
    usual arithmetic conversions), rounding to nearest even. *)
Definition of_Z (n : Z) : float := binary_normalize prec emax n 0 false.

(** A decimal literal [num/den] with the suffix [f]: the binary32 number
    nearest to the quotient (both integers below 2^24). *)
Definition lit (num den : Z) : float := div (of_Z num) (of_Z den).

Definition is_nan (x : float) : bool :=
  match x with S754_nan => true | _ => false end.

Definition is_finite (x : float) : bool :=
  match x with S754_zero _ | S754_finite _ _ _ => true | _ => false end.

Definition valid (x : float) : bool := valid_binary prec emax x.

End F32.

Definition f32 : Type := F32.float.

(** ** The integer types *)

Definition INT_MIN : Z := - 2 ^ 31.
Definition INT_MAX : Z := 2 ^ 31 - 1.
Definition SIZE_MAX : Z := 2 ^ 64 - 1.

Definition in_int (z : Z) : bool := (INT_MIN <=? z) && (z <=? INT_MAX).

(** [a * b] on [int]: signed overflow has no defined result. *)
Definition int_mul (a b : Z) : option Z :=
  if in_int (a * b) then Some (a * b) else None.

(** Conversion to [size_t] and its arithmetic, modulo 2^64. *)
Definition to_size_t (z : Z) : Z := z mod 2 ^ 64.
Definition size_mul (a b : Z) : Z := (a * b) mod 2 ^ 64.
Definition size_add (a b : Z) : Z := (a + b) mod 2 ^ 64.

Definition sizeof_float : Z := 4.

Definition obind {A B : Type} (o : option A) (f : A -> option B) : option B :=
  match o with Some a => f a | None => None end.

Notation "x <- o ;; k" := (obind o (fun x => k))
  (at level 61, o at next level, right associativity).

(** ** Configuration *)

Definition WARP_SIZE : Z := 64.
Definition MAX_SEQ_LEN : Z := 4096.
Definition MAX_HEAD_DIM : Z := 128.

(** ** Attention configuration *)

Record AttentionConfig : Type := mkAttentionConfig {
  batch_size : Z;
  num_heads : Z;
  seq_len : Z;
  head_dim : Z;
  scale : f32
}.

(** The constructor [AttentionConfig(int b, int h, int s, int d)]: the four
    members are initialised from the arguments and [scale] is assigned
    [1.0f / sqrtf(static_cast<float>(head_dim))].  There is no other
    statement in its body. *)
Definition AttentionConfig_new (b h s d : Z) : AttentionConfig :=
  {| batch_size := b;
     num_heads := h;
     seq_len := s;
     head_dim := d;
     scale := F32.div (F32.of_Z 1) (F32.sqrt (F32.of_Z d)) |}.

(** [batch_size * num_heads * seq_len * head_dim * sizeof(float)]: the first
    three products are on [int]; the last one converts the [int] product to
    [size_t]. *)
Definition qkv_size (cfg : AttentionConfig) : option Z :=
  p1 <- int_mul (batch_size cfg) (num_heads cfg) ;;
  p2 <- int_mul p1 (seq_len cfg) ;;
  p3 <- int_mul p2 (head_dim cfg) ;;
  Some (size_mul (to_size_t p3) sizeof_float).

Definition output_size (cfg : AttentionConfig) : option Z := qkv_size cfg.

Definition attention_matrix_size (cfg : AttentionConfig) : option Z :=
  p1 <- int_mul (batch_size cfg) (num_heads cfg) ;;
  p2 <- int_mul p1 (seq_len cfg) ;;
  p3 <- int_mul p2 (seq_len cfg) ;;
  Some (size_mul (to_size_t p3) sizeof_float).

(** The invariant the specification gives for a workload descriptor: every
    dimension positive and [head_dim] within the supported maximum. *)
Definition dims_valid (b h s d : Z) : bool :=
  (0 <? b) && (0 <? h) && (0 <? s) && (0 <? d) && (d <=? MAX_HEAD_DIM).

Definition config_valid (cfg : AttentionConfig) : bool :=
  dims_valid (batch_size cfg) (num_heads cfg) (seq_len cfg) (head_dim cfg).

(** ** Initialize random data *)

(** [rand] and [srand] belong to the C library: the generator is a
    parameter.  [srand seed] is the generator state after seeding, and
    [rand st] the next number with the next state. *)
Record Generator : Type := mkGenerator {
  rng_state : Type;
  RAND_MAX : Z;
  srand : Z -> rng_state;
  rand : rng_state -> Z * rng_state
}.

(** What the C standard promises of [rand] and [RAND_MAX]. *)
Definition generator_ok (g : Generator) : Prop :=
  32767 <= RAND_MAX g <= INT_MAX /\
  forall st, 0 <= fst (rand g st) <= RAND_MAX g.

(** [(rand() / (float)RAND_MAX - 0.5f) * 0.1f] *)
Definition random_value (rand_max r : Z) : f32 :=
  F32.mul
    (F32.sub (F32.div (F32.of_Z r) (F32.of_Z rand_max)) (F32.lit 1 2))
    (F32.lit 1 10).

(** The loop [for (i = 0; i < n; i++) data[i] = ...]: [todo] elements are
    still to be written, [data] is the part of the buffer from index [i]
    on.  Writing past the end of the buffer has no defined result. *)
Fixpoint init_random_loop (g : Generator) (todo : nat) (data : list f32)
    (st : rng_state g) : option (list f32 * rng_state g) :=
  match todo with
  | O => Some (data, st)
  | S todo' =>
      match data with
      | [] => None
      | _ :: rest =>
          let (r, st') := rand g st in
          match init_random_loop g todo' rest st' with
          | Some (rest', st'') => Some (random_value (RAND_MAX g) r :: rest', st'')
          | None => None
          end
      end
  end.

(** [init_random(data, n, seed)]: the generator state [st] found at the call
    is replaced by [srand(seed)]; the result is the buffer and the generator
    state left behind. *)
Definition init_random (g : Generator) (data : list f32) (n : nat) (seed : Z)
    (st : rng_state g) : option (list f32 * rng_state g) :=
  init_random_loop g n data (srand g seed).

(** The default seed. *)
Definition default_seed : Z := 42.

(** ** Verify results *)

(** The line written to [stderr] on a mismatch. *)
Record Mismatch : Type := mkMismatch {
  mm_index : nat;
  mm_ref : f32;
  mm_test : f32;
  mm_diff : f32
}.

(** The default tolerance [1e-3f]. *)
Definition default_tol : f32 := F32.lit 1 1000.

(** [fabsf(ref[i] - test[i])] and the test [diff > tol]. *)
Definition diff_at (r t : f32) : f32 := F32.abs (F32.sub r t).
Definition exceeds (tol r t : f32) : bool := F32.gtb (diff_at r t) tol.

(** The loop of [verify_results] from index [i], [todo] indices remaining.
    The result is the returned boolean and what was written to [stderr];
    reading past the end of a buffer has no defined result. *)
Fixpoint verify_loop (ref test : list f32) (tol : f32) (i todo : nat)
    : option (bool * option Mismatch) :=
  match todo with
  | O => Some (true, None)
  | S todo' =>
      match nth_error ref i, nth_error test i with
      | Some r, Some t =>
          if exceeds tol r t
          then Some (false, Some (mkMismatch i r t (diff_at r t)))
          else verify_loop ref test tol (S i) todo'
      | _, _ => None
      end
  end.

Definition verify_results (ref test : list f32) (n : nat) (tol : f32)
    : option (bool * option Mismatch) :=
  verify_loop ref test tol 0 n.

(** ** Formatted output *)

Definition nl : string := String (ascii_of_nat 10) EmptyString.

Definition decimal (n : Z) : string := NilZero.string_of_uint (N.to_uint (Z.to_N n)).

Fixpoint zeros (k : nat) : string :=
  match k with O => EmptyString | S k' => String "0" (zeros k') end.

(** The nearest integer to [m * 2^e * 10^p], ties to even. *)
Definition scaled_round (m : positive) (e : Z) (p : nat) : Z :=
  let num := Z.pos m * 10 ^ Z.of_nat p in
  if 0 <=? e then num * 2 ^ e
  else
    let den := 2 ^ (- e) in
    let q := num / den in
    let r := num mod den in
    match 2 * r ?= den with
    | Lt => q
    | Gt => q + 1
    | Eq => if Z.even q then q else q + 1
    end.

(** [n / 10^p] with [p] digits after the point. *)
Definition fixed (p : nat) (n : Z) : string :=
  let whole := decimal (n / 10 ^ Z.of_nat p) in
  match p with
  | O => whole
  | _ =>
      let frac := decimal (n mod 10 ^ Z.of_nat p) in
      whole ++ "." ++ zeros (p - String.length frac) ++ frac
  end.

Definition sign_string (s : bool) : string := if s then "-" else "".

(** The conversion [%.pf] of [printf] applied to a [float] (passed as a
    [double], which holds every [float] exactly). *)
Definition format_f (p : nat) (x : f32) : string :=
  match x with
  | S754_nan => "nan"
  | S754_infinity s => sign_string s ++ "inf"
  | S754_zero s => sign_string s ++ fixed p 0
  | S754_finite s m e => sign_string s ++ fixed p (scaled_round m e p)
  end.

(** ** Print statistics *)

(** The local variables of [print_stats]. *)
Record Stats : Type := mkStats {
  flops : f32;
  bytes : f32;
  gflops : f32;
  bandwidth_gb : f32;
  arithmetic_intensity : f32
}.

(** [2.0f * batch_size * num_heads * seq_len * seq_len * head_dim]: a
    product of [float]s from left to right, every [int] converted first. *)
Definition flops_of (cfg : AttentionConfig) : f32 :=
  F32.mul (F32.mul (F32.mul (F32.mul (F32.mul (F32.of_Z 2)
    (F32.of_Z (batch_size cfg))) (F32.of_Z (num_heads cfg)))
    (F32.of_Z (seq_len cfg))) (F32.of_Z (seq_len cfg)))
    (F32.of_Z (head_dim cfg)).

(** [cfg.qkv_size() * 3 + cfg.output_size()] on [size_t]. *)
Definition bytes_moved (cfg : AttentionConfig) : option Z :=
  q <- qkv_size cfg ;;
  o <- output_size cfg ;;
  Some (size_add (size_mul q 3) o).

Definition memory_bound (ai : f32) : bool := F32.ltb ai (F32.of_Z 10).

Definition derive_stats (time_ms : f32) (cfg : AttentionConfig) : option Stats :=
  n <- bytes_moved cfg ;;
  let flops := flops_of cfg in
  let bytes := F32.of_Z n in
  let gflops := F32.div flops (F32.mul time_ms (F32.of_Z 1000000)) in
  let bandwidth_gb := F32.div bytes (F32.mul time_ms (F32.of_Z 1000000)) in
  let arithmetic_intensity := F32.div flops bytes in
  Some (mkStats flops bytes gflops bandwidth_gb arithmetic_intensity).

(** The five lines printed after the header. *)
Definition metric_lines (time_ms : f32) (st : Stats) : list string :=
  [ "Time: " ++ format_f 3 time_ms ++ " ms";
    "GFLOPS: " ++ format_f 2 (gflops st);
    "Bandwidth: " ++ format_f 2 (bandwidth_gb st) ++ " GB/s";
    "Arithmetic Intensity: " ++ format_f 2 (arithmetic_intensity st) ++ " FLOP/Byte";
    "Memory-bound: " ++ (if memory_bound (arithmetic_intensity st) then "YES" else "NO") ]%string.

Fixpoint unlines (ls : list string) : string :=
  match ls with
  | [] => EmptyString
  | l :: ls' => (l ++ nl ++ unlines ls')%string
  end.

(** What [print_stats(name, time_ms, cfg)] writes to [stdout]. *)
Definition print_stats (name : string) (time_ms : f32) (cfg : AttentionConfig)
    : option string :=
  st <- derive_stats time_ms cfg ;;
  Some (nl ++ "=== " ++ name ++ " ===" ++ nl ++ unlines (metric_lines time_ms st))%string.

(** ** The pattern match of run_benchmarks.sh *)

Definition is_space (c : ascii) : bool :=
  let n := nat_of_ascii c in
  (n =? 32)%nat || ((9 <=? n)%nat && (n <=? 13)%nat).

Definition is_numchar (c : ascii) : bool :=
  let n := nat_of_ascii c in
  ((48 <=? n)%nat && (n <=? 57)%nat) || (n =? 46)%nat.

Fixpoint strip_prefix (p s : string) : option string :=
  match p with
  | EmptyString => Some s
  | String a p' =>
      match s with
      | String b s' => if Ascii.eqb a b then strip_prefix p' s' else None
      | EmptyString => None
      end
  end.

Fixpoint take_while (f : ascii -> bool) (s : string) : string :=
  match s with
  | String c s' => if f c then String c (take_while f s') else EmptyString
  | EmptyString => EmptyString
  end.

Fixpoint drop_while (f : ascii -> bool) (s : string) : string :=
  match s with
  | String c s' => if f c then drop_while f s' else s
  | EmptyString => EmptyString
  end.

(** A match of [label\s+\K[\d.]+] at the start of [s]: what follows [\K],
    and the number of characters of the whole match. *)
Definition match_here (label s : string) : option (string * nat) :=
  match strip_prefix label s with
  | Some rest =>
      match take_while is_space rest with
      | EmptyString => None
      | ws =>
          match take_while is_numchar (drop_while is_space rest) with
          | EmptyString => None
          | num =>
              Some (num, (String.length label + String.length ws + String.length num)%nat)
          end
      end
  | None => None
  end.

(** The matches in a line from left to right, as [grep -oP] prints them:
    after a match the search resumes behind it ([skip] characters are still
    part of the last match). *)
Fixpoint grep_line (label : string) (skip : nat) (s : string) : list string :=
  match skip with
  | S skip' =>
      match s with
      | String _ s' => grep_line label skip' s'
      | EmptyString => []
      end
  | O =>
      match match_here label s with
      | Some (num, len) =>
          num :: match s with
                 | String _ s' => grep_line label (len - 1) s'
                 | EmptyString => []
                 end
      | None =>
          match s with
          | String _ s' => grep_line label 0 s'
          | EmptyString => []
          end
      end
  end.

(** The lines of a text. *)
Fixpoint lines_from (cur : string -> string) (s : string) : list string :=
  match s with
  | EmptyString => [cur EmptyString]
  | String c s' =>
      if Ascii.eqb c (ascii_of_nat 10)
      then cur EmptyString :: lines_from (fun t => t) s'
      else lines_from (fun t => cur (String c t)) s'
  end.

Definition lines_of (s : string) : list string := lines_from (fun t => t) s.

Definition grep_o (label output : string) : list string :=
  flat_map (grep_line label 0) (lines_of output).

Fixpoint join_lines (ls : list string) : string :=
  match ls with
  | [] => EmptyString
  | [l] => l
  | l :: ls' => (l ++ nl ++ join_lines ls')%string
  end.

(** The shell variable set by
    [$(echo "$output" | grep -oP 'label\s+\K[\d.]+' || echo "N/A")]. *)
Definition parse_metric (label output : string) : string :=
  match grep_o label output with
  | [] => "N/A"
  | ms => join_lines ms
  end.

Definition parse_latency : string -> string := parse_metric "Latency:".
Definition parse_throughput : string -> string := parse_metric "Throughput:".
Definition parse_bandwidth : string -> string := parse_metric "Bandwidth:".

(** * The rest of attention_common.h, and run_benchmarks.sh

    ** Error checking macro *)

Definition hipError_t : Type := Z.
Definition hipSuccess : hipError_t := 0.
Definition EXIT_FAILURE : Z := 1.

(** The HIP runtime is no part of the repository: its calls are a
    parameter.  A call takes the state of the runtime and gives the error
    code, what it stored through its first argument, and the next state. *)
Record HipRuntime : Type := mkHipRuntime {
  hip_state : Type;
  hipEvent_t : Type;
  hipEventCreate : hip_state -> hipError_t * hipEvent_t * hip_state;
  hipEventDestroy : hipEvent_t -> hip_state -> hipError_t * hip_state;
  hipEventRecord : hipEvent_t -> Z -> hip_state -> hipError_t * hip_state;
  hipEventSynchronize : hipEvent_t -> hip_state -> hipError_t * hip_state;
  hipEventElapsedTime : hipEvent_t -> hipEvent_t -> hip_state -> hipError_t * f32 * hip_state;
  hipGetErrorString : hipError_t -> string
}.

(** A call either returns or ends the process through [exit]. *)
Inductive Outcome (S A : Type) : Type :=
| Returns (a : A) (st : S)
| Exits (status : Z) (stderr : string) (st : S).

Arguments Returns {S A} a st.
Arguments Exits {S A} status stderr st.

(** The line [HIP_CHECK] writes to [stderr]. *)
Definition hip_error_line (rt : HipRuntime) (file : string) (line : Z) (err : hipError_t)
    : string :=
  ("HIP error at " ++ file ++ ":" ++ decimal line ++ ": " ++ hipGetErrorString rt err ++ nl)%string.

(** [HIP_CHECK(call)] where [__FILE__] is [file] and [__LINE__] is [line],
    on the error code [err] the call returned in the state [st]; [k] is
    what follows the macro. *)
Definition HIP_CHECK {A : Type} (rt : HipRuntime) (file : string) (line : Z)
    (err : hipError_t) (st : hip_state rt)
    (k : hip_state rt -> Outcome (hip_state rt) A) : Outcome (hip_state rt) A :=
  if err =? hipSuccess then k st
  else Exits EXIT_FAILURE (hip_error_line rt file line err) st.

(** ** Timing utilities *)

Record GPUTimer (rt : HipRuntime) : Type := mkGPUTimer {
  start : hipEvent_t rt;
  stop : hipEvent_t rt
}.

Arguments mkGPUTimer {rt} start stop.
Arguments start {rt} g.
Arguments stop {rt} g.

(** The constructor. *)
Definition GPUTimer_new (rt : HipRuntime) (file : string) (st : hip_state rt)
    : Outcome (hip_state rt) (GPUTimer rt) :=
  let '(err1, ev1, st1) := hipEventCreate rt st in
  HIP_CHECK rt file 32 err1 st1 (fun st1 =>
  let '(err2, ev2, st2) := hipEventCreate rt st1 in
  HIP_CHECK rt file 33 err2 st2 (fun st2 =>
  Returns (mkGPUTimer ev1 ev2) st2)).

(** The destructor: the error codes are dropped. *)
Definition GPUTimer_delete {rt : HipRuntime} (t : GPUTimer rt) (st : hip_state rt)
    : hip_state rt :=
  let (_, st1) := hipEventDestroy rt (start t) st in
  let (_, st2) := hipEventDestroy rt (stop t) st1 in
  st2.

Definition record_start {rt : HipRuntime} (file : string) (t : GPUTimer rt) (stream : Z)
    (st : hip_state rt) : Outcome (hip_state rt) unit :=
  let (err, st1) := hipEventRecord rt (start t) stream st in
  HIP_CHECK rt file 42 err st1 (fun st1 => Returns tt st1).

Definition record_stop {rt : HipRuntime} (file : string) (t : GPUTimer rt) (stream : Z)
    (st : hip_state rt) : Outcome (hip_state rt) unit :=
  let (err, st1) := hipEventRecord rt (stop t) stream st in
  HIP_CHECK rt file 46 err st1 (fun st1 => Returns tt st1).

Definition elapsed_ms {rt : HipRuntime} (file : string) (t : GPUTimer rt)
    (st : hip_state rt) : Outcome (hip_state rt) f32 :=
  let (err1, st1) := hipEventSynchronize rt (stop t) st in
  HIP_CHECK rt file 50 err1 st1 (fun st1 =>
  let '(err2, ms, st2) := hipEventElapsedTime rt (start t) (stop t) st1 in
  HIP_CHECK rt file 52 err2 st2 (fun st2 =>
  Returns ms st2)).

(** ** run_benchmarks.sh *)

(** Shell arithmetic [$(( ))]: 64-bit signed integers with wrap-around; [/]
    truncates towards zero. *)
Definition wrap64 (z : Z) : Z := (z + 2 ^ 63) mod 2 ^ 64 - 2 ^ 63.
Definition sh_mul (a b : Z) : Z := wrap64 (a * b).
Definition sh_div (a b : Z) : Z := wrap64 (Z.quot a b).

(** Configurations to test. *)
Definition BATCH_SIZES : list Z := [1; 2; 4; 8].
Definition NUM_HEADS : list Z := [8; 12; 16].
Definition SEQ_LENS : list Z := [128; 256; 512; 1024; 2048; 4096].
Definition HEAD_DIMS : list Z := [64; 128].

(** [mem_estimate=$((batch * heads * seqlen * seqlen * 4 / 1024 / 1024))] *)
Definition mem_estimate (batch heads seqlen : Z) : Z :=
  sh_div (sh_div (sh_mul (sh_mul (sh_mul (sh_mul batch heads) seqlen) seqlen) 4) 1024) 1024.

(** The test [[ "$mem_estimate" -gt 8192 ]] before [continue]. *)
Definition skipped (batch heads seqlen : Z) : bool :=
  8192 <? mem_estimate batch heads seqlen.

(** The configurations the four nested loops reach past the test, in the
    order of the loops: batch, heads, head dimension, sequence length. *)
Definition matrix_runs : list (Z * Z * Z * Z) :=
  flat_map (fun batch =>
    flat_map (fun heads =>
      flat_map (fun headdim =>
        flat_map (fun seqlen =>
          if skipped batch heads seqlen then [] else [(batch, heads, seqlen, headdim)])
          SEQ_LENS)
        HEAD_DIMS)
      NUM_HEADS)
    BATCH_SIZES.

Definition impls : list string := ["naive"; "shared"; "flash"]%string.

(** The calls of [run_benchmark] of the whole matrix, in order. *)
Definition matrix_steps : list (string * (Z * Z * Z * Z)) :=
  flat_map (fun cfg => map (fun impl => (impl, cfg)) impls) matrix_runs.

Definition csv_header : string :=
  "attention_type,batch_size,num_heads,seq_len,head_dim,time_ms,tflops,bandwidth_gbps"%string.

(** The line [run_benchmark] appends to the results file, from the words
    it was called with and the output of the binary. *)
Definition csv_row (impl batch heads seqlen headdim output : string) : string :=
  (impl ++ "," ++ batch ++ "," ++ heads ++ "," ++ seqlen ++ "," ++ headdim ++ ","
   ++ parse_latency output ++ "," ++ parse_throughput output
   ++ "," ++ parse_bandwidth output)%string.

(** The binaries of the project, as the script sees them in one run: from
    the implementation and the arguments to the exit status and what was
    written to [stdout] and [stderr] (the script calls no binary twice with
    the same arguments). *)
Definition Runner : Type := string -> list string -> Z * string.

Definition quick_args : list string :=
  ["--seq-len"; "256"; "--heads"; "8"; "--head-dim"; "64"]%string.

Definition bench_args (batch heads seqlen headdim : string) : list string :=
  ["--batch"; batch; "--heads"; heads; "--seq-len"; seqlen; "--head-dim"; headdim]%string.

(** [run_benchmark]: under [set -e] a binary that fails ends the script at
    the assignment to [output]; otherwise the row is appended. *)
Definition run_benchmark (run : Runner) (impl batch heads seqlen headdim : string)
    : option string :=
  let (status, output) := run impl (bench_args batch heads seqlen headdim) in
  if status =? 0 then Some (csv_row impl batch heads seqlen headdim output) else None.

(** The calls [steps] one after the other, every number written in decimal
    as the word the loop variable holds; the result is the results file and
    whether the end was reached. *)
Fixpoint run_steps (run : Runner) (steps : list (string * (Z * Z * Z * Z)))
    (file : list string) : list string * bool :=
  match steps with
  | [] => (file, true)
  | (impl, (batch, heads, seqlen, headdim)) :: rest =>
      match run_benchmark run impl (decimal batch) (decimal heads) (decimal seqlen)
              (decimal headdim) with
      | Some row => run_steps run rest (file ++ [row])
      | None => (file, false)
      end
  end.

(** The quick validation test: every binary once, with the default
    batch. *)
Definition quick_validation (run : Runner) : bool :=
  forallb (fun impl => fst (run impl quick_args) =? 0) impls.

(** The script: the lines of the results file, and whether the script ran
    to its end.  [make_status] is the exit status of [make all]; the other
    commands (mkdir, date, echo, cat, sort, head) are taken to succeed, and
    what the script writes to its own [stdout] is left out. *)
Definition run_benchmarks (make_status : Z) (run : Runner) : list string * bool :=
  let file := [csv_header] in
  if negb (make_status =? 0) then (file, false)
  else if negb (quick_validation run) then (file, false)
  else run_steps run matrix_steps file.

(** * Predicates and values of the statements *)

(** The value the specification names for [scale]: [1/sqrt(head_dim)], the
    square root and the quotient each rounded to single precision. *)
Definition inv_sqrt_f32 (d : Z) : f32 :=
  F32.div (F32.of_Z 1) (F32.sqrt (F32.of_Z d)).

(** [x * x * d] lies within [2^-22] of 1, for a positive finite [x]: how
    close [x] is to the real number [1/sqrt d]. *)
Definition near_inv_sqrt (x : f32) (d : Z) : bool :=
  match x with
  | S754_finite false m e =>
      (e <? 0) &&
      (Z.abs (Z.pos m * Z.pos m * d - 2 ^ (- (2 * e))) * 2 ^ 22 <=? 2 ^ (- (2 * e)))
  | _ => false
  end.

Definition head_dims_upto (n : nat) : list Z :=
  map (fun k => Z.of_nat (S k)) (seq 0 n).

(** Index [i] is an offending one: both buffers hold an element there and
    [fabsf(ref[i] - test[i]) > tol]. *)
Definition mismatch_at (ref test : list f32) (tol : f32) (i : nat) : Prop :=
  exists r t, nth_error ref i = Some r /\ nth_error test i = Some t /\
              exceeds tol r t = true.

(** What [verify_loop] returned, read as a statement about the indices
    [lo <= k < hi]. *)
Definition verify_outcome (ref test : list f32) (tol : f32) (lo hi : nat)
    (res : bool * option Mismatch) : Prop :=
  match res with
  | (true, None) => forall k, (lo <= k < hi)%nat -> ~ mismatch_at ref test tol k
  | (false, Some mm) =>
      (lo <= mm_index mm < hi)%nat /\
      nth_error ref (mm_index mm) = Some (mm_ref mm) /\
      nth_error test (mm_index mm) = Some (mm_test mm) /\
      mm_diff mm = diff_at (mm_ref mm) (mm_test mm) /\
      exceeds tol (mm_ref mm) (mm_test mm) = true /\
      forall j, (lo <= j < mm_index mm)%nat -> ~ mismatch_at ref test tol j
  | _ => False
  end.

(** [-0.05f <= x <= 0.05f], as C++ compares [float]s.  The constant
    [0.05f] is the single-precision number [13421773 * 2^-28], which is
    [20 / (100 * 2^28)] above the real number 0.05. *)
Definition in_bounds (x : f32) : bool :=
  F32.leb (F32.opp (F32.lit 5 100)) x && F32.leb x (F32.lit 5 100).

(** A linear congruential generator with [RAND_MAX = 2^31 - 1], as an
    example of a generator. *)
Definition lcg : Generator :=
  {| rng_state := Z;
     RAND_MAX := 2147483647;
     srand := fun seed => seed mod 2 ^ 31;
     rand := fun st => let st' := (1103515245 * st + 12345) mod 2 ^ 31 in (st', st') |}.

(** The integer a [float] stands for, when it is one. *)
Definition int_value (x : f32) : option Z :=
  match x with
  | S754_zero _ => Some 0
  | S754_finite s m e =>
      let v := if 0 <=? e then Some (Z.pos m * 2 ^ e)
               else if Z.pos m mod 2 ^ (- e) =? 0 then Some (Z.pos m / 2 ^ (- e))
               else None in
      option_map (fun z => if s then - z else z) v
  | _ => None
  end.

(** The conversion of [z] to [float] loses nothing. *)
Definition exact_int (z : Z) : bool :=
  match int_value (F32.of_Z z) with
  | Some v => v =? z
  | None => false
  end.

(** The numbers [print_stats] derives are exact: every dimension, every
    partial product of the FLOP count and the number of bytes convert to
    [float] without rounding. *)
Definition stats_exact (cfg : AttentionConfig) : bool :=
  let b := batch_size cfg in
  let h := num_heads cfg in
  let s := seq_len cfg in
  let d := head_dim cfg in
  exact_int b && exact_int h && exact_int s && exact_int d &&
  exact_int (2 * b) && exact_int (2 * b * h) && exact_int (2 * b * h * s) &&
  exact_int (2 * b * h * s * s) && exact_int (2 * b * h * s * s * d) &&
  exact_int (b * h * s * d * 16).

(** The configurations of the benchmark matrix of run_benchmarks.sh. *)
Definition benchmark_matrix : list AttentionConfig :=
  flat_map (fun b =>
    flat_map (fun h =>
      flat_map (fun d =>
        map (fun s => AttentionConfig_new b h s d) [128; 256; 512; 1024; 2048; 4096])
        [64; 128])
      [8; 12; 16])
    [1; 2; 4; 8].

(** [s] ends with [suffix]. *)
Definition ends_with (s suffix : string) : Prop :=
  exists pre, s = (pre ++ suffix)%string.

Fixpoint string_forall (f : ascii -> bool) (s : string) : bool :=
  match s with
  | EmptyString => true
  | String c s' => f c && string_forall f s'
  end.

(** The characters [%f] writes: digits, the point, the sign, and the letters
    of [inf] and [nan]. *)
Definition is_fmt_char (c : ascii) : bool :=
  is_numchar c || existsb (Ascii.eqb c) ["-"; "i"; "n"; "f"; "a"]%char.

(** [label] and [u] differ at a position both have. *)
Fixpoint clash (label u : string) : bool :=
  match label, u with
  | String a label', String b u' => if Ascii.eqb a b then clash label' u' else true
  | _, _ => false
  end.

(** No match of [label] can start inside [pre], whatever follows [pre]. *)
Fixpoint suffixes_clash (label pre : string) : bool :=
  match pre with
  | EmptyString => true
  | String _ pre' => clash label pre && suffixes_clash label pre'
  end.

(** A number [%f] writes with digits only: finite and with no sign. *)
Definition nonneg_finite (x : f32) : bool :=
  match x with
  | S754_zero false | S754_finite false _ _ => true
  | _ => false
  end.

(** ** Further predicates and values *)

(** The number a [float] stands for is above the rational [num / den], for
    a positive [den]; never for a NaN. *)
Definition above_ratio (x : f32) (num den : Z) : bool :=
  match x with
  | S754_zero _ => num <? 0
  | S754_infinity s => negb s
  | S754_nan => false
  | S754_finite s m e =>
      let v := if s then - Z.pos m else Z.pos m in
      if 0 <=? e then num <? v * 2 ^ e * den else num * 2 ^ (- e) <? v * den
  end.

(** The number a [float] stands for is below [num / den]. *)
Definition below_ratio (x : f32) (num den : Z) : bool :=
  match x with
  | S754_zero _ => 0 <? num
  | S754_infinity s => s
  | S754_nan => false
  | S754_finite s m e =>
      let v := if s then - Z.pos m else Z.pos m in
      if 0 <=? e then v * 2 ^ e * den <? num else v * den <? num * 2 ^ (- e)
  end.

(** The report of [verify_results] with the roles of the two buffers
    exchanged. *)
Definition swap_mismatch (mm : Mismatch) : Mismatch :=
  mkMismatch (mm_index mm) (mm_test mm) (mm_ref mm) (mm_diff mm).

Definition swap_result (res : bool * option Mismatch) : bool * option Mismatch :=
  (fst res, option_map swap_mismatch (snd res)).

(** The report of [verify_results] on a part of the buffers that starts at
    index [k]. *)
Definition shift_mismatch (k : nat) (mm : Mismatch) : Mismatch :=
  mkMismatch (k + mm_index mm) (mm_ref mm) (mm_test mm) (mm_diff mm).

Definition shift_result (k : nat) (res : bool * option Mismatch) : bool * option Mismatch :=
  (fst res, option_map (shift_mismatch k) (snd res)).

(** The order of two numbers of the same sign: by the exponent, then by the
    mantissa. *)
Definition lex (e1 : Z) (m1 : positive) (e2 : Z) (m2 : positive) : comparison :=
  match e1 ?= e2 with
  | Lt => Lt
  | Gt => Gt
  | Eq => Pos.compare_cont Eq m1 m2
  end.

(** The number of occurrences of a character. *)
Fixpoint count_char (c : ascii) (s : string) : nat :=
  match s with
  | EmptyString => O
  | String x s' => ((if Ascii.eqb c x then 1 else 0) + count_char c s')%nat
  end.

Definition comma : ascii := ","%char.
Definition newline : ascii := ascii_of_nat 10.

(** The row a successful call writes. *)
Definition row_of (run : Runner) (step : string * (Z * Z * Z * Z)) : string :=
  let '(impl, (batch, heads, seqlen, headdim)) := step in
  csv_row impl (decimal batch) (decimal heads) (decimal seqlen) (decimal headdim)
    (snd (run impl (bench_args (decimal batch) (decimal heads) (decimal seqlen)
                      (decimal headdim)))).

Definition step_status (run : Runner) (step : string * (Z * Z * Z * Z)) : Z :=
  let '(impl, (batch, heads, seqlen, headdim)) := step in
  fst (run impl (bench_args (decimal batch) (decimal heads) (decimal seqlen)
                   (decimal headdim))).

(** The number of lines of a file whose entries were each written by one
    [echo]: an entry ends its line, and holds a line for every line break
    in it. *)
Definition file_lines (file : list string) : nat :=
  list_sum (map (fun entry => S (count_char newline entry)) file).

(** The matches the three patterns find in the output of a call beyond the
    first of each. *)
Definition extra_matches (run : Runner) (step : string * (Z * Z * Z * Z)) : nat :=
  let '(impl, (batch, heads, seqlen, headdim)) := step in
  let output := snd (run impl (bench_args (decimal batch) (decimal heads) (decimal seqlen)
                                 (decimal headdim))) in
  (Nat.pred (List.length (grep_o "Latency:" output))
   + Nat.pred (List.length (grep_o "Throughput:" output))
   + Nat.pred (List.length (grep_o "Bandwidth:" output)))%nat.

(** A name with no line break and without the first letters of the three
    labels of the pattern match. *)
Definition plain_name (name : string) : bool :=
  string_forall (fun c => negb (existsb (Ascii.eqb c) [newline; "L"; "T"; "B"]%char)) name.

Definition no_nl (c : ascii) : bool := negb (Ascii.eqb c newline).

(** An outcome that is an exit is the one of [HIP_CHECK]: status
    [EXIT_FAILURE] and one line on [stderr], for an error code other than
    [hipSuccess] at one of the [lines] of [file]. *)
Definition hip_exit {rt : HipRuntime} {A : Type} (file : string) (lines : list Z)
    (o : Outcome (hip_state rt) A) : Prop :=
  match o with
  | Returns _ _ => True
  | Exits status stderr _ =>
      status = EXIT_FAILURE /\
      exists line err, In line lines /\ err <> hipSuccess /\
                       stderr = hip_error_line rt file line err
  end.

(** * The start of a run *)

(** Modelled from the spec: the error kinds of section 7 that end a run
    before the strategy is invoked.  The drivers (the [main] functions of
    attention_naive.hip, attention_shared.hip and attention_flash.hip, and
    benchmark.cpp) are not under src/. *)
Inductive RunError : Type :=
| AllocationFailure
| DimensionMismatch.

(** Modelled from the spec: what the benchmark driver of section 4.4 does
    in one run, in order: it allocates the buffers, fills them with
    pseudo-random values from a fixed seed, invokes the strategy once on the
    workload and writes a metrics record.  The driver is not under src/. *)
Inductive RunStep : Type :=
| Allocate (cfg : AttentionConfig)
| Fill (seed : Z)
| Invoke (cfg : AttentionConfig)
| Report (cfg : AttentionConfig).

(** Modelled from the spec: the start of a run (the drivers are not under
    src/), as the steps taken and the error that ended the run, if any.
    Section 7 (b): a workload descriptor that violates an invariant
    (non-positive dimension, head_dim above a supported maximum) is rejected
    before any computation starts; section 7 (a): insufficient memory for
    the requested workload is fatal and aborts the run; otherwise the
    driver goes through the steps of section 4.4.  The invariant is
    [config_valid], with the maximum [MAX_HEAD_DIM] of attention_common.h;
    whether the memory suffices is a parameter. *)
Definition start_run (can_allocate : AttentionConfig -> bool) (cfg : AttentionConfig)
    : list RunStep * option RunError :=
  if negb (config_valid cfg) then ([], Some DimensionMismatch)
  else if negb (can_allocate cfg) then ([], Some AllocationFailure)
  else ([Allocate cfg; Fill default_seed; Invoke cfg; Report cfg], None).

(** * Rounding to nearest even

    Facts about the standard library's [binary_round_aux] and the operations
    built on it, for any precision [prec] and any maximal exponent [emax]. *)

Section Rounding.

Variables prec emax : Z.
Hypothesis Hprec : 0 < prec.
Hypothesis Hemax : prec < emax.

Local Abbreviation fexp := (SpecFloat.fexp prec emax).
Local Abbreviation emin := (SpecFloat.emin prec emax).

(** The last step of rounding, on the rounded mantissa [m2] at exponent [e1]. *)
Definition finish (s : bool) (m2 e1 : Z) : spec_float :=
  match m2 with
  | Z.pos p =>
      if m2 <? 2 ^ prec
      then (if e1 <=? emax - prec then S754_finite s p e1 else S754_infinity s)
      else (if e1 + 1 <=? emax - prec
            then S754_finite s (Z.to_pos (2 ^ (prec - 1))) (e1 + 1)
            else S754_infinity s)
  | _ => S754_zero s
  end.

(** Values are compared as integers, in units of [2^t0]: [t0] lies below
    every exponent that occurs. *)
Definition t0 : Z := 2 * emin - emax.

Definition scaled (m e : Z) : Z := m * 2 ^ (e - t0).

(** The upper end of the interval a mantissa with a location stands for. *)
Definition upper (m : Z) (l : location) : Z :=
  match l with loc_Exact => m | loc_Inexact _ => m + 1 end.

(** A result whose magnitude is at most the number [mB * 2^eB]. *)
Definition mag_le (x : spec_float) (mB : positive) (eB : Z) : Prop :=
  match x with
  | S754_zero _ => True
  | S754_finite _ m e =>
      bounded prec emax m e = true /\ scaled (Z.pos m) e <= scaled (Z.pos mB) eB
  | _ => False
  end.

Definition sign_is (x : spec_float) (s : bool) : Prop :=
  match x with
  | S754_zero s' | S754_finite s' _ _ | S754_infinity s' => s' = s
  | S754_nan => False
  end.

(** The number one. *)
Definition one_m : positive := Z.to_pos (2 ^ (prec - 1)).
Definition one_e : Z := 1 - prec.

Definition loc_of_rem (r K : Z) : location :=
  if r =? 0 then loc_Exact else loc_Inexact (2 * r ?= K).

(** [m / K] rounded to the nearest integer, ties to even. *)
Definition rnd_int (m K : Z) : Z := round_nearest_even (m / K) (loc_of_rem (m mod K) K).

(** The value [binary_round] gives, for a number that does not overflow and
    an exponent in range. *)
Definition round_value (m : positive) (e : Z) : Z :=
  let E := fexp (Z.pos (digits2_pos m) + e) in
  if E <=? e then scaled (Z.pos m) e
  else scaled (rnd_int (Z.pos m) (2 ^ (E - e))) E.

Lemma digits2_pos_size (p : positive) : digits2_pos p = Pos.size p.
Proof. induction p; simpl; congruence. Qed.

Lemma digits_bounds (p : positive) :
  2 ^ (Z.pos (digits2_pos p) - 1) <= Z.pos p < 2 ^ Z.pos (digits2_pos p).
Proof.
  induction p as [p IH|p IH|]; simpl digits2_pos.
  - rewrite Pos2Z.inj_succ. replace (Z.succ (Z.pos (digits2_pos p)) - 1) with (Z.succ (Z.pos (digits2_pos p) - 1)) by lia.
    rewrite !Z.pow_succ_r by lia. lia.
  - rewrite Pos2Z.inj_succ. replace (Z.succ (Z.pos (digits2_pos p)) - 1) with (Z.succ (Z.pos (digits2_pos p) - 1)) by lia.
    rewrite !Z.pow_succ_r by lia. lia.
  - simpl. lia.
Qed.

Lemma digits_unique (p : positive) (d : Z) :
  2 ^ (d - 1) <= Z.pos p < 2 ^ d -> Z.pos (digits2_pos p) = d.
Proof.
  intros [Hlo Hhi]. pose proof (digits_bounds p) as [Blo Bhi].
  assert (Hd : 0 < d).
  { destruct (Z.ltb_spec 0 d); [assumption|]. 
    assert (2 ^ d <= 2 ^ 0) by (apply Z.pow_le_mono_r; lia). simpl in *. lia. }
  assert (d - 1 < Z.pos (digits2_pos p)).
  { apply (Z.pow_lt_mono_r_iff 2); lia. }
  assert (Z.pos (digits2_pos p) - 1 < d).
  { apply (Z.pow_lt_mono_r_iff 2); lia. }
  lia.
Qed.

Lemma digits_mul_pow2 (p : positive) (k : Z) : 0 <= k ->
  Zdigits2 (Z.pos p * 2 ^ k) = Z.pos (digits2_pos p) + k.
Proof.
  intros Hk. pose proof (digits_bounds p) as [Blo Bhi].
  assert (Hpos : 0 < 2 ^ k) by (apply Z.pow_pos_nonneg; lia).
  destruct (Z.pos p * 2 ^ k) as [|q|q] eqn:E; try lia.
  unfold Zdigits2. apply digits_unique. rewrite <- E.
  replace (Z.pos (digits2_pos p) + k - 1) with (Z.pos (digits2_pos p) - 1 + k) by lia.
  rewrite !Z.pow_add_r by lia. split; nia.
Qed.


Lemma digits_le (p q : positive) :
  Z.pos p <= Z.pos q -> Z.pos (digits2_pos p) <= Z.pos (digits2_pos q).
Proof.
  intros H. pose proof (digits_bounds p) as [Plo Phi].
  pose proof (digits_bounds q) as [Qlo Qhi].
  assert (Z.pos (digits2_pos p) - 1 < Z.pos (digits2_pos q)).
  { apply (Z.pow_lt_mono_r_iff 2); lia. }
  lia.
Qed.

(** Iteration *)
Lemma iter_pos_nat {A : Type} (f : A -> A) (p : positive) (x : A) :
  iter_pos f p x = Nat.iter (Pos.to_nat p) f x.
Proof.
  revert x. induction p as [p IH|p IH|]; intros x; simpl iter_pos.
  - rewrite !IH. rewrite Pos2Nat.inj_xI.
    replace (S (2 * Pos.to_nat p))%nat with (Pos.to_nat p + (Pos.to_nat p + 1))%nat by lia.
    rewrite !Nat.iter_add. simpl. reflexivity.
  - rewrite !IH. rewrite Pos2Nat.inj_xO.
    replace (2 * Pos.to_nat p)%nat with (Pos.to_nat p + Pos.to_nat p)%nat by lia.
    rewrite Nat.iter_add. reflexivity.
  - reflexivity.
Qed.

Lemma shr_1_m (mrs : shr_record) : 0 <= shr_m mrs -> shr_m (shr_1 mrs) = shr_m mrs / 2.
Proof.
  destruct mrs as [m r s]. simpl shr_m. intros Hm.
  destruct m as [|[p|p|]|p]; try lia; unfold shr_1; cbn [shr_m].
  - reflexivity.
  - rewrite Pos2Z.inj_xI. apply Z.div_unique with (r := 1); lia.
  - rewrite Pos2Z.inj_xO. apply Z.div_unique with (r := 0); lia.
  - reflexivity.
Qed.

Lemma shr_iter_m (n : nat) (mrs : shr_record) :
  0 <= shr_m mrs ->
  shr_m (Nat.iter n shr_1 mrs) = shr_m mrs / 2 ^ Z.of_nat n.
Proof.
  intros Hm. induction n as [|n IH].
  - simpl. rewrite Z.div_1_r. reflexivity.
  - cbn [Nat.iter nat_rect]. 
    assert (Hnn : 0 <= shr_m (Nat.iter n shr_1 mrs)).
    { rewrite IH. apply Z.div_pos; [lia|]. apply Z.pow_pos_nonneg; lia. }
    change (shr_m (shr_1 (Nat.iter n shr_1 mrs)) = shr_m mrs / 2 ^ Z.of_nat (S n)).
    rewrite shr_1_m by exact Hnn. rewrite IH.
    rewrite Nat2Z.inj_succ, Z.pow_succ_r by lia.
    rewrite Z.div_div by (try lia; apply Z.pow_pos_nonneg; lia).
    f_equal. lia.
Qed.

Lemma shr_iter_exact (n : nat) (x : Z) : 0 <= x ->
  Nat.iter n shr_1 (Build_shr_record (x * 2 ^ Z.of_nat n) false false)
  = Build_shr_record x false false.
Proof.
  intros Hx. revert x Hx. induction n as [|n IH]; intros x Hx.
  - simpl. f_equal. lia.
  - rewrite Nat2Z.inj_succ, Z.pow_succ_r by lia.
    change (Nat.iter (S n) shr_1 ?r) with (shr_1 (Nat.iter n shr_1 r)).
    replace (x * (2 * 2 ^ Z.of_nat n)) with ((2 * x) * 2 ^ Z.of_nat n) by lia.
    rewrite IH by lia.
    destruct x as [|p|p]; try lia; reflexivity.
Qed.

Lemma round_nearest_even_le (m : Z) (l : location) :
  m <= round_nearest_even m l <= m + 1.
Proof.
  destruct l as [|[| |]]; simpl; try lia. destruct (Z.even m); lia.
Qed.

Lemma fexp_mono (a b : Z) : a <= b -> fexp a <= fexp b.
Proof. unfold SpecFloat.fexp. lia. Qed.

Lemma fexp_ge_emin (a : Z) : emin <= fexp a.
Proof. unfold SpecFloat.fexp. lia. Qed.

Lemma shr_m_of_loc (m : Z) (l : location) : shr_m (shr_record_of_loc m l) = m.
Proof. destruct l as [|[| |]]; reflexivity. Qed.

(** The first step of rounding: the mantissa is cut down to the precision. *)
Lemma shr_fexp_spec (m : positive) (e : Z) (l : location) :
  let e1 := fexp (Z.pos (digits2_pos m) + e) in
  e <= e1 ->
  snd (shr_fexp prec emax (Z.pos m) e l) = e1 /\
  shr_m (fst (shr_fexp prec emax (Z.pos m) e l)) = Z.pos m / 2 ^ (e1 - e) /\
  (l = loc_Exact -> Z.pos m mod 2 ^ (e1 - e) = 0 ->
   loc_of_shr_record (fst (shr_fexp prec emax (Z.pos m) e l)) = loc_Exact).
Proof.
  intros e1 He. unfold shr_fexp, shr. unfold Zdigits2. fold e1.
  destruct (e1 - e) as [|k|k] eqn:Ek; try lia.
  - cbn [fst snd]. rewrite shr_m_of_loc, Z.div_1_r.
    split; [lia|]. split; [reflexivity|]. intros -> _. reflexivity.
  - cbn [fst snd]. rewrite iter_pos_nat.
    split; [lia|]. split.
    + rewrite shr_iter_m by (rewrite shr_m_of_loc; lia).
      rewrite shr_m_of_loc, positive_nat_Z. reflexivity.
    + intros -> Hmod. cbn [shr_record_of_loc].
      assert (Hm : Z.pos m = Z.pos m / 2 ^ Z.pos k * 2 ^ Z.of_nat (Pos.to_nat k)).
      { rewrite positive_nat_Z. 
        pose proof (Z.div_mod (Z.pos m) (2 ^ Z.pos k)) as D.
        assert (0 < 2 ^ Z.pos k) by (apply Z.pow_pos_nonneg; lia). lia. }
      rewrite Hm at 1. rewrite shr_iter_exact; [reflexivity|].
      apply Z.div_pos; [lia|]. apply Z.pow_pos_nonneg; lia.
Qed.

Lemma div_pow2_digits (m : positive) (k : Z) : 0 <= k ->
  Z.pos m / 2 ^ k < 2 ^ (Z.pos (digits2_pos m) - k) \/ Z.pos (digits2_pos m) < k.
Proof.
  intros Hk. destruct (Z.ltb_spec (Z.pos (digits2_pos m)) k) as [Hlt|Hge]; [right; exact Hlt|left].
  pose proof (digits_bounds m) as [_ Hhi].
  apply Z.div_lt_upper_bound; [apply Z.pow_pos_nonneg; lia|].
  rewrite <- Z.pow_add_r by lia. replace (k + (Z.pos (digits2_pos m) - k)) with (Z.pos (digits2_pos m)) by lia.
  exact Hhi.
Qed.

Lemma shifted_lt_prec (m : positive) (e : Z) :
  let e1 := fexp (Z.pos (digits2_pos m) + e) in
  e <= e1 -> Z.pos m / 2 ^ (e1 - e) < 2 ^ prec.
Proof.
  intros e1 He.
  assert (Hk : Z.pos (digits2_pos m) - prec <= e1 - e).
  { unfold e1, SpecFloat.fexp. lia. }
  destruct (div_pow2_digits m (e1 - e)) as [H|H]; [lia| |].
  - eapply Z.lt_le_trans; [exact H|]. apply Z.pow_le_mono_r; lia.
  - pose proof (digits_bounds m) as [_ Hhi].
    rewrite Z.div_small.
    + apply Z.pow_pos_nonneg; lia.
    + split; [lia|]. eapply Z.lt_le_trans; [exact Hhi|]. apply Z.pow_le_mono_r; lia.
Qed.

Lemma shifted_ge_normal (m : positive) (e : Z) :
  let e1 := fexp (Z.pos (digits2_pos m) + e) in
  e <= e1 -> emin < e1 -> 2 ^ (prec - 1) <= Z.pos m / 2 ^ (e1 - e).
Proof.
  intros e1 He Hn.
  assert (Hk : e1 - e = Z.pos (digits2_pos m) - prec).
  { unfold e1, SpecFloat.fexp in *. lia. }
  rewrite Hk. pose proof (digits_bounds m) as [Hlo _].
  apply Z.div_le_lower_bound; [apply Z.pow_pos_nonneg; lia|].
  rewrite <- Z.pow_add_r by lia.
  replace (Z.pos (digits2_pos m) - prec + (prec - 1)) with (Z.pos (digits2_pos m) - 1) by lia.
  exact Hlo.
Qed.

Lemma digits_of_pow2 (k : Z) : 0 <= k -> Zdigits2 (2 ^ k) = k + 1.
Proof.
  intros Hk. assert (0 < 2 ^ k) by (apply Z.pow_pos_nonneg; lia).
  destruct (2 ^ k) as [|p|p] eqn:E; try lia. unfold Zdigits2.
  apply digits_unique. rewrite <- E. replace (k + 1 - 1) with k by lia.
  split; [lia|]. rewrite Z.pow_add_r by lia. lia.
Qed.

(** Second call of [shr_fexp], on a mantissa already within the precision. *)
Lemma shr_fexp_small (p : positive) (e1 : Z) :
  Z.pos p < 2 ^ prec -> emin <= e1 ->
  shr_fexp prec emax (Z.pos p) e1 loc_Exact = (Build_shr_record (Z.pos p) false false, e1).
Proof.
  intros Hp He. unfold shr_fexp, shr, Zdigits2.
  assert (Hd : Z.pos (digits2_pos p) <= prec).
  { pose proof (digits_bounds p) as [Hlo _].
    assert (Z.pos (digits2_pos p) - 1 < prec) by (apply (Z.pow_lt_mono_r_iff 2); lia). lia. }
  assert (Hk : fexp (Z.pos (digits2_pos p) + e1) - e1 <= 0).
  { unfold SpecFloat.fexp. lia. }
  destruct (fexp (Z.pos (digits2_pos p) + e1) - e1); try lia; reflexivity.
Qed.

Lemma shr_fexp_pow2 (e1 : Z) : emin <= e1 ->
  shr_fexp prec emax (2 ^ prec) e1 loc_Exact
  = (Build_shr_record (2 ^ (prec - 1)) false false, e1 + 1).
Proof.
  intros He. unfold shr_fexp, shr. rewrite digits_of_pow2 by lia.
  replace (fexp (prec + 1 + e1) - e1) with 1 by (unfold SpecFloat.fexp; lia).
  cbn [iter_pos shr_record_of_loc]. f_equal.
  replace prec with (Z.succ (prec - 1)) at 1 by lia.
  rewrite Z.pow_succ_r by lia.
  assert (0 < 2 ^ (prec - 1)) by (apply Z.pow_pos_nonneg; lia).
  destruct (2 ^ (prec - 1)) as [|q|q]; try lia. reflexivity.
Qed.

(** The shape of every result of [binary_round_aux]. *)
Lemma round_aux_form (s : bool) (m : positive) (e : Z) (l : location) :
  let e1 := fexp (Z.pos (digits2_pos m) + e) in
  let m1 := Z.pos m / 2 ^ (e1 - e) in
  e <= e1 ->
  exists m2, m1 <= m2 <= m1 + 1 /\
    (l = loc_Exact -> Z.pos m mod 2 ^ (e1 - e) = 0 -> m2 = m1) /\
    binary_round_aux prec emax s (Z.pos m) e l = finish s m2 e1.
Proof.
  intros e1 m1 He.
  destruct (shr_fexp_spec m e l He) as [Hsnd [Hm Hex]]. fold e1 in Hsnd, Hm, Hex.
  pose proof (shifted_lt_prec m e He) as Hlt. fold e1 in Hlt. fold m1 in Hlt, Hm.
  unfold binary_round_aux.
  destruct (shr_fexp prec emax (Z.pos m) e l) as [mrs' e'] eqn:E1. cbn [fst snd] in *. subst e'.
  set (m2 := round_nearest_even (shr_m mrs') (loc_of_shr_record mrs')).
  exists m2.
  assert (Hm2 : m1 <= m2 <= m1 + 1).
  { unfold m2. rewrite <- Hm. apply round_nearest_even_le. }
  assert (Hm1 : 0 <= m1).
  { unfold m1. apply Z.div_pos; [lia|]. apply Z.pow_pos_nonneg; lia. }
  split; [exact Hm2|]. split.
  { intros Hl Hmod. unfold m2. rewrite (Hex Hl Hmod). cbn [round_nearest_even]. exact Hm. }
  pose proof (fexp_ge_emin (Z.pos (digits2_pos m) + e)) as Hemin. fold e1 in Hemin.
  destruct m2 as [|p|p] eqn:Em2; try lia.
  - unfold shr_fexp, shr, Zdigits2. cbn [finish].
    assert (Hk : fexp (0 + e1) - e1 <= 0) by (unfold SpecFloat.fexp; lia).
    destruct (fexp (0 + e1) - e1); try lia; reflexivity.
  - unfold finish. destruct (Z.ltb_spec (Z.pos p) (2 ^ prec)) as [Hsmall|Hbig].
    + rewrite shr_fexp_small by assumption. cbn [shr_m]. reflexivity.
    + assert (Ep : Z.pos p = 2 ^ prec) by lia. rewrite Ep.
      rewrite shr_fexp_pow2 by assumption. cbn [shr_m].
      assert (0 < 2 ^ (prec - 1)) by (apply Z.pow_pos_nonneg; lia).
      destruct (2 ^ (prec - 1)) as [|q|q] eqn:Eq; try lia.
      rewrite Pos2Z.id. reflexivity.
Qed.

Lemma bounded_inv (m : positive) (e : Z) :
  bounded prec emax m e = true ->
  fexp (Z.pos (digits2_pos m) + e) = e /\ e <= emax - prec /\ emin <= e /\
  Z.pos (digits2_pos m) <= prec /\ Z.pos m < 2 ^ prec.
Proof.
  unfold bounded, canonical_mantissa. intros H.
  apply andb_true_iff in H. destruct H as [Hc Hb].
  apply Z.eqb_eq in Hc. apply Z.leb_le in Hb.
  assert (Hd : Z.pos (digits2_pos m) <= prec) by (unfold SpecFloat.fexp in Hc; lia).
  repeat split; try assumption.
  - rewrite <- Hc. apply fexp_ge_emin.
  - pose proof (digits_bounds m) as [_ Hhi].
    eapply Z.lt_le_trans; [exact Hhi|]. apply Z.pow_le_mono_r; lia.
Qed.

Lemma t0_lt_emin : t0 < emin.
Proof. unfold t0, SpecFloat.emin. lia. Qed.

Lemma scaled_pos (m e : Z) : 0 < m -> t0 <= e -> 0 < scaled m e.
Proof.
  intros Hm He. unfold scaled. apply Z.mul_pos_pos; [exact Hm|].
  apply Z.pow_pos_nonneg; lia.
Qed.

Lemma scaled_shift (m e k : Z) : 0 <= k -> t0 <= e ->
  scaled (m * 2 ^ k) e = scaled m (e + k).
Proof.
  intros Hk He. unfold scaled.
  replace (e + k - t0) with (k + (e - t0)) by lia.
  rewrite Z.pow_add_r by lia. lia.
Qed.

(** A value that is at most another has at most its magnitude. *)
Lemma scaled_le_digits (m n : positive) (e f : Z) :
  t0 <= e -> t0 <= f ->
  scaled (Z.pos m) e <= scaled (Z.pos n) f ->
  Z.pos (digits2_pos m) + e <= Z.pos (digits2_pos n) + f.
Proof.
  intros He Hf H. unfold scaled in H.
  pose proof (digits_bounds m) as [Mlo _]. pose proof (digits_bounds n) as [_ Nhi].
  assert (P1 : 0 < 2 ^ (e - t0)) by (apply Z.pow_pos_nonneg; lia).
  assert (P2 : 0 < 2 ^ (f - t0)) by (apply Z.pow_pos_nonneg; lia).
  assert (L : 2 ^ (Z.pos (digits2_pos m) - 1 + (e - t0)) < 2 ^ (Z.pos (digits2_pos n) + (f - t0))).
  { rewrite !Z.pow_add_r by lia. nia. }
  apply Z.pow_lt_mono_r_iff in L; lia.
Qed.

(** Rounding an exactly representable number gives this number. *)
Lemma round_aux_exact (s : bool) (m m' : positive) (e e' : Z) :
  bounded prec emax m' e' = true -> e <= e' ->
  Z.pos m = Z.pos m' * 2 ^ (e' - e) ->
  binary_round_aux prec emax s (Z.pos m) e loc_Exact = S754_finite s m' e'.
Proof.
  intros Hb He Hm. destruct (bounded_inv m' e' Hb) as [Hc [Hle [Hge [Hd Hlt]]]].
  assert (Hdig : Z.pos (digits2_pos m) = Z.pos (digits2_pos m') + (e' - e)).
  { change (Z.pos (digits2_pos m)) with (Zdigits2 (Z.pos m)). rewrite Hm.
    apply digits_mul_pow2. lia. }
  assert (He1 : fexp (Z.pos (digits2_pos m) + e) = e').
  { rewrite Hdig. replace (Z.pos (digits2_pos m') + (e' - e) + e) with (Z.pos (digits2_pos m') + e') by lia.
    exact Hc. }
  assert (He' : e <= fexp (Z.pos (digits2_pos m) + e)) by lia.
  destruct (round_aux_form s m e loc_Exact He') as [m2 [_ [Hex Hres]]].
  rewrite He1 in Hex, Hres.
  assert (P : 0 < 2 ^ (e' - e)) by (apply Z.pow_pos_nonneg; lia).
  assert (Hm2 : m2 = Z.pos m').
  { rewrite Hex; [|reflexivity|].
    - rewrite Hm. apply Z.div_mul. lia.
    - rewrite Hm. apply Z.mod_mul. lia. }
  rewrite Hres, Hm2. unfold finish.
  destruct (Z.ltb_spec (Z.pos m') (2 ^ prec)); [|lia].
  destruct (Z.leb_spec e' (emax - prec)); [reflexivity|lia].
Qed.

(** Every result of rounding is a valid number. *)
Lemma finish_valid (s : bool) (m2 e1 : Z) :
  emin <= e1 -> 0 <= m2 <= 2 ^ prec ->
  (emin < e1 -> 2 ^ (prec - 1) <= m2) ->
  valid_binary prec emax (finish s m2 e1) = true.
Proof.
  intros He Hm Hn. unfold finish.
  destruct m2 as [|p|p]; try reflexivity.
  destruct (Z.ltb_spec (Z.pos p) (2 ^ prec)) as [Hs|Hb].
  - destruct (Z.leb_spec e1 (emax - prec)) as [Hle|Hgt]; [|reflexivity].
    cbn [valid_binary]. unfold bounded, canonical_mantissa.
    apply andb_true_iff. split; [|apply Z.leb_le; exact Hle].
    apply Z.eqb_eq.
    pose proof (digits_bounds p) as [Plo Phi].
    assert (Hd : Z.pos (digits2_pos p) <= prec).
    { assert (Z.pos (digits2_pos p) - 1 < prec) by (apply (Z.pow_lt_mono_r_iff 2); lia). lia. }
    destruct (Z.eq_dec e1 emin) as [->|Hne].
    + unfold SpecFloat.fexp. lia.
    + assert (Hp : 2 ^ (prec - 1) <= Z.pos p) by (apply Hn; lia).
      assert (prec - 1 < Z.pos (digits2_pos p)) by (apply (Z.pow_lt_mono_r_iff 2); lia).
      unfold SpecFloat.fexp. lia.
  - destruct (Z.leb_spec (e1 + 1) (emax - prec)) as [Hle|Hgt]; [|reflexivity].
    cbn [valid_binary]. unfold bounded, canonical_mantissa.
    apply andb_true_iff. split; [|apply Z.leb_le; exact Hle].
    apply Z.eqb_eq.
    assert (P : 0 < 2 ^ (prec - 1)) by (apply Z.pow_pos_nonneg; lia).
    assert (Hd : Z.pos (digits2_pos (Z.to_pos (2 ^ (prec - 1)))) = prec).
    { apply digits_unique. rewrite Z2Pos.id by lia.
      split; [apply Z.pow_le_mono_r; lia|apply Z.pow_lt_mono_r; lia]. }
    rewrite Hd. unfold SpecFloat.fexp. lia.
Qed.

Lemma round_aux_valid (s : bool) (m : positive) (e : Z) (l : location) :
  e <= fexp (Z.pos (digits2_pos m) + e) ->
  valid_binary prec emax (binary_round_aux prec emax s (Z.pos m) e l) = true.
Proof.
  intros He.
  destruct (round_aux_form s m e l He) as [m2 [Hm2 [_ Hres]]].
  rewrite Hres.
  pose proof (shifted_lt_prec m e He) as Hlt.
  assert (P : 0 < 2 ^ (fexp (Z.pos (digits2_pos m) + e) - e)) by (apply Z.pow_pos_nonneg; lia).
  assert (H0 : 0 <= Z.pos m / 2 ^ (fexp (Z.pos (digits2_pos m) + e) - e)) by (apply Z.div_pos; lia).
  apply finish_valid.
  - apply fexp_ge_emin.
  - lia.
  - intros Hn. pose proof (shifted_ge_normal m e He Hn). lia.
Qed.

Lemma finish_sign (s : bool) (m2 e1 : Z) : sign_is (finish s m2 e1) s.
Proof.
  unfold finish. destruct m2; try reflexivity.
  destruct (_ <? _); destruct (_ <=? _); reflexivity.
Qed.

(** Rounding never crosses a representable number. *)
Lemma round_aux_le (s : bool) (m : positive) (e : Z) (l : location)
    (mB : positive) (eB : Z) :
  t0 <= e -> e <= fexp (Z.pos (digits2_pos m) + e) ->
  bounded prec emax mB eB = true ->
  scaled (upper (Z.pos m) l) e <= scaled (Z.pos mB) eB ->
  mag_le (binary_round_aux prec emax s (Z.pos m) e l) mB eB /\
  sign_is (binary_round_aux prec emax s (Z.pos m) e l) s.
Proof.
  intros Ht He HB Hle.
  destruct (bounded_inv mB eB HB) as [HcB [HleB [HgeB [HdB HltB]]]].
  pose proof t0_lt_emin as Ht0.
  pose proof (round_aux_valid s m e l He) as Hvalid.
  destruct (round_aux_form s m e l He) as [m2 [Hm2 [Hex Hres]]].
  rewrite Hres in *. split; [|apply finish_sign].
  set (e1 := fexp (Z.pos (digits2_pos m) + e)) in *.
  set (K := 2 ^ (e1 - e)) in *.
  set (m1 := Z.pos m / K) in *.
  assert (PK : 0 < K) by (apply Z.pow_pos_nonneg; lia).
  assert (Hup : Z.pos m <= upper (Z.pos m) l) by (destruct l; simpl; lia).
  assert (PT : 0 < 2 ^ (e - t0)) by (apply Z.pow_pos_nonneg; lia).
  (* magnitudes *)
  assert (He1B : e1 <= eB).
  { rewrite <- HcB. apply fexp_mono. apply scaled_le_digits; try lia.
    unfold scaled in *. nia. }
  (* the bound in units of 2^e1 *)
  set (MB := Z.pos mB * 2 ^ (eB - e1)).
  assert (PB : 0 < 2 ^ (eB - e1)) by (apply Z.pow_pos_nonneg; lia).
  assert (HMB : scaled (Z.pos mB) eB = MB * K * 2 ^ (e - t0)).
  { unfold scaled, MB, K.
    replace (eB - t0) with ((eB - e1) + (e1 - e) + (e - t0)) by lia.
    rewrite !Z.pow_add_r by lia. lia. }
  assert (Hupper : upper (Z.pos m) l <= MB * K).
  { rewrite HMB in Hle. unfold scaled in Hle. nia. }
  assert (Hdm : Z.pos m = K * m1 + Z.pos m mod K) by (apply Z.div_mod; lia).
  assert (Hmod : 0 <= Z.pos m mod K < K) by (apply Z.mod_pos_bound; lia).
  assert (Hm2B : m2 <= MB).
  { destruct (Z.eq_dec m2 m1) as [->|Hne]; [nia|].
    assert (Hm2' : m2 = m1 + 1) by lia.
    assert (Hstrict : K * m1 < upper (Z.pos m) l).
    { destruct l as [|c]; simpl upper.
      - destruct (Z.eq_dec (Z.pos m mod K) 0) as [Hz|Hnz].
        + exfalso. apply Hne. apply Hex; [reflexivity|exact Hz].
        + lia.
      - lia. }
    nia. }
  assert (Hval : scaled m2 e1 <= scaled (Z.pos mB) eB).
  { rewrite HMB. unfold scaled.
    replace (e1 - t0) with ((e1 - e) + (e - t0)) by lia.
    rewrite Z.pow_add_r by lia. fold K.
    rewrite Z.mul_assoc. apply Z.mul_le_mono_nonneg_r; [lia|].
    apply Z.mul_le_mono_nonneg_r; lia. }
  unfold finish in *. destruct m2 as [|p|p]; try exact I.
  destruct (Z.ltb_spec (Z.pos p) (2 ^ prec)) as [Hs|Hb].
  - destruct (Z.leb_spec e1 (emax - prec)) as [Hl|Hg]; [|lia].
    split; [exact Hvalid|exact Hval].
  - assert (Hp : Z.pos p = 2 ^ prec).
    { pose proof (shifted_lt_prec m e He). fold e1 K m1 in H. lia. }
    assert (HeB1 : e1 + 1 <= eB).
    { destruct (Z.eq_dec eB e1) as [E|E]; [|lia].
      exfalso. unfold MB in Hm2B. rewrite E, Z.sub_diag in Hm2B. simpl in Hm2B. lia. }
    destruct (Z.leb_spec (e1 + 1) (emax - prec)) as [Hl|Hg]; [|lia].
    split; [exact Hvalid|].
    assert (P1 : 0 < 2 ^ (prec - 1)) by (apply Z.pow_pos_nonneg; lia).
    rewrite Z2Pos.id by lia.
    replace (scaled (2 ^ (prec - 1)) (e1 + 1)) with (scaled (Z.pos p) e1); [exact Hval|].
    rewrite Hp. unfold scaled.
    replace (e1 + 1 - t0) with (1 + (e1 - t0)) by lia.
    replace prec with (1 + (prec - 1)) at 1 by lia.
    rewrite !Z.pow_add_r by lia. lia.
Qed.

Lemma iter_xO_pow2 (d m : positive) : Z.pos (Pos.iter xO m d) = Z.pos m * 2 ^ Z.pos d.
Proof.
  induction d as [|d IH] using Pos.peano_ind.
  - simpl. lia.
  - rewrite Pos.iter_succ, Pos2Z.inj_xO, IH, Pos2Z.inj_succ, Z.pow_succ_r by lia. lia.
Qed.

Lemma shl_align_spec (m : positive) (e e' : Z) :
  (e' < e /\ shl_align m e e' = (Z.to_pos (Z.pos m * 2 ^ (e - e')), e')) \/
  (e <= e' /\ shl_align m e e' = (m, e)).
Proof.
  unfold shl_align. destruct (e' - e) as [|d|d] eqn:E.
  - right. split; [lia|reflexivity].
  - right. split; [lia|reflexivity].
  - left. split; [lia|]. f_equal.
    replace (e - e') with (Z.pos d) by lia.
    rewrite <- iter_xO_pow2, Pos2Z.id. reflexivity.
Qed.

Lemma shl_align_fst (m : positive) (e e' : Z) : e' <= e ->
  Z.pos (fst (shl_align m e e')) = Z.pos m * 2 ^ (e - e').
Proof.
  intros He. assert (P : 0 < 2 ^ (e - e')) by (apply Z.pow_pos_nonneg; lia).
  destruct (shl_align_spec m e e') as [[Hlt ->]|[Hge ->]]; cbn [fst].
  - rewrite Z2Pos.id by lia. reflexivity.
  - replace (e - e') with 0 by lia. simpl. lia.
Qed.

(** [binary_round] first brings the mantissa to at least the precision. *)
Lemma binary_round_form (s : bool) (m : positive) (e : Z) :
  exists m' e', binary_round prec emax s m e = binary_round_aux prec emax s (Z.pos m') e' loc_Exact /\
    e' <= fexp (Z.pos (digits2_pos m') + e') /\ e' <= e /\
    Z.pos m' = Z.pos m * 2 ^ (e - e') /\ (e' = e \/ e' = fexp (Z.pos (digits2_pos m') + e')).
Proof.
  unfold binary_round.
  set (e1 := fexp (Z.pos (digits2_pos m) + e)).
  destruct (shl_align_spec m e e1) as [[Hlt ->]|[Hge ->]].
  - assert (P : 0 < 2 ^ (e - e1)) by (apply Z.pow_pos_nonneg; lia).
    exists (Z.to_pos (Z.pos m * 2 ^ (e - e1))), e1.
    assert (Hd : Z.pos (digits2_pos (Z.to_pos (Z.pos m * 2 ^ (e - e1)))) + e1 = Z.pos (digits2_pos m) + e).
    { pose proof (digits_mul_pow2 m (e - e1)) as D.
      destruct (Z.pos m * 2 ^ (e - e1)) as [|q|q] eqn:Eq; try lia.
      rewrite Pos2Z.id. unfold Zdigits2 in D. rewrite D by lia. lia. }
    split; [reflexivity|]. rewrite Hd. fold e1.
    split; [lia|]. split; [lia|]. split; [rewrite Z2Pos.id by lia; reflexivity|]. right. reflexivity.
  - exists m, e. split; [reflexivity|]. fold e1. split; [exact Hge|]. split; [lia|].
    split; [rewrite Z.sub_diag; simpl; lia|]. left. reflexivity.
Qed.

Lemma binary_round_le (s : bool) (m : positive) (e : Z) (mB : positive) (eB : Z) :
  t0 <= e ->
  bounded prec emax mB eB = true ->
  scaled (Z.pos m) e <= scaled (Z.pos mB) eB ->
  mag_le (binary_round prec emax s m e) mB eB /\
  sign_is (binary_round prec emax s m e) s.
Proof.
  intros Ht HB Hle.
  destruct (binary_round_form s m e) as [m' [e' [-> [He' [Hee [Hm' Hor]]]]]].
  assert (Ht' : t0 <= e').
  { destruct Hor as [E|E]; [lia|].
    pose proof (fexp_ge_emin (Z.pos (digits2_pos m') + e')). pose proof t0_lt_emin. lia. }
  apply round_aux_le; try assumption.
  cbn [upper]. rewrite Hm'. rewrite scaled_shift by lia.
  replace (e' + (e - e')) with e by lia. exact Hle.
Qed.

Lemma binary_round_valid (s : bool) (m : positive) (e : Z) :
  valid_binary prec emax (binary_round prec emax s m e) = true.
Proof.
  destruct (binary_round_form s m e) as [m' [e' [-> [He' _]]]].
  apply round_aux_valid. exact He'.
Qed.

Lemma binary_round_exact (s : bool) (m m' : positive) (e e' : Z) :
  bounded prec emax m' e' = true ->
  (e <= e' /\ Z.pos m = Z.pos m' * 2 ^ (e' - e) \/
   e' <= e /\ Z.pos m' = Z.pos m * 2 ^ (e - e')) ->
  binary_round prec emax s m e = S754_finite s m' e'.
Proof.
  intros HB Hv.
  destruct (bounded_inv m' e' HB) as [HcB [HleB [HgeB [HdB HltB]]]].
  destruct (binary_round_form s m e) as [m1 [e1 [-> [He1 [Hee [Hm1 Hor]]]]]].
  assert (Hdig : Z.pos (digits2_pos m1) + e1 = Z.pos (digits2_pos m') + e').
  { destruct Hv as [[Hle Hm]|[Hle Hm]].
    - assert (Z.pos m1 = Z.pos m' * 2 ^ (e' - e1)).
      { rewrite Hm1, Hm. rewrite <- Z.mul_assoc, <- Z.pow_add_r by lia. f_equal. f_equal. lia. }
      pose proof (digits_mul_pow2 m' (e' - e1)) as D. rewrite <- H in D.
      unfold Zdigits2 in D. rewrite D by lia. lia.
    - pose proof (digits_mul_pow2 m (e - e1)) as D1. rewrite <- Hm1 in D1.
      pose proof (digits_mul_pow2 m (e - e')) as D2. rewrite <- Hm in D2.
      unfold Zdigits2 in D1, D2. rewrite D1, D2 by lia. lia. }
  assert (He1' : e1 <= e').
  { rewrite <- HcB, <- Hdig. exact He1. }
  apply round_aux_exact; try assumption.
  destruct Hv as [[Hle Hm]|[Hle Hm]].
  - rewrite Hm1, Hm. rewrite <- Z.mul_assoc, <- Z.pow_add_r by lia. f_equal. f_equal. lia.
  - rewrite Hm1, Hm. rewrite <- Z.mul_assoc, <- Z.pow_add_r by lia. f_equal. f_equal. lia.
Qed.

(** Canonical numbers are ordered by exponent first. *)
Lemma bounded_order (m n : positive) (e f : Z) :
  bounded prec emax m e = true -> bounded prec emax n f = true ->
  scaled (Z.pos m) e <= scaled (Z.pos n) f ->
  e < f \/ (e = f /\ (m <= n)%positive).
Proof.
  intros Hm Hn Hle.
  destruct (bounded_inv m e Hm) as [Hc [_ [Hge _]]].
  destruct (bounded_inv n f Hn) as [Hc' [_ [Hge' _]]].
  pose proof t0_lt_emin as Ht.
  assert (Hd : Z.pos (digits2_pos m) + e <= Z.pos (digits2_pos n) + f).
  { apply scaled_le_digits; try lia. }
  apply fexp_mono in Hd. rewrite Hc, Hc' in Hd.
  destruct (Z.eq_dec e f) as [->|Hne]; [right|left; lia].
  split; [reflexivity|]. unfold scaled in Hle.
  assert (P : 0 < 2 ^ (f - t0)) by (apply Z.pow_pos_nonneg; lia).
  apply Pos2Z.pos_le_pos. nia.
Qed.

(** Magnitude at most [B] means between [-B] and [B] for the comparison of
    floating-point numbers. *)
Lemma mag_le_leb (x : spec_float) (mB : positive) (eB : Z) :
  bounded prec emax mB eB = true ->
  mag_le x mB eB ->
  SFleb (S754_finite true mB eB) x = true /\ SFleb x (S754_finite false mB eB) = true.
Proof.
  intros HB Hx. destruct x as [s|s| |s m e]; try contradiction.
  - destruct s; split; reflexivity.
  - destruct Hx as [Hb Hle].
    destruct (bounded_order m mB e eB Hb HB Hle) as [Hlt|[-> Hmm]].
    + destruct s; split; try reflexivity; unfold SFleb, SFcompare.
      * rewrite (proj2 (Z.compare_gt_iff eB e)) by lia. reflexivity.
      * rewrite (proj2 (Z.compare_lt_iff e eB)) by lia. reflexivity.
    + destruct s; split; try reflexivity; unfold SFleb, SFcompare; rewrite Z.compare_refl.
      * change (Pos.compare_cont Eq mB m) with (Pos.compare mB m).
        destruct (Pos.compare_spec mB m); try reflexivity. lia.
      * change (Pos.compare_cont Eq m mB) with (Pos.compare m mB).
        destruct (Pos.compare_spec m mB); try reflexivity. lia.
Qed.

Lemma digits_mul_ge (m n : positive) :
  Z.pos (digits2_pos m) + Z.pos (digits2_pos n) - 1 <= Z.pos (digits2_pos (m * n)).
Proof.
  pose proof (digits_bounds m) as [Mlo _]. pose proof (digits_bounds n) as [Nlo _].
  pose proof (digits_bounds (m * n)) as [_ Phi].
  assert (L : 2 ^ ((Z.pos (digits2_pos m) - 1) + (Z.pos (digits2_pos n) - 1)) < 2 ^ Z.pos (digits2_pos (m * n))).
  { rewrite Z.pow_add_r by lia. rewrite Pos2Z.inj_mul in Phi.
    assert (0 < 2 ^ (Z.pos (digits2_pos m) - 1)) by (apply Z.pow_pos_nonneg; lia).
    assert (0 < 2 ^ (Z.pos (digits2_pos n) - 1)) by (apply Z.pow_pos_nonneg; lia).
    nia. }
  apply Z.pow_lt_mono_r_iff in L; lia.
Qed.

(** Product with a normal number [y]. *)
Lemma mul_mag_le (sx sy : bool) (mx my : positive) (ex ey : Z) (mB : positive) (eB : Z) :
  bounded prec emax mx ex = true -> bounded prec emax my ey = true ->
  Z.pos (digits2_pos my) = prec ->
  bounded prec emax mB eB = true ->
  scaled (Z.pos mx * Z.pos my) (ex + ey) <= scaled (Z.pos mB) eB ->
  mag_le (SFmul prec emax (S754_finite sx mx ex) (S754_finite sy my ey)) mB eB.
Proof.
  intros Hx Hy Hn HB Hle. cbn [SFmul].
  destruct (bounded_inv mx ex Hx) as [_ [_ [Hgx _]]].
  destruct (bounded_inv my ey Hy) as [_ [_ [Hgy _]]].
  apply round_aux_le; try assumption.
  - unfold t0. unfold SpecFloat.emin in *. lia.
  - pose proof (digits_mul_ge mx my). unfold SpecFloat.fexp. lia.
Qed.

(** Difference of two non-negative numbers. *)
Lemma sub_mag_le (mx my : positive) (ex ey : Z) (mB : positive) (eB : Z) :
  bounded prec emax mx ex = true -> bounded prec emax my ey = true ->
  bounded prec emax mB eB = true ->
  Z.abs (scaled (Z.pos mx) ex - scaled (Z.pos my) ey) <= scaled (Z.pos mB) eB ->
  mag_le (SFsub prec emax (S754_finite false mx ex) (S754_finite false my ey)) mB eB.
Proof.
  intros Hx Hy HB Hle. cbn [SFsub cond_Zopp].
  destruct (bounded_inv mx ex Hx) as [_ [_ [Hgx _]]].
  destruct (bounded_inv my ey Hy) as [_ [_ [Hgy _]]].
  pose proof t0_lt_emin as Ht.
  set (ez := Z.min ex ey).
  rewrite !shl_align_fst by (unfold ez; lia).
  assert (Hsx : scaled (Z.pos mx * 2 ^ (ex - ez)) ez = scaled (Z.pos mx) ex).
  { rewrite scaled_shift by (unfold ez; lia). f_equal. lia. }
  assert (Hsy : scaled (Z.pos my * 2 ^ (ey - ez)) ez = scaled (Z.pos my) ey).
  { rewrite scaled_shift by (unfold ez; lia). f_equal. lia. }
  assert (Hd : scaled (Z.pos mx * 2 ^ (ex - ez) - Z.pos my * 2 ^ (ey - ez)) ez
               = scaled (Z.pos mx) ex - scaled (Z.pos my) ey).
  { rewrite <- Hsx, <- Hsy. unfold scaled. lia. }
  destruct (Z.pos mx * 2 ^ (ex - ez) - Z.pos my * 2 ^ (ey - ez)) as [|p|p] eqn:En;
    cbn [binary_normalize].
  - exact I.
  - apply binary_round_le; try assumption; [unfold ez; lia|]. lia.
  - apply binary_round_le; try assumption; [unfold ez; lia|].
    assert (scaled (Z.neg p) ez = - scaled (Z.pos p) ez) by (unfold scaled; lia). lia.
Qed.

Lemma one_m_val : Z.pos one_m = 2 ^ (prec - 1).
Proof.
  unfold one_m. assert (0 < 2 ^ (prec - 1)) by (apply Z.pow_pos_nonneg; lia).
  rewrite Z2Pos.id by lia. reflexivity.
Qed.

Lemma one_digits : Z.pos (digits2_pos one_m) = prec.
Proof.
  apply digits_unique. rewrite one_m_val.
  split; [lia|]. apply Z.pow_lt_mono_r; lia.
Qed.

Lemma one_bounded : bounded prec emax one_m one_e = true.
Proof.
  unfold bounded, canonical_mantissa. rewrite one_digits.
  apply andb_true_iff. split; [apply Z.eqb_eq|apply Z.leb_le];
    unfold one_e, SpecFloat.fexp, SpecFloat.emin; lia.
Qed.

Lemma scaled_one : scaled (Z.pos one_m) one_e = 2 ^ (- t0).
Proof.
  unfold scaled, one_e. rewrite one_m_val.
  pose proof t0_lt_emin. unfold SpecFloat.emin in *.
  rewrite <- Z.pow_add_r by lia. f_equal. lia.
Qed.

Lemma new_location_upper (n r q : Z) :
  upper q (new_location n r) = if r =? 0 then q else q + 1.
Proof.
  unfold new_location, new_location_even, new_location_odd.
  destruct (Z.even n); destruct (r =? 0); reflexivity.
Qed.

(** A quotient of two positive numbers, the first one at most the second,
    is at most one. *)
Lemma div_mag_le_one (mx my : positive) (ex ey : Z) :
  bounded prec emax mx ex = true -> bounded prec emax my ey = true ->
  scaled (Z.pos mx) ex <= scaled (Z.pos my) ey ->
  emin + prec <= (Z.pos (digits2_pos mx) + ex) - (Z.pos (digits2_pos my) + ey) ->
  mag_le (SFdiv prec emax (S754_finite false mx ex) (S754_finite false my ey)) one_m one_e /\
  sign_is (SFdiv prec emax (S754_finite false mx ex) (S754_finite false my ey)) false.
Proof.
  intros Hx Hy Hle Hnorm.
  destruct (bounded_inv mx ex Hx) as [_ [Hlx [Hgx [Hdx _]]]].
  destruct (bounded_inv my ey Hy) as [_ [Hly [Hgy [Hdy _]]]].
  pose proof t0_lt_emin as Ht.
  pose proof (digits_bounds mx) as [Xlo Xhi]. pose proof (digits_bounds my) as [Ylo Yhi].
  assert (HD : Z.pos (digits2_pos mx) + ex <= Z.pos (digits2_pos my) + ey).
  { apply scaled_le_digits; try lia. }
  cbn [SFdiv xorb]. unfold SFdiv_core_binary, Zdigits2.
  set (d1 := Z.pos (digits2_pos mx)) in *. set (d2 := Z.pos (digits2_pos my)) in *.
  set (e' := Z.min (fexp (d1 + ex - (d2 + ey))) (ex - ey)).
  assert (Hf : fexp (d1 + ex - (d2 + ey)) = d1 + ex - (d2 + ey) - prec).
  { unfold SpecFloat.fexp. lia. }
  assert (He'neg : e' < 0) by (unfold e'; lia).
  assert (He'lo : t0 <= e').
  { unfold e', t0. unfold SpecFloat.emin in *. lia. }
  remember (ex - ey - e') as sh eqn:Esh.
  assert (Hsh : prec - d1 + d2 <= sh) by (subst sh; unfold e'; lia).
  assert (Hm' : match sh with Z.pos _ => Z.shiftl (Z.pos mx) sh | 0 => Z.pos mx | Z.neg _ => 0 end
                = Z.pos mx * 2 ^ sh).
  { destruct sh as [|p|p] eqn:Es; try lia. apply Z.shiftl_mul_pow2. lia. }
  rewrite Hm'. clear Hm'.
  pose proof (Z_div_mod (Z.pos mx * 2 ^ sh) (Z.pos my)) as Hdiv.
  destruct (Z.div_eucl (Z.pos mx * 2 ^ sh) (Z.pos my)) as [q r].
  destruct Hdiv as [Hqr Hr]; [lia|].
  assert (Psh : 0 < 2 ^ sh) by (apply Z.pow_pos_nonneg; lia).
  (* the quotient has at least the precision *)
  assert (Hqlo : 2 ^ (d1 + sh - d2 - 1) <= q).
  { assert (L : 2 ^ (d1 + sh - d2 - 1) * 2 ^ d2 < (q + 1) * 2 ^ d2).
    { rewrite <- Z.pow_add_r by lia. replace (d1 + sh - d2 - 1 + d2) with ((d1 - 1) + sh) by lia.
      rewrite Z.pow_add_r by lia.
      assert (Hq0 : 0 <= q).
      { destruct (Z.le_gt_cases 0 q) as [G|G]; [exact G|exfalso].
        assert (Z.pos my * q <= Z.pos my * (-1)) by (apply Z.mul_le_mono_nonneg_l; lia).
        assert (0 < Z.pos mx * 2 ^ sh) by (apply Z.mul_pos_pos; lia). lia. }
      assert (A : 2 ^ (d1 - 1) * 2 ^ sh <= Z.pos mx * 2 ^ sh)
        by (apply Z.mul_le_mono_nonneg_r; lia).
      assert (C : Z.pos my * (q + 1) <= 2 ^ d2 * (q + 1))
        by (apply Z.mul_le_mono_nonneg_r; lia).
      lia. }
    assert (P2 : 0 < 2 ^ d2) by (apply Z.pow_pos_nonneg; lia).
    apply Z.mul_lt_mono_pos_r in L; lia. }
  assert (Pq : 0 < 2 ^ (d1 + sh - d2 - 1)) by (apply Z.pow_pos_nonneg; lia).
  destruct q as [|q|q]; try lia.
  assert (Hdq : d1 + sh - d2 <= Z.pos (digits2_pos q)).
  { pose proof (digits_bounds q) as [_ Qhi].
    assert (d1 + sh - d2 - 1 < Z.pos (digits2_pos q)) by (apply (Z.pow_lt_mono_r_iff 2); lia). lia. }
  apply round_aux_le; try assumption.
  - eapply Z.le_trans; [|apply fexp_mono with (a := d1 + ex - (d2 + ey)); lia].
    unfold e'. lia.
  - apply one_bounded.
  - rewrite new_location_upper, scaled_one.
    (* the quotient is at most 2^(-e') *)
    assert (Hm : Z.pos mx * 2 ^ sh <= Z.pos my * 2 ^ (- e')).
    { unfold scaled in Hle.
      assert (Hnn : 0 <= ey + e' - t0).
      { unfold e', t0. unfold SpecFloat.emin in *. lia. }
      assert (P : 0 < 2 ^ (ey + e' - t0)) by (apply Z.pow_pos_nonneg; lia).
      assert (E1 : 2 ^ (ex - t0) = 2 ^ sh * 2 ^ (ey + e' - t0)).
      { rewrite <- Z.pow_add_r by lia. f_equal. lia. }
      assert (E2 : 2 ^ (ey - t0) = 2 ^ (- e') * 2 ^ (ey + e' - t0)).
      { rewrite <- Z.pow_add_r by lia. f_equal. lia. }
      rewrite E1, E2 in Hle.
      rewrite !Z.mul_assoc in Hle. apply Z.mul_le_mono_pos_r in Hle; [exact Hle|exact P]. }
    assert (Pe : 0 < 2 ^ (- e')) by (apply Z.pow_pos_nonneg; lia).
    assert (Hup : (if r =? 0 then Z.pos q else Z.pos q + 1) <= 2 ^ (- e')).
    { destruct (Z.eqb_spec r 0) as [Hr0|Hr0].
      - subst r. assert (Z.pos my * Z.pos q <= Z.pos my * 2 ^ (- e')) by lia.
        apply Z.mul_le_mono_pos_l in H; lia.
      - assert (Z.pos my * Z.pos q < Z.pos my * 2 ^ (- e')) by lia.
        apply Z.mul_lt_mono_pos_l in H; lia. }
    unfold scaled. replace (- t0) with ((- e') + (e' - t0)) by lia.
    rewrite Z.pow_add_r by lia.
    apply Z.mul_le_mono_nonneg_r; [|exact Hup].
    apply Z.lt_le_incl, Z.pow_pos_nonneg; lia.
Qed.

(** *** The rounding decision, precisely *)

Lemma shr_1_spec (mrs : shr_record) : 0 <= shr_m mrs ->
  shr_1 mrs = Build_shr_record (shr_m mrs / 2) (Z.odd (shr_m mrs)) (shr_r mrs || shr_s mrs).
Proof.
  intros Hm. pose proof (shr_1_m mrs Hm) as Hd. rewrite <- Hd.
  destruct mrs as [m r s]. cbn [shr_m shr_r shr_s] in *.
  destruct m as [|[p|p|]|p]; try lia; reflexivity.
Qed.

Lemma loc_of_record_exact (mrs : shr_record) :
  loc_of_shr_record mrs = loc_Exact <-> shr_r mrs || shr_s mrs = false.
Proof. destruct mrs as [m [|] [|]]; simpl; split; congruence. Qed.

Lemma loc_of_rem_exact (r K : Z) : loc_of_rem r K = loc_Exact <-> r = 0.
Proof.
  unfold loc_of_rem. destruct (Z.eqb_spec r 0); split; congruence.
Qed.

Lemma shr_iter_loc (n : nat) (m : Z) : 0 <= m ->
  loc_of_shr_record (Nat.iter n shr_1 (Build_shr_record m false false))
  = loc_of_rem (m mod 2 ^ Z.of_nat n) (2 ^ Z.of_nat n).
Proof.
  intros Hm. induction n as [|n IH].
  - simpl. rewrite Z.mod_1_r. reflexivity.
  - change (Nat.iter (S n) shr_1 ?r) with (shr_1 (Nat.iter n shr_1 r)).
    set (R := Nat.iter n shr_1 (Build_shr_record m false false)) in *.
    assert (P : 0 < 2 ^ Z.of_nat n) by (apply Z.pow_pos_nonneg; lia).
    assert (HmR : shr_m R = m / 2 ^ Z.of_nat n).
    { unfold R. rewrite shr_iter_m by (simpl; lia). reflexivity. }
    assert (HR0 : 0 <= shr_m R) by (rewrite HmR; apply Z.div_pos; lia).
    rewrite shr_1_spec by exact HR0.
    rewrite Nat2Z.inj_succ, Z.pow_succ_r by lia.
    rewrite (Z.mul_comm 2), Z.rem_mul_r by lia. rewrite <- HmR.
    pose proof (Z.mod_pos_bound m (2 ^ Z.of_nat n) P) as Hrho.
    set (rho := m mod 2 ^ Z.of_nat n) in *.
    assert (Hs : shr_r R || shr_s R = negb (rho =? 0)).
    { destruct (Z.eqb_spec rho 0) as [E|E].
      - apply loc_of_record_exact. rewrite IH. apply loc_of_rem_exact. exact E.
      - destruct (shr_r R || shr_s R) eqn:Eb; [reflexivity|exfalso].
        apply loc_of_record_exact in Eb. rewrite IH in Eb. apply loc_of_rem_exact in Eb. contradiction. }
    rewrite Hs. rewrite Zodd_mod. unfold loc_of_rem.
    pose proof (Z.mod_pos_bound (shr_m R) 2 ltac:(lia)) as Hb.
    destruct (Z.eqb_spec (shr_m R mod 2) 1) as [B1|B1].
    + rewrite B1. destruct (Z.eqb_spec rho 0) as [E|E]; cbn [negb loc_of_shr_record].
      * subst rho. rewrite E. rewrite Z.add_0_l, Z.mul_1_r.
        destruct (Z.eqb_spec (2 ^ Z.of_nat n) 0); [lia|].
        rewrite (proj2 (Z.compare_eq_iff _ _)) by lia. reflexivity.
      * destruct (Z.eqb_spec (rho + 2 ^ Z.of_nat n * 1) 0); [lia|].
        rewrite (proj2 (Z.compare_gt_iff _ _)) by lia. reflexivity.
    + assert (B0 : shr_m R mod 2 = 0) by lia. rewrite B0.
      destruct (Z.eqb_spec rho 0) as [E|E]; cbn [negb loc_of_shr_record].
      * rewrite E, Z.mul_0_r. reflexivity.
      * destruct (Z.eqb_spec (rho + 2 ^ Z.of_nat n * 0) 0); [lia|].
        rewrite (proj2 (Z.compare_lt_iff _ _)) by lia. reflexivity.
Qed.

Lemma shr_fexp_loc (m : positive) (e : Z) :
  let e1 := fexp (Z.pos (digits2_pos m) + e) in
  e <= e1 ->
  loc_of_shr_record (fst (shr_fexp prec emax (Z.pos m) e loc_Exact))
  = loc_of_rem (Z.pos m mod 2 ^ (e1 - e)) (2 ^ (e1 - e)).
Proof.
  intros e1 He. unfold shr_fexp, shr. unfold Zdigits2. fold e1.
  destruct (e1 - e) as [|k|k] eqn:Ek; try lia.
  - cbn [fst shr_record_of_loc loc_of_shr_record]. rewrite Z.pow_0_r, Z.mod_1_r. reflexivity.
  - cbn [fst shr_record_of_loc]. rewrite iter_pos_nat, shr_iter_loc by lia.
    rewrite positive_nat_Z. reflexivity.
Qed.

Lemma round_aux_precise (s : bool) (m : positive) (e : Z) :
  let e1 := fexp (Z.pos (digits2_pos m) + e) in
  e <= e1 ->
  binary_round_aux prec emax s (Z.pos m) e loc_Exact
  = finish s (rnd_int (Z.pos m) (2 ^ (e1 - e))) e1.
Proof.
  intros e1 He.
  destruct (shr_fexp_spec m e loc_Exact He) as [Hsnd [Hm _]]. fold e1 in Hsnd, Hm.
  pose proof (shr_fexp_loc m e He) as Hloc. fold e1 in Hloc.
  pose proof (shifted_lt_prec m e He) as Hlt. fold e1 in Hlt.
  unfold binary_round_aux.
  destruct (shr_fexp prec emax (Z.pos m) e loc_Exact) as [mrs' e'] eqn:E1.
  cbn [fst snd] in *. subst e'. rewrite Hm, Hloc. fold (rnd_int (Z.pos m) (2 ^ (e1 - e))).
  set (m2 := rnd_int (Z.pos m) (2 ^ (e1 - e))).
  assert (Hm2 : Z.pos m / 2 ^ (e1 - e) <= m2 <= Z.pos m / 2 ^ (e1 - e) + 1)
    by (apply round_nearest_even_le).
  assert (Hm1 : 0 <= Z.pos m / 2 ^ (e1 - e)).
  { apply Z.div_pos; [lia|]. apply Z.pow_pos_nonneg; lia. }
  pose proof (fexp_ge_emin (Z.pos (digits2_pos m) + e)) as Hemin. fold e1 in Hemin.
  destruct m2 as [|p|p] eqn:Em2; try lia.
  - unfold shr_fexp, shr, Zdigits2. cbn [finish].
    assert (Hk : fexp (0 + e1) - e1 <= 0) by (unfold SpecFloat.fexp; lia).
    destruct (fexp (0 + e1) - e1); try lia; reflexivity.
  - unfold finish. destruct (Z.ltb_spec (Z.pos p) (2 ^ prec)) as [Hsmall|Hbig].
    + rewrite shr_fexp_small by assumption. cbn [shr_m]. reflexivity.
    + assert (Ep : Z.pos p = 2 ^ prec) by lia. rewrite Ep.
      rewrite shr_fexp_pow2 by assumption. cbn [shr_m].
      assert (0 < 2 ^ (prec - 1)) by (apply Z.pow_pos_nonneg; lia).
      destruct (2 ^ (prec - 1)) as [|q|q] eqn:Eq; try lia.
      rewrite Pos2Z.id. reflexivity.
Qed.

Lemma rnd_int_mono (K x y : Z) : 0 < K -> 0 <= x <= y -> rnd_int x K <= rnd_int y K.
Proof.
  intros HK Hxy. unfold rnd_int.
  pose proof (round_nearest_even_le (x / K) (loc_of_rem (x mod K) K)) as Hx.
  pose proof (round_nearest_even_le (y / K) (loc_of_rem (y mod K) K)) as Hy.
  assert (Hq : x / K <= y / K) by (apply Z.div_le_mono; lia).
  destruct (Z.eq_dec (x / K) (y / K)) as [E|E]; [|lia].
  assert (Hr : x mod K <= y mod K).
  { pose proof (Z.div_mod x K ltac:(lia)). pose proof (Z.div_mod y K ltac:(lia)). nia. }
  pose proof (Z.mod_pos_bound x K HK). pose proof (Z.mod_pos_bound y K HK).
  rewrite E in *. clear Hx Hy. unfold loc_of_rem, round_nearest_even.
  destruct (Z.eqb_spec (x mod K) 0) as [X0|X0];
    destruct (Z.eqb_spec (y mod K) 0) as [Y0|Y0]; try lia.
  - destruct (2 * (y mod K) ?= K); try lia. destruct (Z.even (y / K)); lia.
  - destruct (Z.compare_spec (2 * (x mod K)) K) as [Cx|Cx|Cx];
      destruct (Z.compare_spec (2 * (y mod K)) K) as [Cy|Cy|Cy];
      try lia; destruct (Z.even (y / K)); lia.
Qed.

Lemma binary_round_value (s : bool) (m : positive) (e : Z) (mB : positive) (eB : Z) :
  emin <= e ->
  bounded prec emax mB eB = true ->
  scaled (Z.pos m) e <= scaled (Z.pos mB) eB ->
  exists m' e', binary_round prec emax s m e = S754_finite s m' e' /\
    bounded prec emax m' e' = true /\
    scaled (Z.pos m') e' = round_value m e /\
    scaled (Z.pos m') e' <= scaled (Z.pos mB) eB.
Proof.
  intros He HB Hle.
  pose proof t0_lt_emin as Ht.
  destruct (bounded_inv mB eB HB) as [HcB [HleB [HgeB [HdB HltB]]]].
  destruct (binary_round_le s m e mB eB ltac:(lia) HB Hle) as [Hmag Hsign].
  unfold round_value. set (E := fexp (Z.pos (digits2_pos m) + e)) in *.
  assert (HEB : E <= eB).
  { rewrite <- HcB. apply fexp_mono. apply scaled_le_digits; try lia. }
  pose proof (fexp_ge_emin (Z.pos (digits2_pos m) + e)) as HEmin. fold E in HEmin.
  destruct (Z.leb_spec E e) as [Hex|Hin].
  - (* exact *)
    assert (P : 0 < 2 ^ (e - E)) by (apply Z.pow_pos_nonneg; lia).
    set (m' := Z.to_pos (Z.pos m * 2 ^ (e - E))).
    assert (Hm' : Z.pos m' = Z.pos m * 2 ^ (e - E)) by (unfold m'; rewrite Z2Pos.id; lia).
    assert (Hd' : Z.pos (digits2_pos m') + E = Z.pos (digits2_pos m) + e).
    { pose proof (digits_mul_pow2 m (e - E) ltac:(lia)) as D. rewrite <- Hm' in D.
      unfold Zdigits2 in D. lia. }
    assert (Hb' : bounded prec emax m' E = true).
    { unfold bounded, canonical_mantissa. rewrite Hd'. fold E.
      apply andb_true_iff. split; [apply Z.eqb_eq; reflexivity|apply Z.leb_le; lia]. }
    exists m', E. split; [|split; [exact Hb'|split]].
    + apply binary_round_exact; [exact Hb'|]. right. split; [lia|exact Hm'].
    + rewrite Hm'. rewrite scaled_shift by lia. f_equal. lia.
    + rewrite Hm'. rewrite scaled_shift by lia. replace (E + (e - E)) with e by lia. exact Hle.
  - (* rounded *)
    assert (HeE : e <= E) by lia.
    assert (Hbr : binary_round prec emax s m e = binary_round_aux prec emax s (Z.pos m) e loc_Exact).
    { unfold binary_round. fold E. destruct (shl_align_spec m e E) as [[Hlt _]|[_ ->]]; [lia|reflexivity]. }
    rewrite Hbr in *. 
    pose proof (round_aux_precise s m e HeE) as Hform. fold E in Hform.
    pose proof (shifted_lt_prec m e HeE) as Hlt. fold E in Hlt.
    pose proof (shifted_ge_normal m e HeE ltac:(lia)) as Hge. fold E in Hge.
    set (K := 2 ^ (E - e)) in *.
    pose proof (round_nearest_even_le (Z.pos m / K) (loc_of_rem (Z.pos m mod K) K)) as Hm2.
    fold (rnd_int (Z.pos m) K) in Hm2.
    set (m2 := rnd_int (Z.pos m) K) in *.
    assert (P1 : 0 < 2 ^ (prec - 1)) by (apply Z.pow_pos_nonneg; lia).
    rewrite Hform in *. unfold finish in *.
    destruct m2 as [|p|p] eqn:Em2; try lia.
    destruct (Z.ltb_spec (Z.pos p) (2 ^ prec)) as [Hs|Hb].
    + destruct (Z.leb_spec E (emax - prec)); [|contradiction].
      destruct Hmag as [Hbd Hv]. exists p, E. repeat split; assumption.
    + destruct (Z.leb_spec (E + 1) (emax - prec)); [|contradiction].
      destruct Hmag as [Hbd Hv]. exists (Z.to_pos (2 ^ (prec - 1))), (E + 1).
      split; [reflexivity|]. split; [exact Hbd|]. split; [|exact Hv].
      rewrite Z2Pos.id by lia. assert (Hp : Z.pos p = 2 ^ prec) by lia. rewrite Hp.
      unfold scaled. replace (E + 1 - t0) with (1 + (E - t0)) by lia.
      replace prec with (1 + (prec - 1)) at 2 by lia.
      rewrite !Z.pow_add_r by lia. lia.
Qed.

Lemma round_value_mono (x y : positive) (e : Z) :
  emin <= e -> (x <= y)%positive -> round_value x e <= round_value y e.
Proof.
  intros He Hxy. unfold round_value.
  pose proof t0_lt_emin as Ht.
  pose proof (digits_bounds x) as [Xlo Xhi]. pose proof (digits_bounds y) as [Ylo Yhi].
  pose proof (digits_le x y ltac:(lia)) as Hd.
  set (dx := Z.pos (digits2_pos x)) in *. set (dy := Z.pos (digits2_pos y)) in *.
  set (Ex := fexp (dx + e)). set (Ey := fexp (dy + e)).
  assert (HE : Ex <= Ey) by (apply fexp_mono; lia).
  assert (PT : 0 < 2 ^ (e - t0)) by (apply Z.pow_pos_nonneg; lia).
  (* a rounded number lies between the powers of two around it *)
  assert (Hbelow : forall (z : positive), e < fexp (Z.pos (digits2_pos z) + e) ->
            2 ^ (Z.pos (digits2_pos z) - 1 + e - t0)
            <= scaled (rnd_int (Z.pos z) (2 ^ (fexp (Z.pos (digits2_pos z) + e) - e)))
                      (fexp (Z.pos (digits2_pos z) + e))
            <= 2 ^ (Z.pos (digits2_pos z) + e - t0)).
  { intros z Hz. set (E := fexp (Z.pos (digits2_pos z) + e)) in *.
    assert (HEn : E = Z.pos (digits2_pos z) + e - prec) by (unfold E, SpecFloat.fexp in *; lia).
    pose proof (shifted_lt_prec z e ltac:(fold E; lia)) as Hlt. fold E in Hlt.
    pose proof (shifted_ge_normal z e ltac:(fold E; lia) ltac:(fold E; lia)) as Hge. fold E in Hge.
    pose proof (round_nearest_even_le (Z.pos z / 2 ^ (E - e)) (loc_of_rem (Z.pos z mod 2 ^ (E - e)) (2 ^ (E - e)))) as Hm2.
    fold (rnd_int (Z.pos z) (2 ^ (E - e))) in Hm2.
    set (m2 := rnd_int (Z.pos z) (2 ^ (E - e))) in *.
    assert (PE : 0 < 2 ^ (E - t0)) by (apply Z.pow_pos_nonneg; lia).
    unfold scaled. split.
    - replace (Z.pos (digits2_pos z) - 1 + e - t0) with ((prec - 1) + (E - t0)) by lia.
      rewrite Z.pow_add_r by lia. apply Z.mul_le_mono_nonneg_r; lia.
    - replace (Z.pos (digits2_pos z) + e - t0) with (prec + (E - t0)) by lia.
      rewrite Z.pow_add_r by lia. apply Z.mul_le_mono_nonneg_r; lia. }
  destruct (Z.leb_spec Ex e) as [Hxe|Hxr]; destruct (Z.leb_spec Ey e) as [Hye|Hyr].
  - unfold scaled. apply Z.mul_le_mono_nonneg_r; lia.
  - (* x exact, y rounded *)
    assert (Hdd : dx < dy).
    { destruct (Z.eq_dec dx dy) as [E|E]; [|lia]. unfold Ex, Ey in *. rewrite E in *. lia. }
    destruct (Hbelow y Hyr) as [Hlo _]. fold dy Ey in Hlo.
    eapply Z.le_trans; [|exact Hlo].
    unfold scaled. replace (dy - 1 + e - t0) with ((dy - 1) + (e - t0)) by lia.
    rewrite Z.pow_add_r by lia. apply Z.mul_le_mono_nonneg_r; [lia|].
    assert (2 ^ dx <= 2 ^ (dy - 1)) by (apply Z.pow_le_mono_r; lia). lia.
  - lia.
  - destruct (Z.eq_dec dx dy) as [E|E].
    + pose proof (fexp_ge_emin (dy + e)) as Hmin.
      unfold Ex, Ey in *. rewrite E in *. unfold scaled.
      apply Z.mul_le_mono_nonneg_r; [apply Z.lt_le_incl, Z.pow_pos_nonneg; lia|].
      apply rnd_int_mono; [apply Z.pow_pos_nonneg; lia|lia].
    + destruct (Hbelow x Hxr) as [_ Hhi]. destruct (Hbelow y Hyr) as [Hlo _].
      fold dx Ex in Hhi. fold dy Ey in Hlo.
      eapply Z.le_trans; [exact Hhi|]. eapply Z.le_trans; [|exact Hlo].
      apply Z.pow_le_mono_r; lia.
Qed.

Lemma binary_round_mono (s : bool) (x y : positive) (e : Z) (mB : positive) (eB : Z) :
  emin <= e -> (x <= y)%positive ->
  bounded prec emax mB eB = true ->
  scaled (Z.pos y) e <= scaled (Z.pos mB) eB ->
  exists mx ex my ey,
    binary_round prec emax s x e = S754_finite s mx ex /\
    binary_round prec emax s y e = S754_finite s my ey /\
    bounded prec emax mx ex = true /\ bounded prec emax my ey = true /\
    scaled (Z.pos mx) ex <= scaled (Z.pos my) ey /\
    scaled (Z.pos my) ey <= scaled (Z.pos mB) eB.
Proof.
  intros He Hxy HB Hle. pose proof t0_lt_emin as Ht.
  assert (Hx : scaled (Z.pos x) e <= scaled (Z.pos mB) eB).
  { eapply Z.le_trans; [|exact Hle]. unfold scaled.
    apply Z.mul_le_mono_nonneg_r; [apply Z.lt_le_incl, Z.pow_pos_nonneg; lia|lia]. }
  destruct (binary_round_value s x e mB eB He HB Hx) as [mx [ex [Ex [Bx [Vx _]]]]].
  destruct (binary_round_value s y e mB eB He HB Hle) as [my [ey [Ey [By [Vy Ly]]]]].
  exists mx, ex, my, ey. repeat split; try assumption.
  rewrite Vx, Vy. apply round_value_mono; assumption.
Qed.

End Rounding.

(** ** The workload descriptor *)

(** C2.  Modelled from the spec: the start of a run, [start_run] (the
    constructor of attention_common.h checks nothing, and the drivers are
    not under src/).  A descriptor built from a dimension that is not
    positive, or from a [head_dim] above [MAX_HEAD_DIM], is rejected with
    [DimensionMismatch] before any step of the run is taken, whatever
    memory there is; and no run invokes the strategy on a descriptor that
    violates the invariant. *)
Theorem start_run_rejects_invalid (can_allocate : AttentionConfig -> bool) (b h s d : Z) :
  b <= 0 \/ h <= 0 \/ s <= 0 \/ d <= 0 \/ MAX_HEAD_DIM < d ->
  start_run can_allocate (AttentionConfig_new b h s d) = ([], Some DimensionMismatch) /\
  forall cfg cfg' : AttentionConfig,
    In (Invoke cfg') (fst (start_run can_allocate cfg)) ->
    cfg' = cfg /\ config_valid cfg = true.
Proof.
  intros Hbad. split.
  - unfold start_run.
    assert (E : config_valid (AttentionConfig_new b h s d) = false).
    { unfold config_valid, dims_valid. cbn [batch_size num_heads seq_len head_dim AttentionConfig_new].
      destruct Hbad as [H|[H|[H|[H|H]]]].
      - replace (0 <? b) with false by (symmetry; apply Z.ltb_ge; exact H). reflexivity.
      - replace (0 <? h) with false by (symmetry; apply Z.ltb_ge; exact H).
        rewrite andb_false_r. reflexivity.
      - replace (0 <? s) with false by (symmetry; apply Z.ltb_ge; exact H).
        rewrite !andb_false_r. reflexivity.
      - replace (0 <? d) with false by (symmetry; apply Z.ltb_ge; exact H).
        rewrite !andb_false_r. reflexivity.
      - replace (d <=? MAX_HEAD_DIM) with false by (symmetry; apply Z.leb_gt; exact H).
        rewrite !andb_false_r. reflexivity. }
    rewrite E. reflexivity.
  - intros cfg cfg' Hin. unfold start_run in Hin.
    destruct (config_valid cfg) eqn:V; cbn [negb fst] in Hin; [|destruct Hin].
    destruct (can_allocate cfg); cbn [negb fst] in Hin; [|destruct Hin].
    cbn [In] in Hin.
    destruct Hin as [H|[H|[H|[H|[]]]]]; try discriminate.
    injection H as <-. split; reflexivity.
Qed.

Lemma start_run_rejects_invalid_witness :
  start_run (fun _ => true) (AttentionConfig_new 1 8 256 64)
  = ([Allocate (AttentionConfig_new 1 8 256 64); Fill 42;
      Invoke (AttentionConfig_new 1 8 256 64); Report (AttentionConfig_new 1 8 256 64)],
     None) /\
  start_run (fun _ => true) (AttentionConfig_new 1 8 256 200)
  = ([], Some DimensionMismatch) /\
  start_run (fun _ => true) (AttentionConfig_new 1 8 256 0) = ([], Some DimensionMismatch) /\
  forall cfg cfg' : AttentionConfig,
    In (Invoke cfg') (fst (start_run (fun _ => true) cfg)) ->
    cfg' = cfg /\ config_valid cfg = true.
Proof.
  split; [reflexivity|].
  split; [apply (start_run_rejects_invalid (fun _ => true) 1 8 256 200);
          unfold MAX_HEAD_DIM; lia|].
  apply (start_run_rejects_invalid (fun _ => true) 1 8 256 0). lia.
Defined.

Lemma head_dims_upto_complete (n : nat) (d : Z) :
  0 < d <= Z.of_nat n -> In d (head_dims_upto n).
Proof.
  intros Hd. unfold head_dims_upto. apply in_map_iff.
  exists (Z.to_nat (d - 1)). split; [lia|]. apply in_seq. lia.
Qed.

Lemma scale_check_all :
  forallb (fun d => near_inv_sqrt (inv_sqrt_f32 d) d) (head_dims_upto 128) = true.
Proof. vm_compute. reflexivity. Qed.

(** C8.  For every descriptor the constructor sets [scale] to
    [1.0f / sqrtf((float)head_dim)]; for a positive [head_dim] up to
    [MAX_HEAD_DIM] this is a positive finite number whose square times
    [head_dim] is within [2^-22] of 1. *)
Theorem scale_is_inv_sqrt (b h s d : Z) :
  scale (AttentionConfig_new b h s d) = inv_sqrt_f32 d /\
  (0 < d <= MAX_HEAD_DIM ->
   near_inv_sqrt (scale (AttentionConfig_new b h s d)) d = true).
Proof.
  split; [reflexivity|]. intros Hd.
  pose proof scale_check_all as Hall. rewrite forallb_forall in Hall.
  apply Hall. apply head_dims_upto_complete. exact Hd.
Qed.

Lemma scale_is_inv_sqrt_witness :
  0 < 64 <= MAX_HEAD_DIM /\
  scale (AttentionConfig_new 1 8 256 64) = S754_finite false 8388608 (-26) /\
  near_inv_sqrt (scale (AttentionConfig_new 1 8 256 64)) 64 = true.
Proof.
  split; [unfold MAX_HEAD_DIM; lia|]. split; [reflexivity|].
  apply (scale_is_inv_sqrt 1 8 256 64). unfold MAX_HEAD_DIM; lia.
Defined.



(** When the products of the dimensions fit [int], the two sizes are the
    exact numbers of bytes. *)
Lemma int_mul_fits (a b : Z) :
  INT_MIN <= a * b <= INT_MAX -> int_mul a b = Some (a * b).
Proof.
  intros [Hlo Hhi]. unfold int_mul, in_int.
  apply Z.leb_le in Hlo. apply Z.leb_le in Hhi. rewrite Hlo, Hhi. reflexivity.
Qed.

Lemma sizes_exact_when_fitting (cfg : AttentionConfig) :
  0 < batch_size cfg -> 0 < num_heads cfg -> 0 < seq_len cfg -> 0 < head_dim cfg ->
  (batch_size cfg * num_heads cfg * seq_len cfg * head_dim cfg <= INT_MAX ->
   qkv_size cfg =
     Some (batch_size cfg * num_heads cfg * seq_len cfg * head_dim cfg * 4)) /\
  (batch_size cfg * num_heads cfg * seq_len cfg * seq_len cfg <= INT_MAX ->
   attention_matrix_size cfg =
     Some (batch_size cfg * num_heads cfg * seq_len cfg * seq_len cfg * 4)).
Proof.
  intros Hb Hh Hs Hd. unfold qkv_size, attention_matrix_size.
  set (b := batch_size cfg) in *. set (h := num_heads cfg) in *.
  set (s := seq_len cfg) in *. set (d := head_dim cfg) in *.
  assert (H1 : 0 < b * h) by (apply Z.mul_pos_pos; assumption).
  assert (H2 : 0 < b * h * s) by (apply Z.mul_pos_pos; assumption).
  assert (H3 : b * h <= b * h * s) by nia.
  unfold INT_MAX. split; intros Hfit.
  - assert (H4 : b * h * s <= b * h * s * d) by nia.
    repeat (rewrite int_mul_fits by (unfold INT_MIN, INT_MAX; lia); cbn [obind]).
    unfold size_mul, to_size_t, sizeof_float.
    rewrite (Z.mod_small (b * h * s * d)) by lia.
    rewrite Z.mod_small by lia. reflexivity.
  - assert (H4 : b * h * s <= b * h * s * s) by nia.
    repeat (rewrite int_mul_fits by (unfold INT_MIN, INT_MAX; lia); cbn [obind]).
    unfold size_mul, to_size_t, sizeof_float.
    rewrite (Z.mod_small (b * h * s * s)) by lia.
    rewrite Z.mod_small by lia. reflexivity.
Qed.

(** C4 fails on the code.  With dimensions that are positive and within
    the supported maxima, the [int] product of [attention_matrix_size]
    (for batch 8, 16 heads, sequence length 4096: a configuration of
    run_benchmarks.sh) and the [int] product of [qkv_size] (for batch 64,
    64 heads, sequence length 4096, head dimension 128) are [2^31], above
    [INT_MAX]: the products overflow before the conversion to [size_t]. *)
Lemma size_products_overflow :
  dims_valid 8 16 4096 64 = true /\ 4096 <= MAX_SEQ_LEN /\
  8 * 16 * 4096 * 4096 = INT_MAX + 1 /\
  attention_matrix_size (AttentionConfig_new 8 16 4096 64) = None /\
  dims_valid 64 64 4096 128 = true /\
  64 * 64 * 4096 * 128 = INT_MAX + 1 /\
  qkv_size (AttentionConfig_new 64 64 4096 128) = None.
Proof. vm_compute. repeat split; discriminate. Qed.

(** ** Verification of results *)

Lemma verify_loop_outcome (ref test : list f32) (tol : f32) (todo : nat) :
  forall i, (i + todo <= List.length ref)%nat -> (i + todo <= List.length test)%nat ->
  exists res, verify_loop ref test tol i todo = Some res /\
              verify_outcome ref test tol i (i + todo) res.
Proof.
  induction todo as [|todo IH]; intros i Href Htest.
  - exists (true, None). split; [reflexivity|]. simpl. intros k Hk. lia.
  - simpl verify_loop.
    destruct (nth_error ref i) as [r|] eqn:Er.
    2:{ apply nth_error_None in Er. lia. }
    destruct (nth_error test i) as [t|] eqn:Et.
    2:{ apply nth_error_None in Et. lia. }
    destruct (exceeds tol r t) eqn:Ex.
    + exists (false, Some (mkMismatch i r t (diff_at r t))).
      split; [reflexivity|]. simpl.
      repeat split; try assumption; try lia.
    + destruct (IH (S i)) as [res [Hres Hout]]; try lia.
      exists res. split; [exact Hres|].
      assert (Hi : ~ mismatch_at ref test tol i).
      { intros [r' [t' [Hr' [Ht' Hx]]]]. congruence. }
      destruct res as [[|] [mm|]]; simpl in *; try contradiction.
      * intros k Hk. destruct (Nat.eq_dec k i) as [->|Hne]; [exact Hi|].
        apply Hout. lia.
      * destruct Hout as [Hidx [Hr [Ht [Hd [Hx Hmin]]]]].
        repeat split; try assumption; try lia.
        intros j Hj. destruct (Nat.eq_dec j i) as [->|Hne]; [exact Hi|].
        apply Hmin. lia.
Qed.



(** A NaN operand makes [fabsf(ref[i] - test[i])] a NaN, and [diff > tol] is
    false on a NaN. *)
Lemma exceeds_nan (tol r t : f32) :
  F32.is_nan r = true \/ F32.is_nan t = true -> exceeds tol r t = false.
Proof.
  intros [H|H].
  - destruct r; try discriminate. destruct t, tol; reflexivity.
  - destruct t; try discriminate. destruct r, tol; reflexivity.
Qed.

(** C9.  A comparison with a NaN on either side is no mismatch, whatever the
    tolerance; so [verify_results] returns [true], reporting nothing, on
    buffers that hold a NaN at every index below [n]. *)
Theorem verify_results_nan_passes (ref test : list f32) (n : nat) (tol : f32) :
  (forall r t, F32.is_nan r = true \/ F32.is_nan t = true -> exceeds tol r t = false) /\
  ((n <= List.length ref)%nat -> (n <= List.length test)%nat ->
   (forall i r t, (i < n)%nat -> nth_error ref i = Some r -> nth_error test i = Some t ->
                  F32.is_nan r = true \/ F32.is_nan t = true) ->
   verify_results ref test n tol = Some (true, None)).
Proof.
  split; [intros r t; apply exceeds_nan|].
  intros Href Htest Hnan.
  destruct (verify_loop_outcome ref test tol n 0) as [[b report] [Hres Hout]];
    try (simpl; lia).
  unfold verify_results. rewrite Hres.
  destruct b, report as [mm|]; simpl in Hout; try contradiction; [reflexivity|].
  exfalso. destruct Hout as [Hidx [Hr [Ht [_ [Hx _]]]]].
  rewrite (exceeds_nan tol _ _ (Hnan _ _ _ (proj2 Hidx) Hr Ht)) in Hx. discriminate.
Qed.

Lemma verify_results_nan_passes_witness :
  (3 <= List.length [S754_nan; F32.of_Z 1; S754_nan])%nat /\
  (3 <= List.length [F32.of_Z 2; S754_nan; S754_nan])%nat /\
  verify_results [S754_nan; F32.of_Z 1; S754_nan] [F32.of_Z 2; S754_nan; S754_nan]
                 3 default_tol = Some (true, None).
Proof.
  split; [simpl; lia|]. split; [simpl; lia|].
  apply (proj2 (verify_results_nan_passes
                  [S754_nan; F32.of_Z 1; S754_nan] [F32.of_Z 2; S754_nan; S754_nan]
                  3 default_tol)); [simpl; lia|simpl; lia|].
  intros i r t Hi Hr Ht.
  destruct i as [|[|[|i]]]; simpl in Hr, Ht; try lia;
    injection Hr as <-; injection Ht as <-; auto.
Defined.

(** ** Single precision *)

Lemma f32_prec : 0 < F32.prec.
Proof. reflexivity. Qed.

Lemma f32_emax : F32.prec < F32.emax.
Proof. reflexivity. Qed.

Lemma of_Z_pos (p : positive) :
  F32.of_Z (Z.pos p) = binary_round F32.prec F32.emax false p 0.
Proof. reflexivity. Qed.

(** Positive [int]s convert to [float]s in increasing order, between 1 and
    [2^31]. *)
Lemma of_Z_mono (x y : positive) :
  (x <= y)%positive -> Z.pos y <= INT_MAX ->
  exists mx ex my ey,
    F32.of_Z (Z.pos x) = S754_finite false mx ex /\
    F32.of_Z (Z.pos y) = S754_finite false my ey /\
    bounded F32.prec F32.emax mx ex = true /\
    bounded F32.prec F32.emax my ey = true /\
    scaled F32.prec F32.emax (Z.pos mx) ex <= scaled F32.prec F32.emax (Z.pos my) ey /\
    1 <= Z.pos (digits2_pos mx) + ex /\ Z.pos (digits2_pos my) + ey <= 32.
Proof.
  intros Hxy Hy. rewrite !of_Z_pos.
  assert (HB : bounded F32.prec F32.emax 8388608 8 = true) by reflexivity.
  assert (H1 : bounded F32.prec F32.emax 8388608 (-23) = true) by reflexivity.
  assert (Hle : scaled F32.prec F32.emax (Z.pos y) 0 <= scaled F32.prec F32.emax 8388608 8).
  { unfold scaled, INT_MAX in *. change (2 ^ (8 - t0 F32.prec F32.emax)) with (2 ^ 8 * 2 ^ (0 - t0 F32.prec F32.emax)).
    assert (0 < 2 ^ (0 - t0 F32.prec F32.emax)) by reflexivity.
    rewrite Z.mul_assoc. apply Z.mul_le_mono_nonneg_r; lia. }
  destruct (binary_round_mono F32.prec F32.emax f32_prec f32_emax false x y 0 8388608 8)
    as [mx [ex [my [ey [Ex [Ey [Bx [By [Lxy LyB]]]]]]]]]; try assumption; [discriminate|].
  destruct (binary_round_mono F32.prec F32.emax f32_prec f32_emax false 1 x 0 8388608 8)
    as [m1 [e1 [mx' [ex' [E1 [Ex' [B1 [_ [L1x _]]]]]]]]]; try assumption; [discriminate|lia| |].
  { eapply Z.le_trans; [|exact Hle]. unfold scaled.
    apply Z.mul_le_mono_nonneg_r; [discriminate|lia]. }
  rewrite Ex in Ex'. injection Ex' as <- <-.
  change (binary_round F32.prec F32.emax false 1 0) with (S754_finite false 8388608 (-23)) in E1.
  injection E1 as <- <-.
  exists mx, ex, my, ey. rewrite Ex, Ey. repeat split; try assumption.
  - destruct (bounded_inv F32.prec F32.emax mx ex Bx) as [_ [_ [Hge _]]].
    pose proof (scaled_le_digits F32.prec F32.emax 8388608 mx (-23) ex) as D.
    change (Z.pos (digits2_pos 8388608)) with 24 in D.
    unfold emin in Hge. change (t0 F32.prec F32.emax) with (-426) in D.
    change F32.emax with 128 in Hge. change F32.prec with 24 in Hge. lia.
  - destruct (bounded_inv F32.prec F32.emax my ey By) as [_ [_ [Hge _]]].
    pose proof (scaled_le_digits F32.prec F32.emax my 8388608 ey 8) as D.
    change (Z.pos (digits2_pos 8388608)) with 24 in D.
    unfold emin in Hge. change (t0 F32.prec F32.emax) with (-426) in D.
    change F32.emax with 128 in Hge. change F32.prec with 24 in Hge. lia.
Qed.

(** The constants of [init_random]. *)
Lemma lit_half : F32.lit 1 2 = S754_finite false 8388608 (-24).
Proof. reflexivity. Qed.

Lemma lit_tenth : F32.lit 1 10 = S754_finite false 13421773 (-27).
Proof. reflexivity. Qed.

Lemma lit_twentieth : F32.lit 5 100 = S754_finite false 13421773 (-28).
Proof. reflexivity. Qed.

(** [q - 0.5f] for [0 <= q <= 1] has magnitude at most one half. *)
Lemma sub_half_mag (q : f32) :
  mag_le F32.prec F32.emax q (one_m F32.prec) (one_e F32.prec) -> sign_is q false ->
  mag_le F32.prec F32.emax (F32.sub q (F32.lit 1 2)) 8388608 (-24).
Proof.
  intros Hq Hs. rewrite lit_half.
  assert (Hh : bounded F32.prec F32.emax 8388608 (-24) = true) by reflexivity.
  destruct q as [s|s| |s m e]; try contradiction; simpl in Hs; subst s.
  - cbn [F32.sub SFsub negb mag_le]. split; [exact Hh|lia].
  - destruct Hq as [Hb Hle]. unfold F32.sub.
    apply sub_mag_le; try assumption; try reflexivity.
    rewrite scaled_one in Hle by reflexivity.
    destruct (bounded_inv F32.prec F32.emax m e Hb) as [_ [_ [Hge _]]].
    assert (Hpos : 0 < scaled F32.prec F32.emax (Z.pos m) e).
    { apply scaled_pos; [lia|]. change (t0 F32.prec F32.emax) with (-426).
      change (emin F32.prec F32.emax) with (-149) in Hge. lia. }
    change (2 ^ (- t0 F32.prec F32.emax))
      with (2 * scaled F32.prec F32.emax 8388608 (-24)) in Hle.
    lia.
Qed.

(** [d * 0.1f] for a [d] of magnitude at most one half has magnitude at
    most [0.05f]. *)
Lemma mul_tenth_mag (d : f32) :
  mag_le F32.prec F32.emax d 8388608 (-24) ->
  mag_le F32.prec F32.emax (F32.mul d (F32.lit 1 10)) 13421773 (-28).
Proof.
  intros Hd. rewrite lit_tenth.
  destruct d as [s|s| |s m e]; try contradiction.
  - exact I.
  - destruct Hd as [Hb Hle]. unfold F32.mul.
    apply mul_mag_le; try assumption; try reflexivity.
    destruct (bounded_inv F32.prec F32.emax m e Hb) as [_ [_ [Hge _]]].
    change (emin F32.prec F32.emax) with (-149) in Hge.
    unfold scaled in *. change (t0 F32.prec F32.emax) with (-426) in *.
    replace (e - -426) with ((e + 399) + 27) in Hle by lia.
    replace (e + -27 - -426) with (e + 399) by lia.
    rewrite Z.pow_add_r in Hle by lia.
    assert (P : 0 < 2 ^ (e + 399)) by (apply Z.pow_pos_nonneg; lia).
    set (X := 2 ^ (e + 399)) in *.
    change (2 ^ (-24 - -426)) with (2 ^ 375 * 2 ^ 27) in Hle.
    change (2 ^ (-28 - -426)) with (2 ^ 398).
    change (2 ^ 27) with 134217728 in Hle.
    assert (HX : Z.pos m * X <= 2 ^ 398).
    { change (2 ^ 398) with (8388608 * 2 ^ 375). lia. }
    assert (Z.pos m * X * 13421773 <= 2 ^ 398 * 13421773) by (apply Z.mul_le_mono_nonneg_r; lia).
    lia.
Qed.

(** Every value [init_random] computes lies between [-0.05f] and [0.05f]. *)
Lemma random_value_in_bounds (rand_max r : Z) :
  0 < rand_max <= INT_MAX -> 0 <= r <= rand_max ->
  in_bounds (random_value rand_max r) = true.
Proof.
  intros HR Hr. unfold random_value.
  assert (Hq : mag_le F32.prec F32.emax (F32.div (F32.of_Z r) (F32.of_Z rand_max))
                 (one_m F32.prec) (one_e F32.prec) /\
               sign_is (F32.div (F32.of_Z r) (F32.of_Z rand_max)) false).
  { destruct rand_max as [|R|R]; try lia.
    destruct r as [|x|x]; try lia.
    - destruct (of_Z_mono 1 R) as [_ [_ [mR [eR [_ [ER _]]]]]]; [lia|lia|].
      rewrite ER. split; reflexivity.
    - destruct (of_Z_mono x R) as [mx [ex [mR [eR [Ex [ER [Bx [BR [Lx [Dx DR]]]]]]]]]]; [lia|lia|].
      rewrite Ex, ER. unfold F32.div.
      apply div_mag_le_one; try assumption; try reflexivity.
      change (emin F32.prec F32.emax + F32.prec) with (-125). lia. }
  destruct Hq as [Hq Hs].
  pose proof (mul_tenth_mag _ (sub_half_mag _ Hq Hs)) as Hm.
  assert (HB : bounded F32.prec F32.emax 13421773 (-28) = true) by reflexivity.
  destruct (mag_le_leb F32.prec F32.emax f32_prec f32_emax _ _ _ HB Hm) as [Hlo Hhi].
  unfold in_bounds. rewrite lit_twentieth. unfold F32.leb, F32.opp. cbn [SFopp negb].
  rewrite Hlo, Hhi. reflexivity.
Qed.

(** ** Random initialisation *)

Lemma init_random_loop_spec (g : Generator) :
  generator_ok g ->
  forall (todo : nat) (data : list f32) (st : rng_state g),
  (todo <= List.length data)%nat ->
  exists data' st',
    init_random_loop g todo data st = Some (data', st') /\
    List.length data' = List.length data /\
    skipn todo data' = skipn todo data /\
    Forall (fun x => in_bounds x = true) (firstn todo data').
Proof.
  intros [HR Hrand]. induction todo as [|todo IH]; intros data st Hlen.
  - exists data, st. repeat split. constructor.
  - destruct data as [|x0 rest]; [simpl in Hlen; lia|].
    simpl in Hlen. cbn [init_random_loop].
    pose proof (Hrand st) as Hr. destruct (rand g st) as [r st1]. cbn [fst] in Hr.
    destruct (IH rest st1 ltac:(lia)) as [rest' [st' [E [Hl [Hs Hf]]]]].
    rewrite E. exists (random_value (RAND_MAX g) r :: rest'), st'.
    split; [reflexivity|]. split; [simpl; lia|]. split; [exact Hs|].
    cbn [firstn]. constructor; [|exact Hf].
    apply random_value_in_bounds; lia.
Qed.

(** The elements written depend on the seed only: not on what the buffer
    held before. *)
Lemma init_random_loop_det (g : Generator) :
  forall (todo : nat) (d1 d2 r1 r2 : list f32) (st s1 s2 : rng_state g),
  init_random_loop g todo d1 st = Some (r1, s1) ->
  init_random_loop g todo d2 st = Some (r2, s2) ->
  firstn todo r1 = firstn todo r2 /\ s1 = s2.
Proof.
  induction todo as [|todo IH]; intros d1 d2 r1 r2 st s1 s2 H1 H2.
  - simpl in *. split; [reflexivity|congruence].
  - cbn [init_random_loop] in H1, H2.
    destruct d1 as [|x1 d1]; [discriminate|]. destruct d2 as [|x2 d2]; [discriminate|].
    destruct (rand g st) as [r st1].
    destruct (init_random_loop g todo d1 st1) as [[t1 u1]|] eqn:E1; [|discriminate].
    destruct (init_random_loop g todo d2 st1) as [[t2 u2]|] eqn:E2; [|discriminate].
    injection H1 as <- <-. injection H2 as <- <-.
    destruct (IH _ _ _ _ _ _ _ E1 E2) as [Hf Hs].
    split; [cbn [firstn]; rewrite Hf; reflexivity|exact Hs].
Qed.

Lemma lcg_ok : generator_ok lcg.
Proof.
  split; [unfold INT_MAX; simpl; lia|].
  intros st. cbn [lcg rand RAND_MAX fst].
  pose proof (Z.mod_pos_bound (1103515245 * st + 12345) (2 ^ 31) ltac:(lia)). lia.
Qed.

(** C10 (as the code has it).  With a generator as the C standard
    describes it, [init_random] on a buffer of at least [n] elements writes
    [n] elements that all lie between [-0.05f] and [0.05f], the
    single-precision constants; and a second call with the same [n] and
    seed, whatever the generator state and the buffer it starts from, writes
    the same [n] elements and leaves the same generator state. *)
Theorem init_random_bounded_deterministic (g : Generator) (data : list f32)
    (n : nat) (seed : Z) (st : rng_state g) :
  generator_ok g -> (n <= List.length data)%nat ->
  exists data' st',
    init_random g data n seed st = Some (data', st') /\
    List.length data' = List.length data /\
    skipn n data' = skipn n data /\
    (forall i x, (i < n)%nat -> nth_error data' i = Some x -> in_bounds x = true) /\
    (forall data2 st2, (n <= List.length data2)%nat ->
       exists data2', init_random g data2 n seed st2 = Some (data2', st') /\
                      firstn n data2' = firstn n data').
Proof.
  intros Hg Hlen. unfold init_random.
  destruct (init_random_loop_spec g Hg n data (srand g seed) Hlen)
    as [data' [st' [E [Hl [Hs Hf]]]]].
  exists data', st'. split; [exact E|]. split; [exact Hl|]. split; [exact Hs|]. split.
  - intros i x Hi Hx. rewrite Forall_forall in Hf. apply Hf.
    apply nth_error_In with (n := i). rewrite nth_error_firstn.
    destruct (Nat.ltb_spec i n); [exact Hx|lia].
  - intros data2 st2 Hlen2.
    destruct (init_random_loop_spec g Hg n data2 (srand g seed) Hlen2)
      as [data2' [st2' [E2 _]]].
    destruct (init_random_loop_det g n _ _ _ _ _ _ _ E2 E) as [Hfirst Hst].
    subst st2'. exists data2'. split; [exact E2|exact Hfirst].
Qed.

Lemma init_random_bounded_deterministic_witness :
  generator_ok lcg /\
  (2 <= List.length [F32.of_Z 7; F32.of_Z 8; F32.of_Z 9])%nat /\
  init_random lcg [F32.of_Z 7; F32.of_Z 8; F32.of_Z 9] 2 default_seed 0
  = Some ([S754_finite false 8837709 (-30); S754_finite false 8512077 (-32); F32.of_Z 9],
          1116302264) /\
  exists data' st',
    init_random lcg [F32.of_Z 7; F32.of_Z 8; F32.of_Z 9] 2 default_seed 0 = Some (data', st') /\
    List.length data' = List.length [F32.of_Z 7; F32.of_Z 8; F32.of_Z 9] /\
    skipn 2 data' = skipn 2 [F32.of_Z 7; F32.of_Z 8; F32.of_Z 9] /\
    (forall i x, (i < 2)%nat -> nth_error data' i = Some x -> in_bounds x = true) /\
    (forall data2 st2, (2 <= List.length data2)%nat ->
       exists data2', init_random lcg data2 2 default_seed st2 = Some (data2', st') /\
                      firstn 2 data2' = firstn 2 data').
Proof.
  split; [exact lcg_ok|]. split; [simpl; lia|]. split; [vm_compute; reflexivity|].
  apply (init_random_bounded_deterministic lcg
           [F32.of_Z 7; F32.of_Z 8; F32.of_Z 9] 2 default_seed 0 lcg_ok).
  simpl; lia.
Defined.

(** C10 (as stated) fails.  When [rand()] returns [RAND_MAX] the element
    written is [0.05f = 13421773 * 2^-28], which is above 0.05 (by
    [20 / (100 * 2^28)]), and when it returns 0 the element is [-0.05f],
    below -0.05: here for the generator [lcg], whose first number is
    [RAND_MAX] after the seed 230538014 and 0 after the seed 2088216195.
    Both elements are within the bounds [-0.05f] and [0.05f]. *)
Lemma init_random_outside_real_bounds :
  generator_ok lcg /\
  random_value 2147483647 2147483647 = S754_finite false 13421773 (-28) /\
  random_value 2147483647 0 = S754_finite true 13421773 (-28) /\
  fst (rand lcg (srand lcg 230538014)) = RAND_MAX lcg /\
  init_random lcg [F32.of_Z 0] 1 230538014 0
  = Some ([S754_finite false 13421773 (-28)], 2147483647) /\
  above_ratio (S754_finite false 13421773 (-28)) 5 100 = true /\
  13421773 * 100 - 5 * 2 ^ 28 = 20 /\
  fst (rand lcg (srand lcg 2088216195)) = 0 /\
  init_random lcg [F32.of_Z 0] 1 2088216195 0
  = Some ([S754_finite true 13421773 (-28)], 0) /\
  below_ratio (S754_finite true 13421773 (-28)) (-5) 100 = true /\
  in_bounds (S754_finite false 13421773 (-28)) = true /\
  in_bounds (S754_finite true 13421773 (-28)) = true.
Proof.
  split; [exact lcg_ok|]. vm_compute. repeat split.
Qed.

(** ** Exact products *)

Lemma int_value_finite (s : bool) (m : positive) (e z : Z) :
  int_value (S754_finite s m e) = Some z -> 0 < z -> -149 <= e ->
  s = false /\ scaled F32.prec F32.emax (Z.pos m) e = scaled F32.prec F32.emax z 0.
Proof.
  intros Hv Hz He. unfold int_value in Hv.
  unfold scaled. change (t0 F32.prec F32.emax) with (-426). change (0 - -426) with 426.
  destruct (Z.leb_spec 0 e) as [H0|H0].
  - assert (P : 0 < 2 ^ e) by (apply Z.pow_pos_nonneg; lia).
    assert (Q : 0 < Z.pos m * 2 ^ e) by (apply Z.mul_pos_pos; lia).
    assert (Hv' : (if s then - (Z.pos m * 2 ^ e) else Z.pos m * 2 ^ e) = z)
      by (cbn [option_map] in Hv; congruence).
    clear Hv. destruct s; [lia|]. split; [reflexivity|]. subst z.
    replace (e - -426) with (e + 426) by lia. rewrite Z.pow_add_r by lia. lia.
  - assert (P : 0 < 2 ^ (- e)) by (apply Z.pow_pos_nonneg; lia).
    destruct (Z.eqb_spec (Z.pos m mod 2 ^ (- e)) 0) as [Hm|Hm]; [|discriminate].
    assert (Q : 0 <= Z.pos m / 2 ^ (- e)) by (apply Z.div_pos; lia).
    assert (Hv' : (if s then - (Z.pos m / 2 ^ (- e)) else Z.pos m / 2 ^ (- e)) = z)
      by (cbn [option_map] in Hv; congruence).
    clear Hv. destruct s; [lia|]. split; [reflexivity|]. subst z.
    pose proof (Z.div_mod (Z.pos m) (2 ^ (- e)) ltac:(lia)) as D.
    rewrite Hm, Z.add_0_r in D. rewrite D at 1.
    replace (2 ^ 426) with (2 ^ ((- e) + (e - -426))) by (f_equal; lia).
    rewrite Z.pow_add_r by lia. lia.
Qed.

(** A positive integer that converts exactly is a normal number of this
    value. *)
Lemma of_Z_exact_form (z : Z) :
  0 < z -> exact_int z = true ->
  exists m e, F32.of_Z z = S754_finite false m e /\
    bounded F32.prec F32.emax m e = true /\
    scaled F32.prec F32.emax (Z.pos m) e = scaled F32.prec F32.emax z 0 /\
    Z.pos (digits2_pos m) = 24 /\ int_value (F32.of_Z z) = Some z.
Proof.
  intros Hz Hex. destruct z as [|p|p]; try lia.
  pose proof (binary_round_valid F32.prec F32.emax f32_prec false p 0) as Hv.
  unfold exact_int in Hex. rewrite of_Z_pos in *.
  destruct (binary_round F32.prec F32.emax false p 0) as [s|s| |s m e] eqn:Ex;
    try discriminate.
  cbn [valid_binary] in Hv.
  destruct (bounded_inv F32.prec F32.emax m e Hv) as [Hc [_ [Hge _]]].
  change (emin F32.prec F32.emax) with (-149) in Hge.
  destruct (int_value (S754_finite s m e)) as [v|] eqn:Ev; [|discriminate].
  apply Z.eqb_eq in Hex. subst v.
  destruct (int_value_finite s m e (Z.pos p) Ev ltac:(lia) Hge) as [-> Hval].
  exists m, e. repeat split; try assumption.
  pose proof (scaled_le_digits F32.prec F32.emax 1 m 0 e) as D.
  change (t0 F32.prec F32.emax) with (-426) in D.
  change (Z.pos (digits2_pos 1)) with 1 in D.
  assert (L : scaled F32.prec F32.emax 1 0 <= scaled F32.prec F32.emax (Z.pos m) e).
  { rewrite Hval. unfold scaled. apply Z.mul_le_mono_nonneg_r; [discriminate|lia]. }
  specialize (D ltac:(lia) ltac:(lia) L).
  unfold fexp in Hc. change (emin F32.prec F32.emax) with (-149) in Hc.
  change F32.prec with 24 in Hc. lia.
Qed.

Lemma mul_exact (a b : Z) :
  0 < a -> 0 < b ->
  exact_int a = true -> exact_int b = true -> exact_int (a * b) = true ->
  F32.mul (F32.of_Z a) (F32.of_Z b) = F32.of_Z (a * b).
Proof.
  intros Ha Hb Ea Eb Eab.
  destruct (of_Z_exact_form a Ha Ea) as [ma [ea [Fa [Ba [Va [Da _]]]]]].
  destruct (of_Z_exact_form b Hb Eb) as [mb [eb [Fb [Bb [Vb [Db _]]]]]].
  destruct (of_Z_exact_form (a * b) ltac:(lia) Eab) as [mc [ec [Fc [Bc [Vc [Dc _]]]]]].
  rewrite Fa, Fb, Fc. unfold F32.mul. cbn [SFmul xorb].
  destruct (bounded_inv F32.prec F32.emax ma ea Ba) as [_ [_ [Ga _]]].
  destruct (bounded_inv F32.prec F32.emax mb eb Bb) as [_ [_ [Gb _]]].
  destruct (bounded_inv F32.prec F32.emax mc ec Bc) as [_ [_ [Gc _]]].
  change (emin F32.prec F32.emax) with (-149) in *.
  unfold scaled in *. change (t0 F32.prec F32.emax) with (-426) in *.
  change (0 - -426) with 426 in *.
  assert (Pa : 0 < 2 ^ (ea - -426)) by (apply Z.pow_pos_nonneg; lia).
  assert (Pb : 0 < 2 ^ (eb - -426)) by (apply Z.pow_pos_nonneg; lia).
  assert (PT : 0 < 2 ^ 426) by reflexivity.
  (* the product of the mantissas has the value of [a * b] *)
  assert (Hprod : Z.pos (ma * mb) * 2 ^ (ea + eb - -426) = Z.pos mc * 2 ^ (ec - -426)).
  { rewrite Vc. 
    assert (E : Z.pos (ma * mb) * 2 ^ (ea + eb - -426) * 2 ^ 426 = a * b * 2 ^ 426 * 2 ^ 426).
    { replace (a * b * 2 ^ 426 * 2 ^ 426) with ((a * 2 ^ 426) * (b * 2 ^ 426)) by lia.
      rewrite <- Va, <- Vb. rewrite Pos2Z.inj_mul.
      rewrite <- Z.mul_assoc, <- Z.pow_add_r by lia.
      replace (ea + eb - -426 + 426) with ((ea - -426) + (eb - -426)) by lia.
      rewrite Z.pow_add_r by lia. lia. }
    apply Z.mul_cancel_r in E; lia. }
  pose proof (digits_mul_ge ma mb) as Dm.
  assert (Hd : Z.pos (digits2_pos (ma * mb)) + (ea + eb) = Z.pos (digits2_pos mc) + ec).
  { pose proof (scaled_le_digits F32.prec F32.emax (ma * mb) mc (ea + eb) ec) as D1.
    pose proof (scaled_le_digits F32.prec F32.emax mc (ma * mb) ec (ea + eb)) as D2.
    unfold scaled in D1, D2. change (t0 F32.prec F32.emax) with (-426) in D1, D2.
    lia. }
  apply round_aux_exact; try assumption; try reflexivity; [lia|].
  replace (ec - -426) with ((ec - (ea + eb)) + (ea + eb - -426)) in Hprod by lia.
  rewrite Z.pow_add_r in Hprod by lia. rewrite Z.mul_assoc in Hprod.
  apply Z.mul_cancel_r in Hprod; [exact Hprod|].
  assert (0 < 2 ^ (ea + eb - -426)) by (apply Z.pow_pos_nonneg; lia). lia.
Qed.

Lemma bytes_moved_exact (cfg : AttentionConfig) :
  0 < batch_size cfg -> 0 < num_heads cfg -> 0 < seq_len cfg -> 0 < head_dim cfg ->
  batch_size cfg * num_heads cfg * seq_len cfg * head_dim cfg <= INT_MAX ->
  bytes_moved cfg =
    Some (batch_size cfg * num_heads cfg * seq_len cfg * head_dim cfg * 16).
Proof.
  intros Hb Hh Hs Hd Hfit. unfold bytes_moved, output_size.
  destruct (sizes_exact_when_fitting cfg Hb Hh Hs Hd) as [Hq _].
  rewrite (Hq Hfit). cbn [obind]. f_equal.
  set (n := batch_size cfg * num_heads cfg * seq_len cfg * head_dim cfg) in *.
  assert (0 < n).
  { unfold n. repeat apply Z.mul_pos_pos; assumption. }
  unfold size_add, size_mul, INT_MAX in *.
  rewrite (Z.mod_small (n * 4 * 3)) by lia. rewrite Z.mod_small by lia. lia.
Qed.

Lemma flops_of_exact (cfg : AttentionConfig) :
  0 < batch_size cfg -> 0 < num_heads cfg -> 0 < seq_len cfg -> 0 < head_dim cfg ->
  stats_exact cfg = true ->
  flops_of cfg =
    F32.of_Z (2 * batch_size cfg * num_heads cfg * seq_len cfg * seq_len cfg * head_dim cfg).
Proof.
  intros Hb Hh Hs Hd Hex. unfold stats_exact in Hex. cbv zeta in Hex.
  repeat (apply andb_true_iff in Hex; destruct Hex as [Hex ?]).
  unfold flops_of.
  set (b := batch_size cfg) in *. set (h := num_heads cfg) in *.
  set (s := seq_len cfg) in *. set (d := head_dim cfg) in *.
  assert (P1 : 0 < 2 * b) by lia.
  assert (P2 : 0 < 2 * b * h) by (apply Z.mul_pos_pos; assumption).
  assert (P3 : 0 < 2 * b * h * s) by (apply Z.mul_pos_pos; assumption).
  assert (P4 : 0 < 2 * b * h * s * s) by (apply Z.mul_pos_pos; assumption).
  rewrite (mul_exact 2 b) by (try assumption; try reflexivity; lia).
  rewrite (mul_exact (2 * b) h) by assumption.
  rewrite (mul_exact (2 * b * h) s) by assumption.
  rewrite (mul_exact (2 * b * h * s) s) by assumption.
  rewrite (mul_exact (2 * b * h * s * s) d) by assumption.
  reflexivity.
Qed.

Lemma exact_int_value (z : Z) : 0 < z -> exact_int z = true -> int_value (F32.of_Z z) = Some z.
Proof.
  intros Hz Hex. destruct (of_Z_exact_form z Hz Hex) as [m [e [_ [_ [_ [_ H]]]]]]. exact H.
Qed.

(** C5 (as the code has it).  [print_stats] derives the FLOP count as the
    single-precision product [2.0f * b * h * s * s * d] taken from left to
    right, the bytes as [4 * qkv_size()] converted to [float], the
    throughput and the bandwidth as these two divided by [time_ms * 1e6f],
    and the arithmetic intensity as their quotient.  When the dimensions are
    positive, their product fits [int], and the dimensions, the partial
    products of the FLOP count and the number of bytes are representable in
    single precision, the FLOP count is exactly [2*b*h*s*s*d] and the bytes
    are exactly [3 * (b*h*s*d*4) + b*h*s*d*4]. *)
Theorem derive_stats_exact (time_ms : f32) (cfg : AttentionConfig) :
  0 < batch_size cfg -> 0 < num_heads cfg -> 0 < seq_len cfg -> 0 < head_dim cfg ->
  batch_size cfg * num_heads cfg * seq_len cfg * head_dim cfg <= INT_MAX ->
  stats_exact cfg = true ->
  exists st, derive_stats time_ms cfg = Some st /\
    flops st = flops_of cfg /\
    int_value (flops st)
      = Some (2 * batch_size cfg * num_heads cfg * seq_len cfg * seq_len cfg * head_dim cfg) /\
    int_value (bytes st)
      = Some (3 * (batch_size cfg * num_heads cfg * seq_len cfg * head_dim cfg * 4)
              + batch_size cfg * num_heads cfg * seq_len cfg * head_dim cfg * 4) /\
    gflops st = F32.div (flops st) (F32.mul time_ms (F32.of_Z 1000000)) /\
    bandwidth_gb st = F32.div (bytes st) (F32.mul time_ms (F32.of_Z 1000000)) /\
    arithmetic_intensity st = F32.div (flops st) (bytes st).
Proof.
  intros Hb Hh Hs Hd Hfit Hex. unfold derive_stats.
  rewrite (bytes_moved_exact cfg Hb Hh Hs Hd Hfit). cbn [obind].
  eexists. split; [reflexivity|]. cbn [flops bytes gflops bandwidth_gb arithmetic_intensity].
  split; [reflexivity|].
  pose proof Hex as Hex'. unfold stats_exact in Hex'. cbv zeta in Hex'.
  repeat (apply andb_true_iff in Hex'; destruct Hex' as [Hex' ?]).
  set (b := batch_size cfg) in *. set (h := num_heads cfg) in *.
  set (s := seq_len cfg) in *. set (d := head_dim cfg) in *.
  assert (P1 : 0 < b * h) by (apply Z.mul_pos_pos; assumption).
  assert (P2 : 0 < b * h * s) by (apply Z.mul_pos_pos; assumption).
  assert (P3 : 0 < b * h * s * d) by (apply Z.mul_pos_pos; assumption).
  assert (Q4 : 0 < 2 * b * h * s * s * d) by (repeat apply Z.mul_pos_pos; lia).
  split; [|split; [|repeat split]].
  - rewrite (flops_of_exact cfg Hb Hh Hs Hd Hex). fold b h s d.
    apply exact_int_value; assumption.
  - replace (3 * (b * h * s * d * 4) + b * h * s * d * 4) with (b * h * s * d * 16) by lia.
    apply exact_int_value; [lia|assumption].
Qed.

Lemma derive_stats_exact_witness :
  stats_exact (AttentionConfig_new 1 8 256 64) = true /\
  exists st, derive_stats (F32.lit 3 2) (AttentionConfig_new 1 8 256 64) = Some st /\
    flops st = flops_of (AttentionConfig_new 1 8 256 64) /\
    int_value (flops st) = Some (2 * 1 * 8 * 256 * 256 * 64) /\
    int_value (bytes st) = Some (3 * (1 * 8 * 256 * 64 * 4) + 1 * 8 * 256 * 64 * 4) /\
    gflops st = F32.div (flops st) (F32.mul (F32.lit 3 2) (F32.of_Z 1000000)) /\
    bandwidth_gb st = F32.div (bytes st) (F32.mul (F32.lit 3 2) (F32.of_Z 1000000)) /\
    arithmetic_intensity st = F32.div (flops st) (bytes st).
Proof.
  split; [vm_compute; reflexivity|].
  apply (derive_stats_exact (F32.lit 3 2) (AttentionConfig_new 1 8 256 64));
    try (vm_compute; reflexivity). vm_compute. discriminate.
Defined.

(** C5 (as stated) fails.  For batch 1, 12 heads, sequence length 2047 and
    head dimension 96 the single-precision product is 9654241280, which is
    256 below [2*b*h*s*s*d]; and the throughput printed for one millisecond
    is the FLOP count divided by [1e6], not by the time. *)
Lemma flops_rounded :
  dims_valid 1 12 2047 96 = true /\ 2047 <= MAX_SEQ_LEN /\
  option_map (fun st => int_value (flops st))
    (derive_stats (F32.of_Z 1) (AttentionConfig_new 1 12 2047 96))
  = Some (Some 9654241280) /\
  2 * 1 * 12 * 2047 * 2047 * 96 = 9654241536 /\
  option_map (fun st => (int_value (flops st), format_f 2 (gflops st)))
    (derive_stats (F32.of_Z 1) (AttentionConfig_new 1 8 256 64))
  = Some (Some 67108864, "67.11"%string).
Proof. vm_compute. repeat split; discriminate. Qed.

(** The numbers are exact for the whole benchmark matrix of
    run_benchmarks.sh. *)
Lemma benchmark_matrix_exact :
  forallb (fun cfg => config_valid cfg && stats_exact cfg) benchmark_matrix = true.
Proof. vm_compute. reflexivity. Qed.

(** ** The report *)

Local Open Scope string_scope.

Lemma append_nil_r (s : string) : s ++ "" = s.
Proof. induction s as [|c s IH]; simpl; congruence. Qed.

Lemma append_assoc (a b c : string) : (a ++ b) ++ c = a ++ (b ++ c).
Proof. induction a as [|x a IH]; simpl; congruence. Qed.

Lemma length_append (a b : string) :
  String.length (a ++ b) = (String.length a + String.length b)%nat.
Proof. induction a as [|x a IH]; simpl; congruence. Qed.

(** Two texts that are equal have equal ends. *)
Lemma append_suffix_eq (a b u v : string) :
  String.length u = String.length v -> a ++ u = b ++ v -> u = v.
Proof.
  intros Hl. revert b. induction a as [|x a IH]; intros b H.
  - destruct b as [|y b]; [exact H|].
    apply (f_equal String.length) in H. simpl in H. rewrite length_append in H. lia.
  - destruct b as [|y b].
    + apply (f_equal String.length) in H. simpl in H. rewrite length_append in H. lia.
    + simpl in H. injection H as _ H. apply (IH b H).
Qed.

Lemma unlines_snoc (ls : list string) (l : string) :
  unlines (List.app ls [l]) = unlines ls ++ l ++ nl.
Proof.
  induction ls as [|x ls IH]; cbn [app unlines].
  - rewrite (append_nil_r nl). reflexivity.
  - rewrite IH, !append_assoc. reflexivity.
Qed.

(** C6.  The last line [print_stats] writes is [Memory-bound: YES] exactly
    when the arithmetic intensity it computed, [flops / bytes], compares
    below 10, and [Memory-bound: NO] exactly when it does not. *)
Theorem memory_bound_iff_intensity_below_10 (name : string) (time_ms : f32)
    (cfg : AttentionConfig) (st : Stats) :
  derive_stats time_ms cfg = Some st ->
  arithmetic_intensity st = F32.div (flops st) (bytes st) /\
  exists out, print_stats name time_ms cfg = Some out /\
    (ends_with out ("Memory-bound: YES" ++ nl) <->
     F32.ltb (arithmetic_intensity st) (F32.of_Z 10) = true) /\
    (ends_with out ("Memory-bound: NO" ++ nl) <->
     F32.ltb (arithmetic_intensity st) (F32.of_Z 10) = false).
Proof.
  intros Hst. split.
  { unfold derive_stats in Hst. destruct (bytes_moved cfg); [|discriminate].
    cbn [obind] in Hst. injection Hst as <-. reflexivity. }
  unfold print_stats. rewrite Hst. cbn [obind]. eexists. split; [reflexivity|].
  unfold metric_lines, memory_bound.
  set (ai := arithmetic_intensity st).
  set (l1 := "Time: " ++ format_f 3 time_ms ++ " ms").
  set (l2 := "GFLOPS: " ++ format_f 2 (gflops st)).
  set (l3 := "Bandwidth: " ++ format_f 2 (bandwidth_gb st) ++ " GB/s").
  set (l4 := "Arithmetic Intensity: " ++ format_f 2 ai ++ " FLOP/Byte").
  set (verdict := if F32.ltb ai (F32.of_Z 10) then "YES" else "NO").
  change [l1; l2; l3; l4; "Memory-bound: " ++ verdict]
    with (List.app [l1; l2; l3; l4] ["Memory-bound: " ++ verdict]).
  rewrite unlines_snoc.
  set (body := unlines [l1; l2; l3; l4]).
  set (head := nl ++ "=== " ++ name ++ " ===" ++ nl).
  assert (Hout : (nl ++ "=== " ++ name ++ " ===" ++ nl ++ body ++ ("Memory-bound: " ++ verdict) ++ nl)
                 = (head ++ body) ++ ("Memory-bound: " ++ verdict) ++ nl).
  { unfold head. rewrite !append_assoc. reflexivity. }
  rewrite Hout. clear Hout. set (pre := head ++ body).
  unfold verdict. destruct (F32.ltb ai (F32.of_Z 10)); split; split; intros H;
    try reflexivity; try discriminate.
  - exists pre. reflexivity.
  - exfalso. destruct H as [p H].
    change (("Memory-bound: " ++ "YES") ++ nl) with ("Memory-bound: YE" ++ ("S" ++ nl)) in H.
    change ("Memory-bound: NO" ++ nl) with ("Memory-bound: N" ++ ("O" ++ nl)) in H.
    rewrite <- (append_assoc pre), <- (append_assoc p) in H.
    apply append_suffix_eq in H; [discriminate|reflexivity].
  - exfalso. destruct H as [p H].
    change (("Memory-bound: " ++ "NO") ++ nl) with ("Memory-bound: N" ++ ("O" ++ nl)) in H.
    change ("Memory-bound: YES" ++ nl) with ("Memory-bound: YE" ++ ("S" ++ nl)) in H.
    rewrite <- (append_assoc pre), <- (append_assoc p) in H.
    apply append_suffix_eq in H; [discriminate|reflexivity].
  - exists pre. reflexivity.
Qed.

Lemma memory_bound_iff_intensity_below_10_witness :
  option_map arithmetic_intensity (derive_stats (F32.of_Z 1) (AttentionConfig_new 1 8 64 64))
  = Some (F32.of_Z 8) /\
  exists out,
    print_stats "naive" (F32.of_Z 1) (AttentionConfig_new 1 8 64 64) = Some out /\
    (ends_with out ("Memory-bound: YES" ++ nl) <->
     F32.ltb (F32.of_Z 8) (F32.of_Z 10) = true) /\
    (ends_with out ("Memory-bound: NO" ++ nl) <->
     F32.ltb (F32.of_Z 8) (F32.of_Z 10) = false).
Proof.
  split; [vm_compute; reflexivity|].
  apply (memory_bound_iff_intensity_below_10 "naive" (F32.of_Z 1)
           (AttentionConfig_new 1 8 64 64)
           (mkStats (F32.of_Z 4194304) (F32.of_Z 524288)
                    (F32.div (F32.of_Z 4194304) (F32.of_Z 1000000))
                    (F32.div (F32.of_Z 524288) (F32.of_Z 1000000))
                    (F32.of_Z 8))).
  vm_compute. reflexivity.
Defined.

(** *** The characters of a formatted number *)

Lemma string_forall_app (f : ascii -> bool) (a b : string) :
  string_forall f (a ++ b) = string_forall f a && string_forall f b.
Proof.
  induction a as [|c a IH]; simpl; [reflexivity|].
  rewrite IH, andb_assoc. reflexivity.
Qed.

Lemma string_forall_impl (f g : ascii -> bool) (s : string) :
  (forall c, f c = true -> g c = true) ->
  string_forall f s = true -> string_forall g s = true.
Proof.
  intros Hfg. induction s as [|c s IH]; simpl; [reflexivity|].
  intros H. apply andb_true_iff in H. destruct H as [Hc Hs].
  rewrite (Hfg c Hc), (IH Hs). reflexivity.
Qed.

Lemma uint_chars (u : Decimal.uint) :
  string_forall is_numchar (NilEmpty.string_of_uint u) = true.
Proof. induction u; simpl; try reflexivity; exact IHu. Qed.

Lemma decimal_chars (n : Z) : string_forall is_numchar (decimal n) = true.
Proof.
  unfold decimal, NilZero.string_of_uint.
  destruct (N.to_uint (Z.to_N n)) eqn:E; try reflexivity; rewrite <- E; apply uint_chars.
Qed.

Lemma decimal_nonempty (n : Z) : decimal n <> "".
Proof.
  unfold decimal, NilZero.string_of_uint.
  destruct (N.to_uint (Z.to_N n)); simpl; discriminate.
Qed.

Lemma zeros_chars (k : nat) : string_forall is_numchar (zeros k) = true.
Proof. induction k as [|k IH]; simpl; [reflexivity|exact IH]. Qed.

Lemma fixed_chars (p : nat) (n : Z) : string_forall is_numchar (fixed p n) = true.
Proof.
  unfold fixed. destruct p as [|p]; [apply decimal_chars|].
  rewrite !string_forall_app, !decimal_chars, zeros_chars. reflexivity.
Qed.

Lemma fixed_nonempty (p : nat) (n : Z) : fixed p n <> "".
Proof.
  unfold fixed. pose proof (decimal_nonempty (n / 10 ^ Z.of_nat p)) as H.
  destruct p as [|p]; [exact H|].
  destruct (decimal (n / 10 ^ Z.of_nat (S p))); [contradiction|discriminate].
Qed.

Lemma numchar_is_fmt (c : ascii) : is_numchar c = true -> is_fmt_char c = true.
Proof. intros H. unfold is_fmt_char. rewrite H. reflexivity. Qed.

Lemma format_f_chars (p : nat) (x : f32) :
  string_forall is_fmt_char (format_f p x) = true.
Proof.
  assert (Hfix : forall n, string_forall is_fmt_char (fixed p n) = true).
  { intros n. apply (string_forall_impl is_numchar); [exact numchar_is_fmt|apply fixed_chars]. }
  destruct x as [s|s| |s m e]; unfold format_f.
  - rewrite string_forall_app, Hfix. destruct s; reflexivity.
  - destruct s; reflexivity.
  - reflexivity.
  - rewrite string_forall_app, Hfix. destruct s; reflexivity.
Qed.

(** No formatted number holds an upper-case letter, and no digit or point
    is white space. *)
Lemma fmt_char_not_upper (u c : ascii) :
  (u = "L" \/ u = "T")%char -> is_fmt_char c = true -> negb (Ascii.eqb u c) = true.
Proof.
  intros Hu H. destruct (Ascii.eqb_spec u c) as [E|E]; [|reflexivity].
  subst c. destruct Hu as [-> | ->]; vm_compute in H; discriminate.
Qed.

Lemma numchar_not_space (c : ascii) : is_numchar c = true -> is_space c = false.
Proof.
  unfold is_numchar, is_space. set (n := nat_of_ascii c).
  intros H. apply orb_true_iff in H.
  destruct H as [H|H].
  - apply andb_true_iff in H. destruct H as [H1 H2].
    apply Nat.leb_le in H1. apply Nat.leb_le in H2.
    destruct (Nat.eqb_spec n 32); [lia|]. destruct (Nat.leb_spec n 13); [lia|].
    rewrite andb_false_r. reflexivity.
  - apply Nat.eqb_eq in H. rewrite H. reflexivity.
Qed.

(** *** Where the patterns can match *)

Lemma clash_strip (label u w : string) :
  clash label u = true -> strip_prefix label (u ++ w) = None.
Proof.
  revert u. induction label as [|a label IH]; intros u H; [discriminate|].
  destruct u as [|b u]; [discriminate|]. cbn [clash] in H. cbn [append strip_prefix].
  destruct (Ascii.eqb a b); [apply IH; exact H|reflexivity].
Qed.

Lemma match_here_none (label s : string) :
  strip_prefix label s = None -> match_here label s = None.
Proof. intros H. unfold match_here. rewrite H. reflexivity. Qed.

Lemma grep_line_step_none (label : string) (c : ascii) (s : string) :
  match_here label (String c s) = None ->
  grep_line label 0 (String c s) = grep_line label 0 s.
Proof. intros H. cbn [grep_line]. rewrite H. reflexivity. Qed.

Lemma grep_skip_pre (label pre w : string) :
  suffixes_clash label pre = true ->
  grep_line label 0 (pre ++ w) = grep_line label 0 w.
Proof.
  induction pre as [|c pre IH]; intros H; [reflexivity|].
  cbn [suffixes_clash] in H. apply andb_true_iff in H. destruct H as [Hc Hs].
  change (String c pre ++ w) with (String c (pre ++ w)).
  rewrite grep_line_step_none; [exact (IH Hs)|].
  apply match_here_none. apply (clash_strip label (String c pre) w Hc).
Qed.

Lemma grep_skip_chars (c1 : ascii) (label' X w : string) :
  string_forall (fun c => negb (Ascii.eqb c1 c)) X = true ->
  grep_line (String c1 label') 0 (X ++ w) = grep_line (String c1 label') 0 w.
Proof.
  induction X as [|c X IH]; intros H; [reflexivity|].
  cbn [string_forall] in H. apply andb_true_iff in H. destruct H as [Hc Hs].
  change (String c X ++ w) with (String c (X ++ w)).
  rewrite grep_line_step_none; [exact (IH Hs)|].
  apply match_here_none. cbn [strip_prefix].
  destruct (Ascii.eqb c1 c); [discriminate|reflexivity].
Qed.

(** A line [pre ++ number ++ post] has no match of a label that starts with
    [L] or [T], clashes with every suffix of [pre] and does not occur in
    [post]. *)
Lemma no_match_in_line (c1 : ascii) (label' pre post : string) (p : nat) (x : f32) :
  (c1 = "L" \/ c1 = "T")%char ->
  suffixes_clash (String c1 label') pre = true ->
  grep_line (String c1 label') 0 post = [] ->
  grep_line (String c1 label') 0 (pre ++ format_f p x ++ post) = [].
Proof.
  intros Hc Hpre Hpost.
  rewrite grep_skip_pre by exact Hpre.
  rewrite grep_skip_chars; [exact Hpost|].
  apply (string_forall_impl is_fmt_char); [|apply format_f_chars].
  intros c. apply fmt_char_not_upper. exact Hc.
Qed.

Lemma take_while_all (f : ascii -> bool) (X : string) (c : ascii) (w : string) :
  string_forall f X = true -> f c = false -> take_while f (X ++ String c w) = X.
Proof.
  intros HX Hc. induction X as [|x X IH]; cbn [append take_while].
  - rewrite Hc. reflexivity.
  - cbn [string_forall] in HX. apply andb_true_iff in HX. destruct HX as [Hx HX].
    rewrite Hx, (IH HX). reflexivity.
Qed.

Lemma strip_prefix_app (label rest : string) : strip_prefix label (label ++ rest) = Some rest.
Proof.
  induction label as [|a label IH]; [reflexivity|].
  cbn [append strip_prefix]. rewrite Ascii.eqb_refl. exact IH.
Qed.

Lemma grep_skip_n (label u w : string) (k : nat) :
  grep_line label (String.length u + k) (u ++ w) = grep_line label k w.
Proof.
  induction u as [|c u IH]; [reflexivity|]. cbn [String.length Nat.add append grep_line].
  exact IH.
Qed.

(** A label followed by one blank and an unsigned number matches there,
    and the search goes on behind the number. *)
Lemma grep_found (l0 : ascii) (label' X : string) (c : ascii) (post : string) :
  X <> "" -> string_forall is_numchar X = true -> is_numchar c = false ->
  grep_line (String l0 label') 0 (String l0 label' ++ " " ++ X ++ String c post)
  = X :: grep_line (String l0 label') 0 (String c post).
Proof.
  intros Hne HX Hc.
  destruct X as [|x X]; [contradiction|].
  pose proof HX as HX'. cbn [string_forall] in HX'.
  apply andb_true_iff in HX'. destruct HX' as [Hx _].
  assert (Hm : match_here (String l0 label') (String l0 label' ++ " " ++ String x X ++ String c post)
               = Some (String x X, (String.length (String l0 label') + 1 + String.length (String x X))%nat)).
  { unfold match_here. rewrite strip_prefix_app.
    change (" " ++ String x X ++ String c post) with (String " " (String x (X ++ String c post))).
    cbn [take_while drop_while].
    change (is_space " ") with true. cbv iota.
    rewrite (numchar_not_space x Hx). cbn [String.length].
    change (String x (X ++ String c post)) with (String x X ++ String c post).
    rewrite (take_while_all is_numchar (String x X) c post HX Hc). reflexivity. }
  change (String l0 label' ++ " " ++ String x X ++ String c post)
    with (String l0 (label' ++ " " ++ String x X ++ String c post)) in *.
  cbn [grep_line]. rewrite Hm. f_equal.
  rewrite <- !append_assoc.
  replace (String.length (String l0 label') + 1 + String.length (String x X) - 1)%nat
    with (String.length ((label' ++ " ") ++ String x X) + 0)%nat.
  - apply grep_skip_n.
  - rewrite !length_append. cbn [String.length]. lia.
Qed.

(** C3 (as the code has it).  [print_stats] writes a header with the name
    and five lines: [Time: <float> ms], [GFLOPS: <float>],
    [Bandwidth: <float> GB/s], [Arithmetic Intensity: <float> FLOP/Byte] and
    [Memory-bound: YES] or [NO].  None of the five lines matches the
    patterns [Latency:\s+\K[\d.]+] and [Throughput:\s+\K[\d.]+] of
    run_benchmarks.sh; the pattern [Bandwidth:\s+\K[\d.]+] extracts the
    bandwidth from the third line when that is a finite number with no
    sign. *)
Theorem print_stats_lines (name : string) (time_ms : f32) (cfg : AttentionConfig)
    (st : Stats) :
  derive_stats time_ms cfg = Some st ->
  print_stats name time_ms cfg
    = Some (nl ++ "=== " ++ name ++ " ===" ++ nl ++ unlines (metric_lines time_ms st)) /\
  (exists intensity verdict,
     metric_lines time_ms st =
       [ "Time: " ++ format_f 3 time_ms ++ " ms";
         "GFLOPS: " ++ format_f 2 (gflops st);
         "Bandwidth: " ++ format_f 2 (bandwidth_gb st) ++ " GB/s";
         intensity; verdict ]) /\
  (forall l, In l (metric_lines time_ms st) ->
     grep_line "Latency:" 0 l = [] /\ grep_line "Throughput:" 0 l = []) /\
  (nonneg_finite (bandwidth_gb st) = true ->
   grep_line "Bandwidth:" 0 ("Bandwidth: " ++ format_f 2 (bandwidth_gb st) ++ " GB/s")
     = [format_f 2 (bandwidth_gb st)]).
Proof.
  intros Hst. split; [unfold print_stats; rewrite Hst; reflexivity|].
  split; [eexists; eexists; reflexivity|]. split.
  - intros l Hl. unfold metric_lines in Hl. cbn [In] in Hl.
    destruct Hl as [<-|[<-|[<-|[<-|[<-|[]]]]]].
    + split; apply no_match_in_line; auto.
    + rewrite <- (append_nil_r (format_f 2 (gflops st))).
      split; apply no_match_in_line; auto.
    + split; apply no_match_in_line; auto.
    + split; apply no_match_in_line; auto.
    + destruct (memory_bound (arithmetic_intensity st)); split; reflexivity.
  - intros Hb.
    assert (HX : format_f 2 (bandwidth_gb st) <> "" /\
                 string_forall is_numchar (format_f 2 (bandwidth_gb st)) = true).
    { destruct (bandwidth_gb st) as [[|]|s| |[|] m e]; try discriminate; cbn [format_f sign_string].
      - split; [apply fixed_nonempty|apply fixed_chars].
      - split; [apply fixed_nonempty|apply fixed_chars]. }
    destruct HX as [Hne Hch].
    change ("Bandwidth: " ++ format_f 2 (bandwidth_gb st) ++ " GB/s")
      with ("Bandwidth:" ++ " " ++ format_f 2 (bandwidth_gb st) ++ String " " "GB/s").
    rewrite grep_found by (try assumption; reflexivity). reflexivity.
Qed.

Lemma print_stats_lines_witness :
  derive_stats (F32.of_Z 1) (AttentionConfig_new 1 8 256 64)
  = Some (mkStats (F32.of_Z 67108864) (F32.of_Z 2097152)
            (S754_finite false 8796093 (-17)) (S754_finite false 8796093 (-22))
            (F32.of_Z 32)) /\
  grep_line "Bandwidth:" 0 "Bandwidth: 2.10 GB/s" = ["2.10"] /\
  forall l,
    In l (metric_lines (F32.of_Z 1)
            (mkStats (F32.of_Z 67108864) (F32.of_Z 2097152)
               (S754_finite false 8796093 (-17)) (S754_finite false 8796093 (-22))
               (F32.of_Z 32))) ->
    grep_line "Latency:" 0 l = [] /\ grep_line "Throughput:" 0 l = [].
Proof.
  split; [vm_compute; reflexivity|]. split; [vm_compute; reflexivity|].
  apply (print_stats_lines "naive" (F32.of_Z 1) (AttentionConfig_new 1 8 256 64)).
  vm_compute. reflexivity.
Defined.

(** C3 (as stated) fails.  From the report of [print_stats] for the default
    workload the pattern match of run_benchmarks.sh gets no latency and no
    throughput: both shell variables are set to [N/A]. *)
Lemma print_stats_no_latency_no_throughput :
  print_stats "Naive Attention" (F32.of_Z 1) (AttentionConfig_new 1 8 256 64)
  = Some (nl ++ "=== Naive Attention ===" ++ nl ++
          "Time: 1.000 ms" ++ nl ++
          "GFLOPS: 67.11" ++ nl ++
          "Bandwidth: 2.10 GB/s" ++ nl ++
          "Arithmetic Intensity: 32.00 FLOP/Byte" ++ nl ++
          "Memory-bound: NO" ++ nl) /\
  option_map parse_latency
    (print_stats "Naive Attention" (F32.of_Z 1) (AttentionConfig_new 1 8 256 64))
  = Some "N/A" /\
  option_map parse_throughput
    (print_stats "Naive Attention" (F32.of_Z 1) (AttentionConfig_new 1 8 256 64))
  = Some "N/A" /\
  option_map parse_bandwidth
    (print_stats "Naive Attention" (F32.of_Z 1) (AttentionConfig_new 1 8 256 64))
  = Some "2.10".
Proof. vm_compute. repeat split. Qed.

Local Close Scope string_scope.

(** * Further properties of the code

    ** Exact quotients and the order of numbers *)

Section Quotients.

Variables prec emax : Z.
Hypothesis Hprec : 0 < prec.
Hypothesis Hemax : prec < emax.

Local Abbreviation fexp := (SpecFloat.fexp prec emax).
Local Abbreviation emin := (SpecFloat.emin prec emax).
Local Abbreviation scl := (scaled prec emax).
Local Abbreviation tz := (t0 prec emax).

Lemma pow2_lt_inv (a b : Z) : 0 <= b -> 2 ^ a < 2 ^ b -> a < b.
Proof.
  intros Hb H. destruct (Z.lt_ge_cases a b) as [|Hge]; [assumption|].
  exfalso. assert (2 ^ b <= 2 ^ a) by (apply Z.pow_le_mono_r; lia). lia.
Qed.

(** A quotient that is a floating-point number is computed exactly. *)
Lemma div_exact (sx sy : bool) (mx my mz : positive) (ex ey ez : Z) :
  bounded prec emax mx ex = true -> bounded prec emax my ey = true ->
  bounded prec emax mz ez = true ->
  scl (Z.pos mx) ex * 2 ^ (- tz) = scl (Z.pos mz) ez * scl (Z.pos my) ey ->
  SFdiv prec emax (S754_finite sx mx ex) (S754_finite sy my ey)
  = S754_finite (xorb sx sy) mz ez.
Proof.
  intros Bx By Bz Heq.
  destruct (bounded_inv prec emax mx ex Bx) as [Cx [_ [Ex _]]].
  destruct (bounded_inv prec emax my ey By) as [Cy [_ [Ey _]]].
  destruct (bounded_inv prec emax mz ez Bz) as [Cz [_ [Ez _]]].
  pose proof (t0_lt_emin prec emax Hprec Hemax) as Ht.
  assert (Ht0 : tz < 0) by (unfold SpecFloat.emin in Ht; lia).
  pose proof (digits_bounds mx) as Dx. pose proof (digits_bounds my) as Dy.
  pose proof (digits_bounds mz) as Dz.
  set (d1 := Z.pos (digits2_pos mx)) in *. set (d2 := Z.pos (digits2_pos my)) in *.
  set (dz := Z.pos (digits2_pos mz)) in *.
  unfold scaled in Heq.
  set (a := ex - tz) in *. set (b := ey - tz) in *. set (c := ez - tz) in *.
  assert (Ha : 0 <= a) by (unfold a; lia). assert (Hb : 0 <= b) by (unfold b; lia).
  assert (Hc : 0 <= c) by (unfold c; lia).
  assert (Hd1 : 0 < d1) by (unfold d1; lia). assert (Hd2 : 0 < d2) by (unfold d2; lia).
  assert (Hdz : 0 < dz) by (unfold dz; lia).
  (* the magnitude of the quotient *)
  assert (HD : d1 + ex - (d2 + ey) <= dz + ez).
  { assert (L : 2 ^ (d1 - 1 + a - tz) < 2 ^ (dz + c + (d2 + b))).
    { apply Z.le_lt_trans with (Z.pos mx * 2 ^ a * 2 ^ (- tz)).
      - replace (d1 - 1 + a - tz) with ((d1 - 1) + a + (- tz)) by lia.
        rewrite !Z.pow_add_r by lia.
        apply Z.mul_le_mono_nonneg_r; [apply Z.pow_nonneg; lia|].
        apply Z.mul_le_mono_nonneg_r; [apply Z.pow_nonneg; lia|lia].
      - rewrite Heq. rewrite (Z.pow_add_r 2 (dz + c)) by lia.
        rewrite (Z.pow_add_r 2 dz), (Z.pow_add_r 2 d2) by lia.
        assert (P1 : 0 < 2 ^ c) by (apply Z.pow_pos_nonneg; lia).
        assert (P2 : 0 < 2 ^ b) by (apply Z.pow_pos_nonneg; lia).
        apply Z.mul_lt_mono_nonneg.
        + apply Z.mul_nonneg_nonneg; lia.
        + apply Z.mul_lt_mono_pos_r; lia.
        + apply Z.mul_nonneg_nonneg; lia.
        + apply Z.mul_lt_mono_pos_r; lia. }
    apply pow2_lt_inv in L; [|lia]. unfold a, b, c in L. lia. }
  unfold SFdiv, SFdiv_core_binary.
  change (Zdigits2 (Z.pos mx)) with d1. change (Zdigits2 (Z.pos my)) with d2.
  set (e' := Z.min (fexp (d1 + ex - (d2 + ey))) (ex - ey)).
  assert (He' : e' <= ez).
  { rewrite <- Cz. fold dz.
    apply Z.le_trans with (fexp (d1 + ex - (d2 + ey))); [apply Z.le_min_l|].
    apply (fexp_mono prec emax). exact HD. }
  remember (ex - ey - e') as s eqn:Es_def.
  assert (Hs : 0 <= s) by (unfold e' in Es_def; lia).
  set (k := ez - e'). assert (Hk : 0 <= k) by (unfold k; lia).
  assert (Hm' : match s with Z.pos _ => Z.shiftl (Z.pos mx) s | 0 => Z.pos mx | Z.neg _ => 0 end
                = Z.pos my * (Z.pos mz * 2 ^ k)).
  { assert (E : Z.pos mx * 2 ^ s = Z.pos my * (Z.pos mz * 2 ^ k)).
    { apply (Z.mul_reg_l _ _ (2 ^ (b + c))).
      - assert (0 < 2 ^ (b + c)) by (apply Z.pow_pos_nonneg; lia). lia.
      - replace (2 ^ (b + c) * (Z.pos mx * 2 ^ s))
          with (Z.pos mx * 2 ^ a * 2 ^ (- tz) * 2 ^ k).
        + rewrite Heq. rewrite (Z.pow_add_r 2 b c) by lia. ring.
        + replace (2 ^ (b + c) * (Z.pos mx * 2 ^ s)) with (Z.pos mx * 2 ^ (s + (b + c)))
            by (rewrite (Z.pow_add_r 2 s) by lia; ring).
          replace (s + (b + c)) with (a + (- tz) + k) by (unfold k, a, b, c; lia).
          rewrite !Z.pow_add_r by lia. ring. }
    destruct s as [|p|p]; try lia.
    rewrite Z.shiftl_mul_pow2 by lia. exact E. }
  rewrite Hm'.
  assert (Hq : 0 < Z.pos mz * 2 ^ k).
  { apply Z.mul_pos_pos; [lia|apply Z.pow_pos_nonneg; lia]. }
  assert (Ediv : Z.div_eucl (Z.pos my * (Z.pos mz * 2 ^ k)) (Z.pos my)
                 = (Z.pos mz * 2 ^ k, 0)).
  { pose proof (Z.div_eucl_eq (Z.pos my * (Z.pos mz * 2 ^ k)) (Z.pos my) ltac:(lia)) as H.
    pose proof (Z.mod_pos_bound (Z.pos my * (Z.pos mz * 2 ^ k)) (Z.pos my) ltac:(lia)) as Hbd.
    unfold Z.modulo in Hbd.
    destruct (Z.div_eucl (Z.pos my * (Z.pos mz * 2 ^ k)) (Z.pos my)) as [q r].
    assert (Hqr : Z.pos my * (Z.pos mz * 2 ^ k - q) = r) by lia.
    assert (Z.pos mz * 2 ^ k - q = 0) by nia.
    f_equal; lia. }
  rewrite Ediv.
  assert (L : new_location (Z.pos my) 0 = loc_Exact).
  { unfold new_location. destruct (Z.even (Z.pos my)); reflexivity. }
  rewrite L.
  destruct (Z.pos mz * 2 ^ k) as [|q|q] eqn:Eq; try lia.
  apply (round_aux_exact prec emax Hprec); [exact Bz|exact He'|].
  fold k. lia.
Qed.

(** The order of two positive numbers is the order of their values. *)
Lemma ltb_scaled (m n : positive) (e f : Z) :
  bounded prec emax m e = true -> bounded prec emax n f = true ->
  SFltb (S754_finite false m e) (S754_finite false n f)
  = (scl (Z.pos m) e <? scl (Z.pos n) f).
Proof.
  intros Bm Bn. unfold SFltb. cbn [SFcompare].
  destruct (Z.ltb_spec (scl (Z.pos m) e) (scl (Z.pos n) f)) as [Hlt|Hge].
  - destruct (bounded_order prec emax Hprec Hemax m n e f Bm Bn ltac:(lia)) as [He|[He Hm]].
    + rewrite (proj2 (Z.compare_lt_iff e f) He). reflexivity.
    + subst f. rewrite Z.compare_refl.
      assert (Hne : m <> n) by (intros ->; lia).
      change (Pos.compare_cont Eq m n) with (Pos.compare m n).
      rewrite (proj2 (Pos.compare_lt_iff m n)) by lia. reflexivity.
  - destruct (bounded_order prec emax Hprec Hemax n m f e Bn Bm Hge) as [He|[He Hm]].
    + rewrite (proj2 (Z.compare_gt_iff e f) He). reflexivity.
    + subst f. rewrite Z.compare_refl.
      change (Pos.compare_cont Eq m n) with (Pos.compare m n).
      destruct (Pos.compare_spec m n); try reflexivity. lia.
Qed.

End Quotients.

(** ** The workload descriptor, further *)

(** A rounded number has the sign it was given. *)
Lemma binary_round_sign (s : bool) (m : positive) (e : Z) :
  binary_round F32.prec F32.emax s m e
  = match SFabs (binary_round F32.prec F32.emax false m e) with
    | S754_zero _ => S754_zero s
    | S754_infinity _ => S754_infinity s
    | S754_finite _ m' e' => S754_finite s m' e'
    | S754_nan => S754_nan
    end.
Proof.
  unfold binary_round.
  destruct (shl_align m e (fexp F32.prec F32.emax (Z.pos (digits2_pos m) + e))) as [mz ez].
  unfold binary_round_aux.
  destruct (shr_fexp F32.prec F32.emax (Z.pos mz) ez loc_Exact) as [mrs' e'].
  destruct (shr_fexp F32.prec F32.emax _ e' loc_Exact) as [mrs'' e''].
  destruct (shr_m mrs'') as [|p|p]; try reflexivity.
  destruct (e'' <=? F32.emax - F32.prec); reflexivity.
Qed.

(** X1.  The constructor computes a scale for a head dimension that is not
    positive as well, and this scale is no finite number: the quotient
    [1.0f / sqrtf((float)head_dim)] is a division by zero for
    [head_dim = 0], and the square root of a negative number is a NaN. *)
Theorem scale_of_nonpositive_head_dim (b h s d : Z) :
  INT_MIN <= d <= 0 ->
  F32.is_finite (scale (AttentionConfig_new b h s d)) = false.
Proof.
  intros [Hlo Hle]. cbn [scale AttentionConfig_new].
  destruct d as [|p|p]; try lia; [reflexivity|].
  assert (E : exists m e, F32.of_Z (Z.neg p) = S754_finite true m e).
  { unfold F32.of_Z, binary_normalize. rewrite binary_round_sign.
    destruct (Pos.eq_dec p 2147483648) as [->|Hne]; [vm_compute; eauto|].
    assert (Hp : Z.pos p <= INT_MAX) by (unfold INT_MIN, INT_MAX in *; lia).
    destruct (of_Z_mono p p ltac:(lia) Hp) as [m [e [m' [e' [Ep _]]]]].
    rewrite of_Z_pos in Ep. rewrite Ep. cbn [SFabs]. eauto. }
  destruct E as [m [e E]]. rewrite E. reflexivity.
Qed.

Lemma scale_of_nonpositive_head_dim_witness :
  F32.is_finite (scale (AttentionConfig_new 1 8 256 0)) = false /\
  F32.is_finite (scale (AttentionConfig_new 1 8 256 (-64))) = false /\
  F32.is_finite (scale (AttentionConfig_new 1 8 256 64)) = true.
Proof.
  split; [apply (scale_of_nonpositive_head_dim 1 8 256 0); unfold INT_MIN; lia|].
  split; [apply (scale_of_nonpositive_head_dim 1 8 256 (-64)); unfold INT_MIN; lia|].
  reflexivity.
Defined.

Lemma int_mul_over (a b : Z) : INT_MAX < a * b -> int_mul a b = None.
Proof.
  intros H. unfold int_mul, in_int.
  replace (a * b <=? INT_MAX) with false by (symmetry; apply Z.leb_gt; exact H).
  rewrite andb_false_r. reflexivity.
Qed.

(** Three [int] factors and a fourth one: the product of positive numbers
    overflows at the first partial product that is above [INT_MAX]. *)
Lemma int_product4 (a b c d : Z) :
  0 < a -> 0 < b -> 0 < c -> 0 < d ->
  (p1 <- int_mul a b ;; p2 <- int_mul p1 c ;; p3 <- int_mul p2 d ;;
   Some (size_mul (to_size_t p3) sizeof_float))
  = if a * b * c * d <=? INT_MAX then Some (a * b * c * d * 4) else None.
Proof.
  intros Ha Hb Hc Hd.
  assert (H1 : 0 < a * b) by (apply Z.mul_pos_pos; assumption).
  assert (H2 : 0 < a * b * c) by (apply Z.mul_pos_pos; assumption).
  assert (H3 : a * b <= a * b * c) by nia.
  assert (H4 : a * b * c <= a * b * c * d) by nia.
  destruct (Z.leb_spec (a * b * c * d) INT_MAX) as [Hfit|Hover].
  - unfold INT_MAX in Hfit.
    repeat (rewrite int_mul_fits by (unfold INT_MIN, INT_MAX; lia); cbn [obind]).
    unfold size_mul, to_size_t, sizeof_float.
    rewrite (Z.mod_small (a * b * c * d)) by lia.
    rewrite Z.mod_small by lia. reflexivity.
  - destruct (Z.le_gt_cases (a * b) INT_MAX) as [F1|O1].
    2:{ rewrite int_mul_over by lia. reflexivity. }
    rewrite int_mul_fits by (unfold INT_MIN, INT_MAX in *; lia). cbn [obind].
    destruct (Z.le_gt_cases (a * b * c) INT_MAX) as [F2|O2].
    2:{ rewrite int_mul_over by lia. reflexivity. }
    rewrite int_mul_fits by (unfold INT_MIN, INT_MAX in *; lia). cbn [obind].
    rewrite int_mul_over by lia. reflexivity.
Qed.

(** X2.  For positive dimensions [qkv_size] (and [output_size], which calls
    it) is the byte count [4 * batch * heads * seq_len * head_dim] when the
    element count is at most [INT_MAX], and has no defined result (signed
    overflow) otherwise; likewise [attention_matrix_size] with
    [seq_len * seq_len]. *)
Theorem sizes_exact_iff_count_fits (cfg : AttentionConfig) :
  0 < batch_size cfg -> 0 < num_heads cfg -> 0 < seq_len cfg -> 0 < head_dim cfg ->
  qkv_size cfg
  = (if batch_size cfg * num_heads cfg * seq_len cfg * head_dim cfg <=? INT_MAX
     then Some (batch_size cfg * num_heads cfg * seq_len cfg * head_dim cfg * 4)
     else None) /\
  output_size cfg = qkv_size cfg /\
  attention_matrix_size cfg
  = (if batch_size cfg * num_heads cfg * seq_len cfg * seq_len cfg <=? INT_MAX
     then Some (batch_size cfg * num_heads cfg * seq_len cfg * seq_len cfg * 4)
     else None).
Proof.
  intros Hb Hh Hs Hd. split; [|split].
  - apply int_product4; assumption.
  - reflexivity.
  - apply int_product4; assumption.
Qed.

Lemma sizes_exact_iff_count_fits_witness :
  qkv_size (AttentionConfig_new 2 12 1024 64) = Some 6291456 /\
  output_size (AttentionConfig_new 2 12 1024 64) = Some 6291456 /\
  attention_matrix_size (AttentionConfig_new 2 12 1024 64) = Some 100663296 /\
  attention_matrix_size (AttentionConfig_new 8 16 4096 128) = None.
Proof.
  pose proof (sizes_exact_iff_count_fits (AttentionConfig_new 2 12 1024 64)
                ltac:(simpl; lia) ltac:(simpl; lia) ltac:(simpl; lia) ltac:(simpl; lia))
    as [H1 [H2 H3]].
  pose proof (sizes_exact_iff_count_fits (AttentionConfig_new 8 16 4096 128)
                ltac:(simpl; lia) ltac:(simpl; lia) ltac:(simpl; lia) ltac:(simpl; lia))
    as [_ [_ H4]].
  split; [exact H1|]. split; [rewrite H2; exact H1|]. split; [exact H3|exact H4].
Defined.

(** X3.  When the element count is negative (an odd number of negative
    dimensions) and the products fit [int], the conversion to [size_t] wraps
    around: [qkv_size] is [2^64 - 4 * |count|], at least [2^64 - 2^33]
    bytes. *)
Theorem qkv_size_negative_count (cfg : AttentionConfig) :
  in_int (batch_size cfg * num_heads cfg) = true ->
  in_int (batch_size cfg * num_heads cfg * seq_len cfg) = true ->
  in_int (batch_size cfg * num_heads cfg * seq_len cfg * head_dim cfg) = true ->
  batch_size cfg * num_heads cfg * seq_len cfg * head_dim cfg < 0 ->
  qkv_size cfg
  = Some (2 ^ 64 + 4 * (batch_size cfg * num_heads cfg * seq_len cfg * head_dim cfg)) /\
  forall n, qkv_size cfg = Some n -> 2 ^ 64 - 2 ^ 33 <= n <= SIZE_MAX.
Proof.
  intros H1 H2 H3 Hneg.
  set (p := batch_size cfg * num_heads cfg * seq_len cfg * head_dim cfg) in *.
  assert (Hp : - 2 ^ 31 <= p <= 2 ^ 31 - 1).
  { unfold in_int, INT_MIN, INT_MAX in H3. apply andb_true_iff in H3. destruct H3 as [A B].
    apply Z.leb_le in A. apply Z.leb_le in B. split; assumption. }
  assert (E : qkv_size cfg = Some (2 ^ 64 + 4 * p)).
  { unfold qkv_size, int_mul. rewrite H1. cbn [obind]. rewrite H2. cbn [obind].
    fold p. rewrite H3. cbn [obind]. f_equal.
    unfold size_mul, to_size_t, sizeof_float.
    rewrite Z.mul_mod_idemp_l by lia.
    replace (p * 4) with ((2 ^ 64 + 4 * p) + (-1) * 2 ^ 64) by lia.
    rewrite Z.mod_add by lia. apply Z.mod_small. lia. }
  split; [exact E|]. intros n Hn. rewrite E in Hn.
  assert (Hn' : 2 ^ 64 + 4 * p = n) by (apply (f_equal (fun o => match o with Some v => v | None => 0 end)) in Hn; exact Hn).
  rewrite <- Hn'. unfold SIZE_MAX. lia.
Qed.

Lemma qkv_size_negative_count_witness :
  qkv_size (AttentionConfig_new 1 8 (-256) 64) = Some 18446744073709027328.
Proof.
  apply (proj1 (qkv_size_negative_count (AttentionConfig_new 1 8 (-256) 64)
                  ltac:(reflexivity) ltac:(reflexivity) ltac:(reflexivity)
                  ltac:(simpl; lia))).
Defined.

(** ** Random initialisation, further *)

(** A number divided by itself is one. *)
Lemma div_self (m : positive) (e : Z) :
  F32.div (S754_finite false m e) (S754_finite false m e) = S754_finite false 8388608 (-23).
Proof.
  unfold F32.div, SFdiv, SFdiv_core_binary.
  rewrite !Z.sub_diag.
  change (fexp F32.prec F32.emax 0) with (-24).
  change (Z.min (-24) 0) with (-24). change (0 - -24) with 24.
  rewrite Z.shiftl_mul_pow2 by lia.
  assert (E : Z.div_eucl (Z.pos m * 2 ^ 24) (Z.pos m) = (2 ^ 24, 0)).
  { pose proof (Z.div_eucl_eq (Z.pos m * 2 ^ 24) (Z.pos m) ltac:(lia)) as H.
    pose proof (Z.mod_pos_bound (Z.pos m * 2 ^ 24) (Z.pos m) ltac:(lia)) as Hb.
    unfold Z.modulo in Hb.
    destruct (Z.div_eucl (Z.pos m * 2 ^ 24) (Z.pos m)) as [q r].
    assert (q = 2 ^ 24 /\ r = 0) as [-> ->]; [|reflexivity].
    assert (Hq : Z.pos m * (2 ^ 24 - q) = r) by lia.
    assert (2 ^ 24 - q = 0) by nia. split; lia. }
  rewrite E.
  assert (L : new_location (Z.pos m) 0 = loc_Exact).
  { unfold new_location. destruct (Z.even (Z.pos m)); reflexivity. }
  rewrite L. vm_compute. reflexivity.
Qed.

(** X4.  The two ends of the range are attained, whatever [RAND_MAX] is:
    the element written for [rand() = 0] is [-0.05f] and the one for
    [rand() = RAND_MAX] is [0.05f], both exactly. *)
Theorem random_value_extremes (rand_max : Z) :
  0 < rand_max <= INT_MAX ->
  random_value rand_max 0 = F32.opp (F32.lit 5 100) /\
  random_value rand_max rand_max = F32.lit 5 100.
Proof.
  intros [Hpos Hmax]. destruct rand_max as [|p|p]; try lia.
  destruct (of_Z_mono p p ltac:(lia) Hmax) as [m [e [m' [e' [E _]]]]].
  unfold random_value. rewrite E. split.
  - change (F32.of_Z 0) with (S754_zero false). vm_compute. reflexivity.
  - rewrite div_self. vm_compute. reflexivity.
Qed.

Lemma random_value_extremes_witness :
  random_value 2147483647 0 = S754_finite true 13421773 (-28) /\
  random_value 2147483647 2147483647 = S754_finite false 13421773 (-28).
Proof.
  apply (random_value_extremes 2147483647). unfold INT_MAX. lia.
Defined.

Lemma init_random_loop_split (g : Generator) (n k : nat) :
  forall (data r : list f32) (st s : rng_state g),
  init_random_loop g (n + k) data st = Some (r, s) ->
  exists r1 s1,
    init_random_loop g n data st = Some (r1, s1) /\
    firstn n r = firstn n r1 /\
    init_random_loop g k (skipn n data) s1 = Some (skipn n r, s).
Proof.
  induction n as [|n IH]; intros data r st s H.
  - exists data, st. split; [reflexivity|]. split; [reflexivity|]. exact H.
  - cbn [Nat.add init_random_loop] in H. cbn [init_random_loop].
    destruct data as [|x0 rest]; [discriminate|].
    destruct (rand g st) as [v st1].
    destruct (init_random_loop g (n + k) rest st1) as [[r' s']|] eqn:E; [|discriminate].
    injection H as <- <-.
    destruct (IH rest r' st1 s' E) as [r1 [s1 [E1 [Hf Hk]]]].
    rewrite E1. exists (random_value (RAND_MAX g) v :: r1), s1.
    split; [reflexivity|]. split; [cbn [firstn]; rewrite Hf; reflexivity|exact Hk].
Qed.

(** X5.  Initialising [m] elements extends initialising [n <= m] elements
    with the same seed: the first [n] elements are the same, and the
    remaining [m - n] are those the loop writes when it goes on from the
    generator state the shorter call left behind. *)
Theorem init_random_prefix (g : Generator) (data1 data2 r1 r2 : list f32) (n m : nat)
    (seed : Z) (st1 st2 s1 s2 : rng_state g) :
  (n <= m)%nat ->
  init_random g data1 n seed st1 = Some (r1, s1) ->
  init_random g data2 m seed st2 = Some (r2, s2) ->
  firstn n r2 = firstn n r1 /\
  init_random_loop g (m - n) (skipn n data2) s1 = Some (skipn n r2, s2).
Proof.
  intros Hnm H1 H2. unfold init_random in *.
  replace m with (n + (m - n))%nat in H2 by lia.
  destruct (init_random_loop_split g n (m - n) _ _ _ _ H2) as [r [s [E [Hf Hk]]]].
  destruct (init_random_loop_det g n _ _ _ _ _ _ _ E H1) as [Hfirst Hs].
  subst s. split; [congruence|exact Hk].
Qed.

Lemma init_random_prefix_witness :
  firstn 2 [S754_finite false 8837709 (-30); S754_finite false 8512077 (-32);
            S754_finite true 14613018 (-32)]
  = firstn 2 [S754_finite false 8837709 (-30); S754_finite false 8512077 (-32); F32.of_Z 9] /\
  init_random_loop lcg (3 - 2) (skipn 2 [F32.of_Z 1; F32.of_Z 2; F32.of_Z 3]) 1116302264
  = Some (skipn 2 [S754_finite false 8837709 (-30); S754_finite false 8512077 (-32);
                   S754_finite true 14613018 (-32)], 1000676753).
Proof.
  apply (init_random_prefix lcg [F32.of_Z 7; F32.of_Z 8; F32.of_Z 9]
           [F32.of_Z 1; F32.of_Z 2; F32.of_Z 3]
           [S754_finite false 8837709 (-30); S754_finite false 8512077 (-32); F32.of_Z 9]
           [S754_finite false 8837709 (-30); S754_finite false 8512077 (-32);
            S754_finite true 14613018 (-32)]
           2 3 default_seed 0 5 1116302264 1000676753);
    [lia | vm_compute; reflexivity | vm_compute; reflexivity].
Defined.

Lemma init_random_loop_length (g : Generator) (todo : nat) :
  forall (data r : list f32) (st s : rng_state g),
  init_random_loop g todo data st = Some (r, s) ->
  List.length r = List.length data /\ (todo <= List.length data)%nat.
Proof.
  induction todo as [|todo IH]; intros data r st s H.
  - cbn in H. injection H as <- <-. split; [reflexivity|lia].
  - cbn [init_random_loop] in H. destruct data as [|x rest]; [discriminate|].
    destruct (rand g st) as [v st1].
    destruct (init_random_loop g todo rest st1) as [[r' s']|] eqn:E; [|discriminate].
    injection H as <- <-. destruct (IH _ _ _ _ E) as [Hl Hn].
    cbn [List.length]. split; lia.
Qed.


(** ** Verification of results, further *)

(** The magnitude of a rounded number does not depend on its sign. *)
Lemma abs_round_aux (s : bool) (m e : Z) (l : location) :
  SFabs (binary_round_aux F32.prec F32.emax s m e l)
  = SFabs (binary_round_aux F32.prec F32.emax false m e l).
Proof.
  unfold binary_round_aux.
  destruct (shr_fexp F32.prec F32.emax m e l) as [mrs' e'].
  destruct (shr_fexp F32.prec F32.emax _ e' loc_Exact) as [mrs'' e''].
  destruct (shr_m mrs'') as [|p|p]; try reflexivity.
  destruct (e'' <=? F32.emax - F32.prec); reflexivity.
Qed.

Lemma abs_normalize_opp (z e : Z) :
  SFabs (binary_normalize F32.prec F32.emax (- z) e false)
  = SFabs (binary_normalize F32.prec F32.emax z e false).
Proof.
  unfold binary_normalize.
  destruct z as [|p|p]; cbn [Z.opp]; try reflexivity;
    unfold binary_round;
    destruct (shl_align p e (fexp F32.prec F32.emax (Z.pos (digits2_pos p) + e))) as [mz ez];
    rewrite (abs_round_aux true); reflexivity.
Qed.

(** [fabsf(a - b)] and [fabsf(b - a)] are the same number. *)
Lemma diff_at_comm (a b : f32) : diff_at a b = diff_at b a.
Proof.
  unfold diff_at, F32.abs, F32.sub.
  destruct a as [sa|sa| |sa ma ea], b as [sb|sb| |sb mb eb];
    try reflexivity;
    try (destruct sa, sb; reflexivity).
  unfold SFsub. rewrite (Z.min_comm eb ea).
  set (ez := Z.min ea eb).
  set (A := Z.pos (fst (shl_align ma ea ez))).
  set (B := Z.pos (fst (shl_align mb eb ez))).
  replace (cond_Zopp sb B - cond_Zopp sa A)
    with (- (cond_Zopp sa A - cond_Zopp sb B))
    by lia.
  symmetry. apply abs_normalize_opp.
Qed.

Lemma exceeds_comm (tol a b : f32) : exceeds tol a b = exceeds tol b a.
Proof. unfold exceeds. rewrite diff_at_comm. reflexivity. Qed.

(** X6.  [verify_results] is symmetric in its two buffers: with [ref] and
    [test] exchanged it returns the same boolean and reports the same index
    and difference, with the two values exchanged. *)
Theorem verify_results_symmetric (ref test : list f32) (n : nat) (tol : f32) :
  verify_results test ref n tol = option_map swap_result (verify_results ref test n tol).
Proof.
  unfold verify_results. generalize 0%nat.
  induction n as [|n IH]; intros i; [reflexivity|].
  cbn [verify_loop].
  destruct (nth_error ref i) as [r|], (nth_error test i) as [t|]; try reflexivity.
  rewrite (exceeds_comm tol t r). destruct (exceeds tol r t).
  - cbn. rewrite (diff_at_comm t r). reflexivity.
  - apply IH.
Qed.

(** [fabsf(x - x)] is [+0], or a NaN when [x] is infinite or a NaN. *)
Lemma diff_at_self (x : f32) :
  diff_at x x = if F32.is_finite x then S754_zero false else S754_nan.
Proof.
  unfold diff_at, F32.abs, F32.sub.
  destruct x as [[|]|[|]| |s m e]; try reflexivity.
  unfold SFsub. rewrite Z.sub_diag. reflexivity.
Qed.

Lemma exceeds_self (tol x : f32) :
  exceeds tol x x = F32.ltb tol (S754_zero false) && F32.is_finite x.
Proof.
  unfold exceeds, F32.gtb. rewrite diff_at_self.
  destruct (F32.is_finite x).
  - rewrite andb_true_r. reflexivity.
  - rewrite andb_false_r. destruct tol as [[|]|[|]| |[|] m e]; reflexivity.
Qed.

Lemma verify_loop_all_pass (ref test : list f32) (tol : f32) (todo : nat) :
  forall i, (i + todo <= List.length ref)%nat -> (i + todo <= List.length test)%nat ->
  (forall k r t, (i <= k < i + todo)%nat -> nth_error ref k = Some r ->
                 nth_error test k = Some t -> exceeds tol r t = false) ->
  verify_loop ref test tol i todo = Some (true, None).
Proof.
  induction todo as [|todo IH]; intros i Hr Ht Hall; [reflexivity|].
  cbn [verify_loop].
  destruct (nth_error ref i) as [r|] eqn:Er.
  2:{ apply nth_error_None in Er. lia. }
  destruct (nth_error test i) as [t|] eqn:Et.
  2:{ apply nth_error_None in Et. lia. }
  rewrite (Hall i r t) by (try assumption; lia).
  apply IH; try lia. intros k r' t' Hk. apply Hall. lia.
Qed.



(** The order of [float]s is transitive. *)
Lemma lex_spec (e1 : Z) (m1 : positive) (e2 : Z) (m2 : positive) :
  match lex e1 m1 e2 m2 with
  | Lt => e1 < e2 \/ e1 = e2 /\ (m1 < m2)%positive
  | Eq => e1 = e2 /\ m1 = m2
  | Gt => e2 < e1 \/ e1 = e2 /\ (m2 < m1)%positive
  end.
Proof.
  unfold lex. destruct (Z.compare_spec e1 e2); try (left; assumption).
  change (Pos.compare_cont Eq m1 m2) with (Pos.compare m1 m2).
  destruct (Pos.compare_spec m1 m2); auto.
Qed.

Lemma lex_trans (e1 : Z) (m1 : positive) (e2 : Z) (m2 : positive) (e3 : Z) (m3 : positive) :
  lex e1 m1 e2 m2 <> Gt -> lex e2 m2 e3 m3 = Lt -> lex e1 m1 e3 m3 = Lt.
Proof.
  intros H12 H23.
  pose proof (lex_spec e1 m1 e2 m2) as S12.
  pose proof (lex_spec e2 m2 e3 m3) as S23.
  pose proof (lex_spec e1 m1 e3 m3) as S13.
  rewrite H23 in S23.
  destruct (lex e1 m1 e2 m2); try congruence;
    destruct (lex e1 m1 e3 m3); try reflexivity; exfalso; lia.
Qed.

Lemma lex_trans_gt (e1 : Z) (m1 : positive) (e2 : Z) (m2 : positive) (e3 : Z) (m3 : positive) :
  lex e1 m1 e2 m2 <> Lt -> lex e2 m2 e3 m3 = Gt -> lex e1 m1 e3 m3 = Gt.
Proof.
  intros H12 H23.
  pose proof (lex_spec e1 m1 e2 m2) as S12.
  pose proof (lex_spec e2 m2 e3 m3) as S23.
  pose proof (lex_spec e1 m1 e3 m3) as S13.
  rewrite H23 in S23.
  destruct (lex e1 m1 e2 m2); try congruence;
    destruct (lex e1 m1 e3 m3); try reflexivity; exfalso; lia.
Qed.

Lemma lex_opp (e1 : Z) (m1 : positive) (e2 : Z) (m2 : positive) :
  match e1 ?= e2 with
  | Lt => Gt
  | Gt => Lt
  | Eq => CompOpp (Pos.compare_cont Eq m1 m2)
  end = CompOpp (lex e1 m1 e2 m2).
Proof. unfold lex. destruct (e1 ?= e2); reflexivity. Qed.

Lemma leb_ltb_trans (a b c : f32) :
  F32.leb a b = true -> F32.ltb b c = true -> F32.ltb a c = true.
Proof.
  unfold F32.leb, F32.ltb, SFleb, SFltb.
  destruct a as [sa|sa| |sa ma ea], b as [sb|sb| |sb mb eb], c as [sc|sc| |sc mc ec];
    cbn [SFcompare]; try discriminate; try (intros _ H; exact H);
    try (destruct sa; destruct sb; try destruct sc; cbn; congruence);
    try (destruct sa; destruct sc; try destruct sb; cbn; congruence).
  destruct sa, sb, sc; try discriminate; try reflexivity; try (intros _ H; exact H).
  - rewrite !lex_opp. intros H1 H2.
    assert (G : lex ea ma ec mc = Gt).
    { apply (lex_trans_gt ea ma eb mb ec mc).
      - destruct (lex ea ma eb mb); cbn in H1; congruence.
      - destruct (lex eb mb ec mc); cbn in H2; congruence. }
    rewrite G. reflexivity.
  - fold (lex ea ma eb mb) (lex eb mb ec mc) (lex ea ma ec mc).
    intros H1 H2.
    assert (G : lex ea ma ec mc = Lt).
    { apply (lex_trans ea ma eb mb ec mc).
      - destruct (lex ea ma eb mb); cbn in H1; congruence.
      - destruct (lex eb mb ec mc); cbn in H2; congruence. }
    rewrite G. reflexivity.
Qed.

(** X8.  The verdict is monotone in the tolerance: buffers that pass with
    [tol1] pass with every [tol2 >= tol1]. *)
Theorem verify_results_tolerance_monotone (ref test : list f32) (n : nat) (tol1 tol2 : f32) :
  (n <= List.length ref)%nat -> (n <= List.length test)%nat ->
  F32.leb tol1 tol2 = true ->
  verify_results ref test n tol1 = Some (true, None) ->
  verify_results ref test n tol2 = Some (true, None).
Proof.
  intros Href Htest Hle Hpass.
  destruct (verify_loop_outcome ref test tol1 n 0) as [res [Hres Hout]]; try (simpl; lia).
  unfold verify_results in Hpass. rewrite Hpass in Hres. injection Hres as <-.
  cbn [verify_outcome] in Hout.
  apply verify_loop_all_pass; try (simpl; lia).
  intros k r t Hk Hr Ht.
  destruct (exceeds tol2 r t) eqn:E2; [|reflexivity].
  exfalso. apply (Hout k Hk). exists r, t. split; [exact Hr|]. split; [exact Ht|].
  unfold exceeds, F32.gtb in *. apply (leb_ltb_trans tol1 tol2 _ Hle E2).
Qed.

Lemma verify_results_tolerance_monotone_witness :
  verify_results [F32.of_Z 1; F32.of_Z 2] [F32.of_Z 1; F32.of_Z 3] 2 (F32.of_Z 1)
  = Some (true, None) /\
  verify_results [F32.of_Z 1; F32.of_Z 2] [F32.of_Z 1; F32.of_Z 3] 2 (F32.of_Z 5)
  = Some (true, None).
Proof.
  split; [vm_compute; reflexivity|].
  apply (verify_results_tolerance_monotone
           [F32.of_Z 1; F32.of_Z 2] [F32.of_Z 1; F32.of_Z 3] 2 (F32.of_Z 1) (F32.of_Z 5));
    try (simpl; lia); vm_compute; reflexivity.
Defined.

Lemma exceeds_unbounded (tol r t : f32) :
  F32.is_nan tol = true \/ tol = S754_infinity false -> exceeds tol r t = false.
Proof.
  unfold exceeds, F32.gtb, F32.ltb, SFltb.
  intros [H| ->].
  - destruct tol; try discriminate. reflexivity.
  - destruct (diff_at r t) as [[|]|[|]| |[|] m e]; reflexivity.
Qed.

(** X9.  A tolerance that is a NaN or +infinity switches the check off:
    [diff > tol] is then false at every index, and any two buffers pass. *)
Theorem verify_results_unbounded_tolerance (ref test : list f32) (n : nat) (tol : f32) :
  (n <= List.length ref)%nat -> (n <= List.length test)%nat ->
  F32.is_nan tol = true \/ tol = S754_infinity false ->
  verify_results ref test n tol = Some (true, None).
Proof.
  intros Href Htest Htol. apply verify_loop_all_pass; try (simpl; lia).
  intros k r t _ _ _. apply exceeds_unbounded. exact Htol.
Qed.

Lemma verify_results_unbounded_tolerance_witness :
  verify_results [F32.of_Z 1; S754_infinity true] [F32.of_Z 1000; F32.of_Z 3] 2 S754_nan
  = Some (true, None).
Proof.
  apply (verify_results_unbounded_tolerance
           [F32.of_Z 1; S754_infinity true] [F32.of_Z 1000; F32.of_Z 3] 2 S754_nan);
    [simpl; lia|simpl; lia|left; reflexivity].
Defined.

Lemma nth_error_firstn_eq {A : Type} (n : nat) (l l' : list A) (i : nat) :
  firstn n l = firstn n l' -> (i < n)%nat -> nth_error l i = nth_error l' i.
Proof.
  intros H Hi.
  assert (E : forall x : list A, nth_error (firstn n x) i = nth_error x i).
  { intros x. rewrite nth_error_firstn.
    destruct (Nat.ltb_spec i n); [reflexivity|lia]. }
  rewrite <- (E l), <- (E l'), H. reflexivity.
Qed.

Lemma verify_loop_reads (ref test ref' test' : list f32) (tol : f32) (n todo : nat) :
  firstn n ref = firstn n ref' -> firstn n test = firstn n test' ->
  forall i, (i + todo <= n)%nat ->
  verify_loop ref test tol i todo = verify_loop ref' test' tol i todo.
Proof.
  intros Hr Ht. induction todo as [|todo IH]; intros i Hi; [reflexivity|].
  cbn [verify_loop].
  rewrite (nth_error_firstn_eq n ref ref' i Hr) by lia.
  rewrite (nth_error_firstn_eq n test test' i Ht) by lia.
  destruct (nth_error ref' i), (nth_error test' i); try reflexivity.
  destruct (exceeds tol f f0); [reflexivity|]. apply IH. lia.
Qed.

(** X10.  The result depends on the first [n] elements of the two buffers
    only: buffers that agree on these give the same result, whatever
    follows. *)
Theorem verify_results_reads_first_n (ref test ref' test' : list f32) (n : nat) (tol : f32) :
  firstn n ref = firstn n ref' -> firstn n test = firstn n test' ->
  verify_results ref test n tol = verify_results ref' test' n tol.
Proof.
  intros Hr Ht. apply (verify_loop_reads ref test ref' test' tol n n Hr Ht 0). lia.
Qed.

Lemma verify_results_reads_first_n_witness :
  verify_results [F32.of_Z 1; F32.of_Z 2; F32.of_Z 3] [F32.of_Z 1; F32.of_Z 2; F32.of_Z 9]
                 2 default_tol
  = verify_results [F32.of_Z 1; F32.of_Z 2] [F32.of_Z 1; F32.of_Z 2; S754_nan; F32.of_Z 7]
                   2 default_tol.
Proof.
  apply (verify_results_reads_first_n
           [F32.of_Z 1; F32.of_Z 2; F32.of_Z 3] [F32.of_Z 1; F32.of_Z 2; F32.of_Z 9]
           [F32.of_Z 1; F32.of_Z 2] [F32.of_Z 1; F32.of_Z 2; S754_nan; F32.of_Z 7]
           2 default_tol); reflexivity.
Defined.

Lemma verify_loop_split (ref test : list f32) (tol : f32) (a b : nat) :
  forall i,
  verify_loop ref test tol i (a + b)
  = match verify_loop ref test tol i a with
    | Some (true, _) => verify_loop ref test tol (i + a) b
    | res => res
    end.
Proof.
  induction a as [|a IH]; intros i.
  - cbn [Nat.add verify_loop]. rewrite Nat.add_0_r. reflexivity.
  - cbn [Nat.add verify_loop].
    destruct (nth_error ref i) as [r|]; [|reflexivity].
    destruct (nth_error test i) as [t|]; [|reflexivity].
    destruct (exceeds tol r t); [reflexivity|].
    rewrite IH. replace (S i + a)%nat with (i + S a)%nat by lia. reflexivity.
Qed.

Lemma verify_loop_left (ref1 ref2 test1 test2 : list f32) (tol : f32) (todo : nat) :
  forall i, (i + todo <= List.length ref1)%nat -> (i + todo <= List.length test1)%nat ->
  verify_loop (List.app ref1 ref2) (List.app test1 test2) tol i todo
  = verify_loop ref1 test1 tol i todo.
Proof.
  induction todo as [|todo IH]; intros i Hr Ht; [reflexivity|].
  cbn [verify_loop].
  rewrite (nth_error_app1 ref1 ref2) by lia.
  rewrite (nth_error_app1 test1 test2) by lia.
  destruct (nth_error ref1 i), (nth_error test1 i); try reflexivity.
  destruct (exceeds tol f f0); [reflexivity|]. apply IH; lia.
Qed.

Lemma verify_loop_right (ref1 ref2 test1 test2 : list f32) (tol : f32) (todo : nat) :
  List.length test1 = List.length ref1 ->
  forall i,
  verify_loop (List.app ref1 ref2) (List.app test1 test2) tol (List.length ref1 + i) todo
  = option_map (shift_result (List.length ref1)) (verify_loop ref2 test2 tol i todo).
Proof.
  intros Hl. induction todo as [|todo IH]; intros i; [reflexivity|].
  cbn [verify_loop].
  rewrite (nth_error_app2 ref1 ref2) by lia.
  rewrite (nth_error_app2 test1 test2) by lia.
  rewrite Hl.
  replace (List.length ref1 + i - List.length ref1)%nat with i by lia.
  destruct (nth_error ref2 i), (nth_error test2 i); try reflexivity.
  destruct (exceeds tol f f0); [reflexivity|].
  replace (S (List.length ref1 + i)) with (List.length ref1 + S i)%nat by lia.
  apply IH.
Qed.

(** X11.  Verification in two parts: on buffers made of a first part of
    equal lengths and a second part, [verify_results] over the whole gives
    the result for the first part when that fails, and otherwise the result
    for the second part with the reported index moved behind the first
    part. *)
Theorem verify_results_concat (ref1 ref2 test1 test2 : list f32) (n2 : nat) (tol : f32) :
  List.length test1 = List.length ref1 ->
  verify_results (List.app ref1 ref2) (List.app test1 test2) (List.length ref1 + n2) tol
  = match verify_results ref1 test1 (List.length ref1) tol with
    | Some (true, _) =>
        option_map (shift_result (List.length ref1)) (verify_results ref2 test2 n2 tol)
    | res => res
    end.
Proof.
  intros Hl. unfold verify_results.
  rewrite verify_loop_split.
  rewrite verify_loop_left by (simpl; lia).
  destruct (verify_loop ref1 test1 tol 0 (List.length ref1)) as [[[|] rep]|]; try reflexivity.
  cbn [Nat.add].
  rewrite <- (Nat.add_0_r (List.length ref1)) at 1.
  apply verify_loop_right. exact Hl.
Qed.

Lemma verify_results_concat_witness :
  verify_results [F32.of_Z 1; F32.of_Z 2; F32.of_Z 3; F32.of_Z 4]
                 [F32.of_Z 1; F32.of_Z 2; F32.of_Z 3; F32.of_Z 9] (2 + 2) default_tol
  = Some (false, Some (mkMismatch 3 (F32.of_Z 4) (F32.of_Z 9) (F32.of_Z 5))).
Proof.
  apply (verify_results_concat [F32.of_Z 1; F32.of_Z 2] [F32.of_Z 3; F32.of_Z 4]
           [F32.of_Z 1; F32.of_Z 2] [F32.of_Z 3; F32.of_Z 9] 2 default_tol).
  reflexivity.
Defined.


(** X12.  Two buffers initialised by [init_random] with the same [n] and the
    same seed pass [verify_results] over these [n] elements, for every
    tolerance that is not below zero. *)
Theorem same_seed_buffers_verify (g : Generator) (data1 data2 r1 r2 : list f32) (n : nat)
    (seed : Z) (st1 st2 s1 s2 : rng_state g) (tol : f32) :
  init_random g data1 n seed st1 = Some (r1, s1) ->
  init_random g data2 n seed st2 = Some (r2, s2) ->
  F32.ltb tol (F32.of_Z 0) = false ->
  verify_results r1 r2 n tol = Some (true, None).
Proof.
  intros H1 H2 Htol. unfold init_random in *.
  destruct (init_random_loop_det g n _ _ _ _ _ _ _ H1 H2) as [Hf _].
  destruct (init_random_loop_length g n _ _ _ _ H1) as [L1 N1].
  unfold verify_results.
  rewrite (verify_loop_reads r1 r2 r1 r1 tol n n eq_refl (eq_sym Hf) 0 ltac:(lia)).
  apply verify_loop_all_pass; try (simpl; lia).
  intros k r t _ Hr Ht. assert (t = r) by congruence. subst t.
  rewrite exceeds_self. change (F32.of_Z 0) with (S754_zero false) in Htol.
  rewrite Htol. reflexivity.
Qed.

Lemma same_seed_buffers_verify_witness :
  verify_results
    [S754_finite false 8837709 (-30); S754_finite false 8512077 (-32); F32.of_Z 9]
    [S754_finite false 8837709 (-30); S754_finite false 8512077 (-32); F32.of_Z 3]
    2 default_tol
  = Some (true, None).
Proof.
  apply (same_seed_buffers_verify lcg
           [F32.of_Z 7; F32.of_Z 8; F32.of_Z 9] [F32.of_Z 1; F32.of_Z 2; F32.of_Z 3]
           [S754_finite false 8837709 (-30); S754_finite false 8512077 (-32); F32.of_Z 9]
           [S754_finite false 8837709 (-30); S754_finite false 8512077 (-32); F32.of_Z 3]
           2 default_seed 0 5 1116302264 1116302264 default_tol);
    vm_compute; reflexivity.
Defined.


(** ** The derived numbers, further *)

Lemma scaled_f32 (m e : Z) : scaled F32.prec F32.emax m e = m * 2 ^ (e + 426).
Proof. unfold scaled. f_equal. Qed.

(** The quotient of the FLOP count and the bytes. *)
Lemma intensity_exact (F B s : Z) :
  0 < F -> 0 < B -> 0 < s -> 8 * F = s * B ->
  exact_int F = true -> exact_int B = true -> exact_int s = true ->
  exists m e, F32.of_Z s = S754_finite false m e /\
    bounded F32.prec F32.emax m (e - 3) = true /\
    scaled F32.prec F32.emax (Z.pos m) (e - 3) * 8 = scaled F32.prec F32.emax s 0 /\
    F32.div (F32.of_Z F) (F32.of_Z B) = S754_finite false m (e - 3).
Proof.
  intros HF HB Hs H8 EF EB Es.
  destruct (of_Z_exact_form F HF EF) as [mF [eF [OF [BF [SF _]]]]].
  destruct (of_Z_exact_form B HB EB) as [mB [eB [OB [BB [SB _]]]]].
  destruct (of_Z_exact_form s Hs Es) as [ms [es [Os [Bs [Ss [Ds _]]]]]].
  exists ms, es. split; [exact Os|].
  destruct (bounded_inv F32.prec F32.emax ms es Bs) as [Cs [Us [Ls _]]].
  rewrite !scaled_f32 in *.
  change (SpecFloat.emin F32.prec F32.emax) with (-149) in Ls.
  assert (Hes : 426 < es + 426 + 24).
  { apply pow2_lt_inv; [lia|].
    pose proof (digits_bounds ms) as Dm. rewrite Ds in Dm.
    rewrite Z.pow_add_r by lia. change (0 + 426) with 426 in Ss.
    assert (P : 0 < 2 ^ (es + 426)) by (apply Z.pow_pos_nonneg; lia).
    assert (P2 : 2 ^ 426 <= s * 2 ^ 426) by nia.
    rewrite <- Ss in P2.
    apply Z.le_lt_trans with (1 := P2).
    rewrite (Z.mul_comm (2 ^ (es + 426))). apply Z.mul_lt_mono_pos_r; lia. }
  assert (Bz : bounded F32.prec F32.emax ms (es - 3) = true).
  { unfold bounded, canonical_mantissa. rewrite Ds.
    unfold F32.prec, F32.emax in *.
    apply andb_true_iff. split; [apply Z.eqb_eq|apply Z.leb_le; lia].
    unfold fexp, emin. lia. }
  assert (S8 : Z.pos ms * 2 ^ (es - 3 + 426) * 8 = s * 2 ^ (0 + 426)).
  { rewrite <- Ss.
    replace (es + 426) with ((es - 3 + 426) + 3) by lia.
    rewrite (Z.pow_add_r 2 (es - 3 + 426) 3) by lia. change (2 ^ 3) with 8. ring. }
  split; [exact Bz|]. split; [exact S8|].
  rewrite OF, OB.
  change false with (xorb false false) at 3.
  apply (div_exact F32.prec F32.emax f32_prec f32_emax); try assumption.
  rewrite !scaled_f32, SF, SB.
  change (- t0 F32.prec F32.emax) with 426.
  change (0 + 426) with 426 in *.
  set (P := 2 ^ 426) in *. set (Z8 := Z.pos ms * 2 ^ (es - 3 + 426)) in *.
  apply (Z.mul_reg_l _ _ 8); [lia|].
  replace (8 * (F * P * P)) with ((8 * F) * P * P) by ring.
  replace (8 * (Z8 * (B * P))) with ((Z8 * 8) * (B * P)) by ring.
  rewrite H8, S8. ring.
Qed.

Lemma ten_f32 : F32.of_Z 10 = S754_finite false 10485760 (-20).
Proof. vm_compute. reflexivity. Qed.

(** X13.  When the numbers are exact (positive dimensions, element count
    within [int], the conditions of [stats_exact]) the arithmetic intensity
    [print_stats] computes is [seq_len / 8] exactly: the [float] of
    [seq_len] with its exponent lowered by 3.  So the verdict depends on
    the sequence length alone: memory-bound exactly when [seq_len < 80]. *)
Theorem intensity_is_seq_len_over_8 (time_ms : f32) (cfg : AttentionConfig) :
  0 < batch_size cfg -> 0 < num_heads cfg -> 0 < seq_len cfg -> 0 < head_dim cfg ->
  batch_size cfg * num_heads cfg * seq_len cfg * head_dim cfg <= INT_MAX ->
  stats_exact cfg = true ->
  exists st m e,
    derive_stats time_ms cfg = Some st /\
    F32.of_Z (seq_len cfg) = S754_finite false m e /\
    int_value (F32.of_Z (seq_len cfg)) = Some (seq_len cfg) /\
    arithmetic_intensity st = S754_finite false m (e - 3) /\
    memory_bound (arithmetic_intensity st) = (seq_len cfg <? 80).
Proof.
  intros Hb Hh Hs Hd Hfit Hex. unfold derive_stats.
  rewrite (bytes_moved_exact cfg Hb Hh Hs Hd Hfit). cbn [obind].
  rewrite (flops_of_exact cfg Hb Hh Hs Hd Hex).
  pose proof Hex as Hex'. unfold stats_exact in Hex'. cbv zeta in Hex'.
  repeat (apply andb_true_iff in Hex'; destruct Hex' as [Hex' ?]).
  set (b := batch_size cfg) in *. set (h := num_heads cfg) in *.
  set (s := seq_len cfg) in *. set (d := head_dim cfg) in *.
  assert (P1 : 0 < b * h) by (apply Z.mul_pos_pos; assumption).
  assert (P2 : 0 < b * h * s) by (apply Z.mul_pos_pos; assumption).
  assert (P3 : 0 < b * h * s * d) by (apply Z.mul_pos_pos; assumption).
  assert (Q4 : 0 < 2 * b * h * s * s * d) by (repeat apply Z.mul_pos_pos; lia).
  assert (H8 : 8 * (2 * b * h * s * s * d) = s * (b * h * s * d * 16)) by ring.
  assert (Q5 : 0 < b * h * s * d * 16) by lia.
  destruct (intensity_exact (2 * b * h * s * s * d) (b * h * s * d * 16) s Q4 Q5 Hs H8)
    as [m [e [Os [Bz [S8 Hdiv]]]]]; try assumption.
  eexists. exists m, e. split; [reflexivity|].
  cbn [arithmetic_intensity]. split; [exact Os|].
  split; [apply exact_int_value; assumption|]. split; [exact Hdiv|].
  rewrite Hdiv. unfold memory_bound, F32.ltb. rewrite ten_f32.
  rewrite (ltb_scaled F32.prec F32.emax f32_prec f32_emax) by (try assumption; reflexivity).
  rewrite !scaled_f32 in *. change (-20 + 426) with 406. change (0 + 426) with 426 in S8.
  set (Z8 := Z.pos m * 2 ^ (e - 3 + 426)) in *.
  assert (E10 : 10485760 * 2 ^ 406 = 80 * 2 ^ 423) by reflexivity.
  change (Z.pos 10485760) with 10485760. rewrite E10.
  assert (E426 : 2 ^ 426 = 8 * 2 ^ 423) by reflexivity. rewrite E426 in S8.
  assert (HZ : Z8 = s * 2 ^ 423) by lia. rewrite HZ.
  assert (P : 0 < 2 ^ 423) by reflexivity.
  destruct (Z.ltb_spec s 80); [apply Z.ltb_lt|apply Z.ltb_ge]; nia.
Qed.

Lemma intensity_is_seq_len_over_8_witness :
  stats_exact (AttentionConfig_new 2 12 72 64) = true /\
  exists st m e,
    derive_stats (F32.of_Z 1) (AttentionConfig_new 2 12 72 64) = Some st /\
    F32.of_Z 72 = S754_finite false m e /\
    int_value (F32.of_Z 72) = Some 72 /\
    arithmetic_intensity st = S754_finite false m (e - 3) /\
    memory_bound (arithmetic_intensity st) = (72 <? 80).
Proof.
  split; [vm_compute; reflexivity|].
  apply (intensity_is_seq_len_over_8 (F32.of_Z 1) (AttentionConfig_new 2 12 72 64));
    try (vm_compute; reflexivity). vm_compute. discriminate.
Defined.

Local Open Scope string_scope.

(** X14.  With a time of zero (of either sign) and exact numbers,
    [print_stats] divides by zero: throughput and bandwidth are infinite,
    the lines read [GFLOPS: inf] and [Bandwidth: inf GB/s] (with a minus
    sign for [-0]), and the bandwidth pattern of run_benchmarks.sh finds no
    number in the bandwidth line. *)
Theorem print_stats_zero_time (sgn : bool) (cfg : AttentionConfig) :
  0 < batch_size cfg -> 0 < num_heads cfg -> 0 < seq_len cfg -> 0 < head_dim cfg ->
  batch_size cfg * num_heads cfg * seq_len cfg * head_dim cfg <= INT_MAX ->
  stats_exact cfg = true ->
  exists st,
    derive_stats (S754_zero sgn) cfg = Some st /\
    gflops st = S754_infinity sgn /\
    bandwidth_gb st = S754_infinity sgn /\
    nth_error (metric_lines (S754_zero sgn) st) 1
    = Some ("GFLOPS: " ++ sign_string sgn ++ "inf") /\
    nth_error (metric_lines (S754_zero sgn) st) 2
    = Some ("Bandwidth: " ++ sign_string sgn ++ "inf GB/s") /\
    grep_line "Bandwidth:" 0 ("Bandwidth: " ++ sign_string sgn ++ "inf GB/s") = [].
Proof.
  intros Hb Hh Hs Hd Hfit Hex. unfold derive_stats.
  rewrite (bytes_moved_exact cfg Hb Hh Hs Hd Hfit). cbn [obind].
  rewrite (flops_of_exact cfg Hb Hh Hs Hd Hex).
  pose proof Hex as Hex'. unfold stats_exact in Hex'. cbv zeta in Hex'.
  repeat (apply andb_true_iff in Hex'; destruct Hex' as [Hex' ?]).
  set (b := batch_size cfg) in *. set (h := num_heads cfg) in *.
  set (s := seq_len cfg) in *. set (d := head_dim cfg) in *.
  assert (P1 : 0 < b * h) by (apply Z.mul_pos_pos; assumption).
  assert (P2 : 0 < b * h * s) by (apply Z.mul_pos_pos; assumption).
  assert (P3 : 0 < b * h * s * d) by (apply Z.mul_pos_pos; assumption).
  assert (Q4 : 0 < 2 * b * h * s * s * d) by (repeat apply Z.mul_pos_pos; lia).
  assert (Q5 : 0 < b * h * s * d * 16) by lia.
  destruct (of_Z_exact_form _ Q4 ltac:(assumption)) as [mF [eF [OF _]]].
  destruct (of_Z_exact_form _ Q5 ltac:(assumption)) as [mB [eB [OB _]]].
  eexists. split; [reflexivity|].
  cbn [gflops bandwidth_gb metric_lines nth_error].
  rewrite OF, OB.
  assert (T : F32.mul (S754_zero sgn) (F32.of_Z 1000000) = S754_zero sgn).
  { destruct sgn; vm_compute; reflexivity. }
  rewrite T.
  assert (G : forall m e, F32.div (S754_finite false m e) (S754_zero sgn) = S754_infinity sgn).
  { intros m e. destruct sgn; reflexivity. }
  rewrite !G. cbn [format_f].
  split; [reflexivity|]. split; [reflexivity|]. split; [reflexivity|].
  split; [rewrite append_assoc; reflexivity|].
  destruct sgn; vm_compute; reflexivity.
Qed.

Lemma print_stats_zero_time_witness :
  stats_exact (AttentionConfig_new 1 8 256 64) = true /\
  exists st,
    derive_stats (S754_zero false) (AttentionConfig_new 1 8 256 64) = Some st /\
    gflops st = S754_infinity false /\
    bandwidth_gb st = S754_infinity false /\
    nth_error (metric_lines (S754_zero false) st) 1 = Some "GFLOPS: inf" /\
    nth_error (metric_lines (S754_zero false) st) 2 = Some "Bandwidth: inf GB/s" /\
    grep_line "Bandwidth:" 0 "Bandwidth: inf GB/s" = [].
Proof.
  split; [vm_compute; reflexivity|].
  apply (print_stats_zero_time false (AttentionConfig_new 1 8 256 64));
    try (vm_compute; reflexivity). vm_compute. discriminate.
Defined.

Local Close Scope string_scope.

(** ** The report and the pattern match *)

Local Open Scope string_scope.

Lemma numchar_not_B (c : ascii) : is_numchar c = true -> negb (Ascii.eqb "B" c) = true.
Proof.
  intros H. destruct (Ascii.eqb_spec "B"%char c) as [<-|]; [discriminate|reflexivity].
Qed.

(** A line whose number starts with a sign or a letter holds no match. *)
Lemma bandwidth_no_match (c : ascii) (rest : string) :
  is_numchar c = false -> is_space c = false ->
  string_forall (fun x => negb (Ascii.eqb "B" x)) (String c rest) = true ->
  grep_line "Bandwidth:" 0 ("Bandwidth: " ++ String c rest ++ " GB/s") = [].
Proof.
  intros Hn Hs Hc.
  assert (M : match_here "Bandwidth:" ("Bandwidth: " ++ String c rest ++ " GB/s") = None).
  { unfold match_here.
    change ("Bandwidth: " ++ String c rest ++ " GB/s")
      with ("Bandwidth:" ++ String " " (String c (rest ++ " GB/s"))).
    rewrite strip_prefix_app. cbn [take_while drop_while].
    change (is_space " ") with true. cbv iota. rewrite Hs. cbn [take_while]. rewrite Hn. reflexivity. }
  assert (E : rest ++ " GB/s" = (rest ++ " G") ++ "B/s")
    by (rewrite append_assoc; reflexivity).
  cbn [append] in M |- *. rewrite (grep_line_step_none _ _ _ M), E.
  apply (grep_skip_chars "B" "andwidth:" ("andwidth: " ++ String c (rest ++ " G")) "B/s").
  cbn [string_forall] in Hc. apply andb_true_iff in Hc. destruct Hc as [Hc1 Hc2].
  rewrite string_forall_app. cbn [string_forall].
  rewrite Hc1, string_forall_app, Hc2. reflexivity.
Qed.

(** The bandwidth pattern finds the number of the bandwidth line exactly
    when that is finite and has no sign. *)
Lemma bandwidth_line_match (bw : f32) :
  grep_line "Bandwidth:" 0 ("Bandwidth: " ++ format_f 2 bw ++ " GB/s")
  = if nonneg_finite bw then [format_f 2 bw] else [].
Proof.
  assert (Pos : forall X, X <> "" -> string_forall is_numchar X = true ->
            grep_line "Bandwidth:" 0 ("Bandwidth: " ++ X ++ " GB/s") = [X]).
  { intros X Hne Hch.
    change ("Bandwidth: " ++ X ++ " GB/s") with ("Bandwidth:" ++ " " ++ X ++ String " " "GB/s").
    rewrite grep_found by (try assumption; reflexivity). reflexivity. }
  assert (Neg : forall n, grep_line "Bandwidth:" 0 ("Bandwidth: " ++ ("-" ++ fixed 2 n) ++ " GB/s") = []).
  { intros n. change ("-" ++ fixed 2 n) with (String "-" (fixed 2 n)).
    apply bandwidth_no_match; try reflexivity.
    cbn [string_forall]. change (negb (Ascii.eqb "B" "-")) with true. cbn [andb].
    apply (string_forall_impl is_numchar); [apply numchar_not_B|apply fixed_chars]. }
  destruct bw as [[|]|[|]| |[|] m e]; cbn [nonneg_finite format_f sign_string].
  - apply Neg.
  - apply Pos; [apply fixed_nonempty|apply fixed_chars].
  - vm_compute. reflexivity.
  - vm_compute. reflexivity.
  - vm_compute. reflexivity.
  - apply Neg.
  - apply Pos; [apply fixed_nonempty|apply fixed_chars].
Qed.


Local Close Scope string_scope.

Local Open Scope string_scope.

Lemma lines_from_app (a s : string) :
  string_forall no_nl a = true ->
  forall cur, lines_from cur (a ++ s) = lines_from (fun t => cur (a ++ t)) s.
Proof.
  induction a as [|c a IH]; intros Ha cur; [reflexivity|].
  cbn [string_forall] in Ha. apply andb_true_iff in Ha. destruct Ha as [Hc Ha].
  cbn [append lines_from]. unfold no_nl, newline in Hc.
  destruct (Ascii.eqb c (ascii_of_nat 10)); [discriminate|].
  rewrite (IH Ha). reflexivity.
Qed.

Lemma lines_of_cons (a rest : string) :
  string_forall no_nl a = true ->
  lines_of (a ++ nl ++ rest) = a :: lines_of rest.
Proof.
  intros Ha. unfold lines_of. rewrite (lines_from_app a _ Ha).
  cbn [nl append lines_from]. change (Ascii.eqb (ascii_of_nat 10) (ascii_of_nat 10)) with true.
  cbv iota. rewrite append_nil_r. reflexivity.
Qed.

Lemma fmt_no_nl (c : ascii) : is_fmt_char c = true -> no_nl c = true.
Proof.
  intros H. unfold no_nl. destruct (Ascii.eqb_spec c newline) as [->|]; [discriminate|reflexivity].
Qed.

Lemma format_f_no_nl (p : nat) (x : f32) : string_forall no_nl (format_f p x) = true.
Proof. apply (string_forall_impl is_fmt_char); [apply fmt_no_nl|apply format_f_chars]. Qed.

Lemma plain_name_avoids (name : string) (c : ascii) :
  plain_name name = true -> In c [newline; "L"; "T"; "B"]%char ->
  string_forall (fun x => negb (Ascii.eqb c x)) name = true.
Proof.
  intros Hp Hc. revert Hp. apply string_forall_impl. intros x Hx.
  destruct (Ascii.eqb_spec c x) as [<-|]; [|reflexivity].
  exfalso. cbn [In] in Hc.
  destruct Hc as [<-|[<-|[<-|[<-|[]]]]]; vm_compute in Hx; discriminate.
Qed.

Lemma plain_name_no_nl (name : string) :
  plain_name name = true -> string_forall no_nl name = true.
Proof.
  intros Hp. pose proof (plain_name_avoids name newline Hp ltac:(simpl; auto)) as H.
  revert H. apply string_forall_impl. intros x Hx. unfold no_nl.
  rewrite Ascii.eqb_sym. exact Hx.
Qed.

(** The lines of the report. *)
Lemma report_lines (name l1 l2 l3 l4 l5 : string) :
  plain_name name = true ->
  string_forall no_nl l1 = true -> string_forall no_nl l2 = true ->
  string_forall no_nl l3 = true -> string_forall no_nl l4 = true ->
  string_forall no_nl l5 = true ->
  lines_of (nl ++ "=== " ++ name ++ " ===" ++ nl ++ unlines [l1; l2; l3; l4; l5])
  = [""; "=== " ++ name ++ " ==="; l1; l2; l3; l4; l5; ""].
Proof.
  intros Hn H1 H2 H3 H4 H5.
  change (nl ++ "=== " ++ name ++ " ===" ++ nl ++ unlines [l1; l2; l3; l4; l5])
    with ("" ++ nl ++ ("=== " ++ name ++ " ===" ++ nl ++ unlines [l1; l2; l3; l4; l5])).
  rewrite lines_of_cons by reflexivity.
  replace ("=== " ++ name ++ " ===" ++ nl ++ unlines [l1; l2; l3; l4; l5])
    with (("=== " ++ name ++ " ===") ++ nl ++ unlines [l1; l2; l3; l4; l5])
    by (rewrite !append_assoc; reflexivity).
  rewrite lines_of_cons.
  2:{ rewrite !string_forall_app, (plain_name_no_nl name Hn). reflexivity. }
  cbn [unlines].
  rewrite !lines_of_cons by assumption. reflexivity.
Qed.

Lemma lit_no_nl_app (a b : string) :
  string_forall no_nl a = true -> string_forall no_nl b = true ->
  string_forall no_nl (a ++ b) = true.
Proof. intros Ha Hb. rewrite string_forall_app, Ha, Hb. reflexivity. Qed.

Lemma metric_lines_no_nl (time_ms : f32) (st : Stats) :
  Forall (fun l => string_forall no_nl l = true) (metric_lines time_ms st).
Proof.
  unfold metric_lines.
  repeat constructor;
    repeat (apply lit_no_nl_app; try apply format_f_no_nl; try reflexivity).
  destruct (memory_bound (arithmetic_intensity st)); reflexivity.
Qed.

Lemma fmt_char_not_B (c : ascii) : is_fmt_char c = true -> negb (Ascii.eqb "B" c) = true.
Proof.
  intros H. destruct (Ascii.eqb_spec "B"%char c) as [<-|]; [discriminate|reflexivity].
Qed.

Lemma format_f_avoids (u : ascii) (p : nat) (x : f32) :
  (u = "L" \/ u = "T" \/ u = "B")%char ->
  string_forall (fun c => negb (Ascii.eqb u c)) (format_f p x) = true.
Proof.
  intros Hu. apply (string_forall_impl is_fmt_char); [|apply format_f_chars].
  intros c Hc. destruct Hu as [E|[E|E]]; subst u.
  - apply fmt_char_not_upper; auto.
  - apply fmt_char_not_upper; auto.
  - apply fmt_char_not_B. exact Hc.
Qed.

(** A line in which the first letter of the label does not occur. *)
Lemma grep_line_absent (c1 : ascii) (label' X : string) :
  string_forall (fun c => negb (Ascii.eqb c1 c)) X = true ->
  grep_line (String c1 label') 0 X = [].
Proof.
  intros H. rewrite <- (append_nil_r X). rewrite grep_skip_chars by exact H. reflexivity.
Qed.

Lemma header_no_match (c1 : ascii) (label' name : string) :
  plain_name name = true -> In c1 ["L"; "T"; "B"]%char ->
  grep_line (String c1 label') 0 ("=== " ++ name ++ " ===") = [].
Proof.
  intros Hn Hc. apply grep_line_absent.
  rewrite !string_forall_app.
  rewrite (plain_name_avoids name c1 Hn) by (simpl; tauto).
  cbn [In] in Hc. destruct Hc as [<-|[<-|[<-|[]]]]; reflexivity.
Qed.

(** No line of the report but the third holds a match of the bandwidth
    pattern. *)
Lemma bandwidth_other_lines (time_ms : f32) (st : Stats) :
  grep_line "Bandwidth:" 0 ("Time: " ++ format_f 3 time_ms ++ " ms") = [] /\
  grep_line "Bandwidth:" 0 ("GFLOPS: " ++ format_f 2 (gflops st)) = [] /\
  grep_line "Bandwidth:" 0
    ("Arithmetic Intensity: " ++ format_f 2 (arithmetic_intensity st) ++ " FLOP/Byte") = [] /\
  grep_line "Bandwidth:" 0
    ("Memory-bound: " ++ (if memory_bound (arithmetic_intensity st) then "YES" else "NO")) = [].
Proof.
  split; [|split; [|split]].
  - apply grep_line_absent. rewrite !string_forall_app, format_f_avoids by auto. reflexivity.
  - apply grep_line_absent. rewrite !string_forall_app, format_f_avoids by auto. reflexivity.
  - replace ("Arithmetic Intensity: " ++ format_f 2 (arithmetic_intensity st) ++ " FLOP/Byte")
      with (("Arithmetic Intensity: " ++ format_f 2 (arithmetic_intensity st) ++ " FLOP/")
            ++ "Byte")
      by (rewrite !append_assoc; reflexivity).
    rewrite grep_skip_chars; [reflexivity|].
    rewrite !string_forall_app, format_f_avoids by auto. reflexivity.
  - destruct (memory_bound (arithmetic_intensity st)); reflexivity.
Qed.

(** X15.  From the report [print_stats] writes under a name with no line
    break and none of the letters L, T, B, the pattern match of
    run_benchmarks.sh gets [N/A] for the latency, [N/A] for the throughput,
    and for the bandwidth the number as printed when it is finite and has no
    sign, [N/A] otherwise. *)
Theorem print_stats_parsed (name : string) (time_ms : f32) (cfg : AttentionConfig)
    (st : Stats) :
  plain_name name = true ->
  derive_stats time_ms cfg = Some st ->
  exists out, print_stats name time_ms cfg = Some out /\
    parse_latency out = "N/A" /\
    parse_throughput out = "N/A" /\
    parse_bandwidth out
    = (if nonneg_finite (bandwidth_gb st) then format_f 2 (bandwidth_gb st) else "N/A").
Proof.
  intros Hn Hst. unfold print_stats. rewrite Hst. cbn [obind].
  eexists. split; [reflexivity|].
  pose proof (metric_lines_no_nl time_ms st) as Hnl.
  unfold parse_latency, parse_throughput, parse_bandwidth, parse_metric, grep_o.
  unfold metric_lines in *.
  repeat match goal with
         | H : Forall _ (_ :: _) |- _ => inversion H; clear H; subst
         end.
  rewrite report_lines by assumption.
  cbn [flat_map List.app].
  rewrite !header_no_match by (try assumption; simpl; tauto).
  destruct (bandwidth_other_lines time_ms st) as [B1 [B2 [B4 B5]]].
  rewrite B1, B2, B4, B5, bandwidth_line_match.
  rewrite !no_match_in_line by auto.
  rewrite <- (append_nil_r (format_f 2 (gflops st))).
  rewrite !no_match_in_line by auto.
  rewrite ?(append_nil_r (format_f 2 (gflops st))).
  assert (M : forall label, (label = "Latency:" \/ label = "Throughput:") ->
     grep_line label 0
       ("Memory-bound: " ++ (if memory_bound (arithmetic_intensity st) then "YES" else "NO"))
     = []).
  { intros label [E|E]; subst label; destruct (memory_bound (arithmetic_intensity st)); reflexivity. }
  rewrite !M by auto.
  change (grep_line "Latency:" 0 "") with (@nil string).
  change (grep_line "Throughput:" 0 "") with (@nil string).
  change (grep_line "Bandwidth:" 0 "") with (@nil string).
  cbn [List.app].
  split; [reflexivity|]. split; [reflexivity|].
  destruct (nonneg_finite (bandwidth_gb st)); reflexivity.
Qed.

Lemma print_stats_parsed_witness :
  exists out,
    print_stats "naive attention" (F32.of_Z 1) (AttentionConfig_new 1 8 256 64) = Some out /\
    parse_latency out = "N/A" /\
    parse_throughput out = "N/A" /\
    parse_bandwidth out = "2.10".
Proof.
  apply (print_stats_parsed "naive attention" (F32.of_Z 1) (AttentionConfig_new 1 8 256 64)
           (mkStats (F32.of_Z 67108864) (F32.of_Z 2097152)
              (S754_finite false 8796093 (-17)) (S754_finite false 8796093 (-22))
              (F32.of_Z 32)));
    vm_compute; reflexivity.
Defined.

Local Close Scope string_scope.

(** ** run_benchmarks.sh *)

Lemma wrap64_small (z : Z) : - 2 ^ 63 <= z < 2 ^ 63 -> wrap64 z = z.
Proof. intros H. unfold wrap64. rewrite Z.mod_small by lia. lia. Qed.

Lemma mem_estimate_small (batch heads seqlen : Z) :
  0 < batch -> 0 < heads -> 0 < seqlen ->
  batch * heads * seqlen * seqlen * 4 < 2 ^ 63 ->
  mem_estimate batch heads seqlen = batch * heads * seqlen * seqlen * 4 / 2 ^ 20.
Proof.
  intros Hb Hh Hs Hfit. unfold mem_estimate, sh_mul, sh_div.
  assert (P1 : 0 < batch * heads) by (apply Z.mul_pos_pos; assumption).
  assert (P2 : 0 < batch * heads * seqlen) by (apply Z.mul_pos_pos; assumption).
  assert (P3 : 0 < batch * heads * seqlen * seqlen) by (apply Z.mul_pos_pos; assumption).
  assert (L2 : batch * heads * seqlen * 1 <= batch * heads * seqlen * seqlen)
    by (apply Z.mul_le_mono_nonneg_l; lia).
  assert (L1 : batch * heads * 1 <= batch * heads * seqlen)
    by (apply Z.mul_le_mono_nonneg_l; lia).
  rewrite (wrap64_small (batch * heads)) by lia.
  rewrite (wrap64_small (batch * heads * seqlen)) by lia.
  rewrite (wrap64_small (batch * heads * seqlen * seqlen)) by lia.
  rewrite (wrap64_small (batch * heads * seqlen * seqlen * 4)) by lia.
  set (n := batch * heads * seqlen * seqlen * 4) in *.
  assert (Hn : 0 <= n) by lia.
  rewrite (Z.quot_div_nonneg n 1024) by lia.
  assert (Q1 : 0 <= n / 1024 <= n).
  { split; [apply Z.div_pos; lia|]. apply Z.div_le_upper_bound; lia. }
  rewrite (wrap64_small (n / 1024)) by lia.
  rewrite (Z.quot_div_nonneg (n / 1024) 1024) by lia.
  assert (Q2 : 0 <= n / 1024 / 1024 <= n / 1024).
  { split; [apply Z.div_pos; lia|]. apply Z.div_le_upper_bound; lia. }
  rewrite (wrap64_small (n / 1024 / 1024)) by lia.
  rewrite Z.div_div by lia. reflexivity.
Qed.

(** X16.  For positive values below the 64-bit range the estimate of the
    script is [batch * heads * seqlen^2 * 4] bytes in whole MiB, and a
    configuration is skipped exactly when these bytes reach 8193 MiB. *)
Theorem skipped_iff_above_8192_MiB (batch heads seqlen : Z) :
  0 < batch -> 0 < heads -> 0 < seqlen ->
  batch * heads * seqlen * seqlen * 4 < 2 ^ 63 ->
  mem_estimate batch heads seqlen = batch * heads * seqlen * seqlen * 4 / 1048576 /\
  (skipped batch heads seqlen = true <->
   8193 * 1048576 <= batch * heads * seqlen * seqlen * 4).
Proof.
  intros Hb Hh Hs Hfit.
  pose proof (mem_estimate_small batch heads seqlen Hb Hh Hs Hfit) as E.
  change (2 ^ 20) with 1048576 in E. split; [exact E|].
  unfold skipped. rewrite E, Z.ltb_lt.
  set (n := batch * heads * seqlen * seqlen * 4).
  split; intros H.
  - assert (8193 <= n / 1048576) by lia.
    pose proof (Z.mul_div_le n 1048576 ltac:(lia)). lia.
  - assert (8193 <= n / 1048576); [|lia].
    apply Z.div_le_lower_bound; lia.
Qed.

Lemma skipped_iff_above_8192_MiB_witness :
  mem_estimate 8 16 4096 = 8 * 16 * 4096 * 4096 * 4 / 1048576 /\
  (skipped 8 16 4096 = true <-> 8193 * 1048576 <= 8 * 16 * 4096 * 4096 * 4).
Proof.
  apply (skipped_iff_above_8192_MiB 8 16 4096); lia.
Defined.

(** X17.  The guard never fires on the matrix of the script: no
    configuration with [batch <= 8], [heads <= 16] and
    [seqlen <= MAX_SEQ_LEN] is skipped (the largest estimate is 8192, which
    is not above 8192), so the four loops reach all 144 configurations, in
    the order of [benchmark_matrix], and [run_benchmark] is called 432
    times. *)
Theorem matrix_runs_complete :
  matrix_runs
  = map (fun cfg => (batch_size cfg, num_heads cfg, seq_len cfg, head_dim cfg))
        benchmark_matrix /\
  List.length matrix_runs = 144%nat /\
  List.length matrix_steps = 432%nat /\
  forallb (fun '(batch, heads, seqlen, _) => mem_estimate batch heads seqlen <=? 8192)
          matrix_runs = true /\
  (forall batch heads seqlen,
     0 < batch <= 8 -> 0 < heads <= 16 -> 0 < seqlen <= MAX_SEQ_LEN ->
     skipped batch heads seqlen = false) /\
  mem_estimate 8 16 4096 = 8192.
Proof.
  split; [vm_compute; reflexivity|]. split; [vm_compute; reflexivity|].
  split; [vm_compute; reflexivity|]. split; [vm_compute; reflexivity|].
  split; [|vm_compute; reflexivity].
  intros batch heads seqlen Hb Hh Hs. unfold MAX_SEQ_LEN in Hs.
  assert (B1 : batch * heads <= 8 * 16) by (apply Z.mul_le_mono_nonneg; lia).
  assert (B2 : batch * heads * seqlen <= 8 * 16 * 4096) by (apply Z.mul_le_mono_nonneg; lia).
  assert (B3 : batch * heads * seqlen * seqlen <= 8 * 16 * 4096 * 4096)
    by (apply Z.mul_le_mono_nonneg; lia).
  destruct (skipped batch heads seqlen) eqn:E; [|reflexivity].
  exfalso.
  assert (Hfit : batch * heads * seqlen * seqlen * 4 < 2 ^ 63).
  { change (2 ^ 63) with 9223372036854775808. lia. }
  pose proof (proj1 (proj2 (skipped_iff_above_8192_MiB batch heads seqlen
                ltac:(lia) ltac:(lia) ltac:(lia) Hfit)) E) as H.
  lia.
Qed.

Local Open Scope string_scope.

Lemma count_char_app (c : ascii) (a b : string) :
  count_char c (a ++ b) = (count_char c a + count_char c b)%nat.
Proof. induction a as [|x a IH]; cbn [append count_char]; [reflexivity|]. rewrite IH. lia. Qed.

Lemma count_char_none (f : ascii -> bool) (c : ascii) (s : string) :
  f c = false -> string_forall f s = true -> count_char c s = 0%nat.
Proof.
  intros Hc. induction s as [|x s IH]; cbn [string_forall count_char]; [reflexivity|].
  intros H. apply andb_true_iff in H. destruct H as [Hx Hs].
  destruct (Ascii.eqb_spec c x) as [->|_]; [congruence|]. rewrite (IH Hs). reflexivity.
Qed.

Lemma take_while_forall (f : ascii -> bool) (s : string) :
  string_forall f (take_while f s) = true.
Proof.
  induction s as [|x s IH]; cbn [take_while]; [reflexivity|].
  destruct (f x) eqn:E; [|reflexivity]. cbn [string_forall]. rewrite E, IH. reflexivity.
Qed.

(** What [grep -o] prints for a line: texts of digits and points. *)
Lemma grep_line_numbers (label : string) (s : string) :
  forall skip, Forall (fun m => string_forall is_numchar m = true) (grep_line label skip s).
Proof.
  induction s as [|x s IH]; intros skip.
  - destruct skip; cbn [grep_line]; [|constructor].
    destruct (match_here label "") as [[num len]|] eqn:E; [|constructor].
    exfalso. unfold match_here in E.
    destruct (strip_prefix label "") as [rest|] eqn:Es; [|discriminate].
    destruct label; cbn in Es; [|discriminate]. injection Es as <-. discriminate.
  - destruct skip as [|skip]; cbn [grep_line]; [|apply IH].
    destruct (match_here label (String x s)) as [[num len]|] eqn:E; [|apply IH].
    constructor; [|apply IH].
    unfold match_here in E.
    destruct (strip_prefix label (String x s)) as [rest|]; [|discriminate].
    destruct (take_while is_space rest); [discriminate|].
    destruct (take_while is_numchar (drop_while is_space rest)) eqn:En; [discriminate|].
    injection E as <- _. rewrite <- En. apply take_while_forall.
Qed.

Lemma grep_o_numbers (label output : string) :
  Forall (fun m => string_forall is_numchar m = true) (grep_o label output).
Proof.
  unfold grep_o. induction (lines_of output) as [|l ls IH]; cbn [flat_map]; [constructor|].
  apply Forall_app. split; [apply grep_line_numbers|exact IH].
Qed.

Lemma join_lines_count (c : ascii) (ms : list string) :
  Forall (fun m => count_char c m = 0%nat) ms ->
  count_char c (join_lines ms)
  = (if Ascii.eqb c newline then Nat.pred (List.length ms) else 0)%nat.
Proof.
  induction ms as [|m ms IH]; intros H.
  - destruct (Ascii.eqb c newline); reflexivity.
  - inversion H as [|? ? Hm Hms]; subst. specialize (IH Hms).
    destruct ms as [|m' ms'].
    + cbn [join_lines List.length Nat.pred]. rewrite Hm. destruct (Ascii.eqb c newline); reflexivity.
    + change (join_lines (m :: m' :: ms')) with (m ++ nl ++ join_lines (m' :: ms')).
      rewrite !count_char_app, Hm, IH.
      change (count_char c nl) with ((if Ascii.eqb c newline then 1 else 0) + 0)%nat.
      destruct (Ascii.eqb c newline); cbn [List.length Nat.pred]; lia.
Qed.

(** The value of a shell variable set by the pattern match holds no comma,
    and one line break less than there are matches. *)
Lemma parse_metric_count (label output : string) :
  count_char comma (parse_metric label output) = 0%nat /\
  count_char newline (parse_metric label output)
  = Nat.pred (List.length (grep_o label output)).
Proof.
  unfold parse_metric.
  pose proof (grep_o_numbers label output) as Hnum.
  destruct (grep_o label output) as [|m ms] eqn:E; [split; reflexivity|].
  split.
  - rewrite join_lines_count; [reflexivity|].
    eapply Forall_impl; [|exact Hnum]. intros a Ha.
    apply (count_char_none is_numchar); [reflexivity|exact Ha].
  - rewrite join_lines_count; [reflexivity|].
    eapply Forall_impl; [|exact Hnum]. intros a Ha.
    apply (count_char_none is_numchar); [reflexivity|exact Ha].
Qed.

Lemma lines_from_break (a b : string) :
  forall cur, lines_from cur (a ++ nl ++ b) = List.app (lines_from cur a) (lines_of b).
Proof.
  induction a as [|c a IH]; intros cur.
  - cbn [append nl lines_from].
    change (Ascii.eqb (ascii_of_nat 10) (ascii_of_nat 10)) with true. reflexivity.
  - cbn [append lines_from].
    destruct (Ascii.eqb c (ascii_of_nat 10)).
    + cbn [List.app]. f_equal. apply IH.
    + apply IH.
Qed.

Lemma join_lines_app (xs ys : list string) :
  xs <> [] -> ys <> [] ->
  join_lines (List.app xs ys) = join_lines xs ++ nl ++ join_lines ys.
Proof.
  intros Hx Hy. destruct ys as [|y ys]; [congruence|]. clear Hy.
  induction xs as [|x xs IH]; [congruence|]. clear Hx.
  destruct xs as [|x' xs].
  - reflexivity.
  - change (join_lines (List.app (x :: x' :: xs) (y :: ys)))
      with (x ++ nl ++ join_lines (List.app (x' :: xs) (y :: ys))).
    change (join_lines (x :: x' :: xs)) with (x ++ nl ++ join_lines (x' :: xs)).
    rewrite IH by discriminate. rewrite !append_assoc. reflexivity.
Qed.

(** X18.  The pattern match works line by line: the matches in an output made
    of two parts with a line break between them are the matches in the first
    part followed by those in the second, and when both parts hold a match
    the shell variable is the two values with a line break between them. *)
Theorem grep_o_two_parts (label a b : string) :
  grep_o label (a ++ nl ++ b) = List.app (grep_o label a) (grep_o label b) /\
  (grep_o label a <> [] -> grep_o label b <> [] ->
   parse_metric label (a ++ nl ++ b) = parse_metric label a ++ nl ++ parse_metric label b).
Proof.
  assert (E : grep_o label (a ++ nl ++ b) = List.app (grep_o label a) (grep_o label b)).
  { unfold grep_o, lines_of. rewrite lines_from_break, flat_map_app. reflexivity. }
  split; [exact E|].
  intros Ha Hb. unfold parse_metric. rewrite E.
  destruct (grep_o label a) as [|x xs]; [congruence|].
  destruct (grep_o label b) as [|y ys]; [congruence|].
  apply (join_lines_app (x :: xs) (y :: ys)); discriminate.
Qed.

(** X19.  Whatever a binary prints, the row [run_benchmark] writes has
    seven commas besides those of the five words it is called with, hence
    eight fields when these hold none; and besides the line breaks of the
    words it holds one for every match a pattern finds beyond its first, so
    the row is one line only when each of the three patterns matches at
    most once. *)
Theorem csv_row_fields (impl batch heads seqlen headdim output : string) :
  count_char comma (csv_row impl batch heads seqlen headdim output)
  = (count_char comma impl + count_char comma batch + count_char comma heads
     + count_char comma seqlen + count_char comma headdim + 7)%nat /\
  count_char newline (csv_row impl batch heads seqlen headdim output)
  = (count_char newline impl + count_char newline batch + count_char newline heads
     + count_char newline seqlen + count_char newline headdim
     + Nat.pred (List.length (grep_o "Latency:" output))
     + Nat.pred (List.length (grep_o "Throughput:" output))
     + Nat.pred (List.length (grep_o "Bandwidth:" output)))%nat.
Proof.
  unfold csv_row, parse_latency, parse_throughput, parse_bandwidth.
  destruct (parse_metric_count "Latency:" output) as [L1 L2].
  destruct (parse_metric_count "Throughput:" output) as [T1 T2].
  destruct (parse_metric_count "Bandwidth:" output) as [B1 B2].
  split.
  - rewrite !count_char_app, L1, T1, B1.
    change (count_char comma ",") with 1%nat. lia.
  - rewrite !count_char_app, L2, T2, B2.
    change (count_char newline ",") with 0%nat. lia.
Qed.

Local Close Scope string_scope.

Lemma run_steps_spec (run : Runner) (steps : list (string * (Z * Z * Z * Z))) :
  forall file, exists k,
    (k <= List.length steps)%nat /\
    fst (run_steps run steps file) = List.app file (map (row_of run) (firstn k steps)) /\
    (forall step, In step (firstn k steps) -> step_status run step = 0) /\
    (snd (run_steps run steps file) = true -> k = List.length steps) /\
    (snd (run_steps run steps file) = false ->
     exists step, nth_error steps k = Some step /\ step_status run step <> 0).
Proof.
  induction steps as [|[impl [[[batch heads] seqlen] headdim]] rest IH]; intros file.
  - exists 0%nat. cbn. rewrite app_nil_r. repeat split; try lia; try contradiction; try discriminate.
  - cbn [run_steps]. unfold run_benchmark.
    destruct (run impl (bench_args (decimal batch) (decimal heads) (decimal seqlen)
                          (decimal headdim))) as [status output] eqn:E.
    destruct (Z.eqb_spec status 0) as [->|Hne].
    + destruct (IH (List.app file [csv_row impl (decimal batch) (decimal heads)
                                    (decimal seqlen) (decimal headdim) output]))
        as [k [Hk [Hf [Hall [Ht Hfalse]]]]].
      exists (S k). split; [simpl; lia|]. split.
      { rewrite Hf, <- app_assoc. cbn [firstn map List.app row_of]. rewrite E. reflexivity. }
      split.
      { intros step [<-|Hin]; [cbn [step_status]; rewrite E; reflexivity|apply Hall, Hin]. }
      split; [intros H; simpl; rewrite (Ht H); reflexivity|].
      intros H. exact (Hfalse H).
    + exists 0%nat. cbn [firstn map fst snd nth_error List.length]. rewrite app_nil_r.
      split; [lia|]. split; [reflexivity|]. split; [intros step []|].
      split; [discriminate|]. intros _.
      eexists. split; [reflexivity|]. cbn [step_status]. rewrite E. exact Hne.
Qed.

Lemma decimal_count (c : ascii) (n : Z) :
  is_numchar c = false -> count_char c (decimal n) = 0%nat.
Proof. intros Hc. apply (count_char_none is_numchar); [exact Hc|apply decimal_chars]. Qed.

Lemma row_of_newlines (run : Runner) (step : string * (Z * Z * Z * Z)) :
  count_char newline (row_of run step)
  = (count_char newline (fst step) + extra_matches run step)%nat.
Proof.
  destruct step as [impl [[[batch heads] seqlen] headdim]].
  unfold row_of, extra_matches, csv_row, parse_latency, parse_throughput, parse_bandwidth.
  cbn [fst].
  set (output := snd (run impl _)).
  destruct (parse_metric_count "Latency:" output) as [_ L2].
  destruct (parse_metric_count "Throughput:" output) as [_ T2].
  destruct (parse_metric_count "Bandwidth:" output) as [_ B2].
  rewrite !count_char_app, L2, T2, B2.
  rewrite !(decimal_count newline) by reflexivity.
  change (count_char newline ","%string) with 0%nat. lia.
Qed.

Lemma matrix_steps_names :
  forall step, In step matrix_steps -> count_char newline (fst step) = 0%nat.
Proof.
  assert (H : forallb (fun step => (count_char newline (fst step) =? 0)%nat) matrix_steps = true)
    by (vm_compute; reflexivity).
  intros step Hin. rewrite forallb_forall in H. apply Nat.eqb_eq. apply H. exact Hin.
Qed.

Lemma In_firstn {A : Type} (k : nat) (l : list A) (x : A) : In x (firstn k l) -> In x l.
Proof.
  intros H. rewrite <- (firstn_skipn k l). apply in_or_app. left. exact H.
Qed.

Lemma file_lines_rows (run : Runner) (steps : list (string * (Z * Z * Z * Z))) :
  (forall step, In step steps -> count_char newline (fst step) = 0%nat) ->
  file_lines (map (row_of run) steps)
  = (List.length steps + list_sum (map (extra_matches run) steps))%nat.
Proof.
  unfold file_lines. induction steps as [|step rest IH]; intros H; [reflexivity|].
  cbn [map List.length].
  change (list_sum (?a :: ?l)) with (a + list_sum l)%nat.
  rewrite row_of_newlines, (H step) by (left; reflexivity).
  rewrite IH by (intros x Hx; apply H; right; exact Hx). lia.
Qed.

(** X20.  The results file is the header followed by the rows of the first
    [k] calls of [run_benchmark], all of which succeeded, one row for each
    call.  A row is one line only if each of the three patterns matched at
    most once in the output of its call: the file has [1 + k] lines plus
    the matches beyond the first of each pattern, [extra_matches].  The
    script runs to its end only if [make], the quick validation and all 432
    calls succeed, and the file then has 433 rows, and 433 lines plus the
    further matches; otherwise [make] failed, or a binary of the quick
    validation failed, or call number [k] is the first whose binary failed,
    and no later row is written. *)
Theorem run_benchmarks_file (make_status : Z) (run : Runner) :
  exists k,
    (k <= 432)%nat /\
    fst (run_benchmarks make_status run)
    = csv_header :: map (row_of run) (firstn k matrix_steps) /\
    (forall step, In step (firstn k matrix_steps) -> step_status run step = 0) /\
    file_lines (fst (run_benchmarks make_status run))
    = (1 + k + list_sum (map (extra_matches run) (firstn k matrix_steps)))%nat /\
    (snd (run_benchmarks make_status run) = true ->
     make_status = 0 /\ quick_validation run = true /\ k = 432%nat /\
     List.length (fst (run_benchmarks make_status run)) = 433%nat /\
     file_lines (fst (run_benchmarks make_status run))
     = (433 + list_sum (map (extra_matches run) matrix_steps))%nat) /\
    (snd (run_benchmarks make_status run) = false ->
     make_status <> 0 \/ quick_validation run = false \/
     exists step, nth_error matrix_steps k = Some step /\ step_status run step <> 0).
Proof.
  assert (L : List.length matrix_steps = 432%nat) by (vm_compute; reflexivity).
  assert (Hd : file_lines [csv_header] = 1%nat) by (vm_compute; reflexivity).
  unfold run_benchmarks.
  destruct (Z.eqb_spec make_status 0) as [Hmk|Hmk]; cbn [negb].
  2:{ exists 0%nat. cbn [firstn map fst snd list_sum]. split; [lia|]. split; [reflexivity|].
      split; [intros step []|]. split; [exact Hd|].
      split; [discriminate|]. intros _. left. exact Hmk. }
  destruct (quick_validation run) eqn:Hq; cbn [negb].
  2:{ exists 0%nat. cbn [firstn map fst snd list_sum]. split; [lia|]. split; [reflexivity|].
      split; [intros step []|]. split; [exact Hd|].
      split; [discriminate|]. intros _. right. left. reflexivity. }
  destruct (run_steps_spec run matrix_steps [csv_header]) as [k [Hk [Hf [Hall [Ht Hfalse]]]]].
  exists k. rewrite L in Hk. split; [exact Hk|]. split; [exact Hf|]. split; [exact Hall|].
  assert (Hlines : file_lines (fst (run_steps run matrix_steps [csv_header]))
                   = (1 + k + list_sum (map (extra_matches run) (firstn k matrix_steps)))%nat).
  { rewrite Hf. cbn [List.app].
    change (file_lines (csv_header :: ?l))
      with (S (count_char newline csv_header) + file_lines l)%nat.
    rewrite file_lines_rows.
    - rewrite length_firstn, L.
      change (count_char newline csv_header) with 0%nat. lia.
    - intros step Hin. apply matrix_steps_names. apply (In_firstn k). exact Hin. }
  split; [exact Hlines|]. split.
  - intros H. specialize (Ht H). rewrite L in Ht.
    split; [assumption|]. split; [reflexivity|]. split; [exact Ht|]. split.
    + rewrite Hf. cbn [List.app List.length]. rewrite length_map, length_firstn, L, Ht.
      reflexivity.
    + rewrite Hlines. subst k. rewrite <- L, firstn_all. rewrite L. reflexivity.
  - intros H. right. right. exact (Hfalse H).
Qed.

(** X21.  Whenever [attention_matrix_size] has a result for a descriptor
    with positive dimensions, the estimate of the script is this size in
    whole MiB and the script does not skip the configuration: the guard lies
    above everything the [int] product can hold. *)
Theorem mem_estimate_is_matrix_size (cfg : AttentionConfig) (n : Z) :
  0 < batch_size cfg -> 0 < num_heads cfg -> 0 < seq_len cfg -> 0 < head_dim cfg ->
  attention_matrix_size cfg = Some n ->
  mem_estimate (batch_size cfg) (num_heads cfg) (seq_len cfg) = n / 1048576 /\
  skipped (batch_size cfg) (num_heads cfg) (seq_len cfg) = false.
Proof.
  intros Hb Hh Hs Hd Hn.
  unfold attention_matrix_size in Hn.
  rewrite (int_product4 _ _ _ _ Hb Hh Hs Hs) in Hn.
  destruct (Z.leb_spec (batch_size cfg * num_heads cfg * seq_len cfg * seq_len cfg) INT_MAX)
    as [Hfit|]; [|discriminate].
  assert (E : n = batch_size cfg * num_heads cfg * seq_len cfg * seq_len cfg * 4)
    by congruence.
  unfold INT_MAX in Hfit. change (2 ^ 31) with 2147483648 in Hfit.
  assert (F : batch_size cfg * num_heads cfg * seq_len cfg * seq_len cfg * 4 < 2 ^ 63).
  { change (2 ^ 63) with 9223372036854775808. lia. }
  pose proof (mem_estimate_small _ _ _ Hb Hh Hs F) as M.
  change (2 ^ 20) with 1048576 in M. rewrite <- E in M.
  split; [exact M|]. unfold skipped. rewrite M. apply Z.ltb_ge.
  assert (n / 1048576 < 8193); [|lia].
  apply Z.div_lt_upper_bound; lia.
Qed.

Lemma mem_estimate_is_matrix_size_witness :
  attention_matrix_size (AttentionConfig_new 4 16 4096 64) = Some 4294967296 /\
  mem_estimate 4 16 4096 = 4294967296 / 1048576 /\
  skipped 4 16 4096 = false.
Proof.
  split; [vm_compute; reflexivity|].
  apply (mem_estimate_is_matrix_size (AttentionConfig_new 4 16 4096 64) 4294967296);
    vm_compute; reflexivity.
Defined.

(** ** Error checking and the GPU timer *)

Lemma HIP_CHECK_exit {A : Type} (rt : HipRuntime) (file : string) (line : Z)
    (lines : list Z) (err : hipError_t) (st : hip_state rt)
    (k : hip_state rt -> Outcome (hip_state rt) A) :
  In line lines -> hip_exit file lines (k st) ->
  hip_exit file lines (HIP_CHECK rt file line err st k).
Proof.
  intros Hin Hk. unfold HIP_CHECK.
  destruct (Z.eqb_spec err hipSuccess) as [_|Hne]; [exact Hk|].
  split; [reflexivity|]. exists line, err. auto.
Qed.

(** X22.  The constructor, [record_start], [record_stop] and [elapsed_ms]
    of [GPUTimer] end the process only through [HIP_CHECK]: with status
    [EXIT_FAILURE] and one line on [stderr] that names one of their own
    lines and an error code other than [hipSuccess].  [elapsed_ms] returns
    exactly when the synchronisation on [stop] and the query of the elapsed
    time both succeed, and then returns what the runtime stored; the
    constructor returns exactly when both events are created.  The
    destructor destroys [start], then [stop], and drops both error codes. *)
Theorem GPUTimer_outcomes (rt : HipRuntime) (file : string) (t : GPUTimer rt)
    (stream : Z) (st : hip_state rt) :
  hip_exit file [32; 33] (GPUTimer_new rt file st) /\
  hip_exit file [42] (record_start file t stream st) /\
  hip_exit file [46] (record_stop file t stream st) /\
  hip_exit file [50; 52] (elapsed_ms file t st) /\
  (forall ms st',
     elapsed_ms file t st = Returns ms st' <->
     exists st1, hipEventSynchronize rt (stop t) st = (hipSuccess, st1) /\
                 hipEventElapsedTime rt (start t) (stop t) st1 = (hipSuccess, ms, st')) /\
  (forall t' st',
     GPUTimer_new rt file st = Returns t' st' <->
     exists st1, hipEventCreate rt st = (hipSuccess, start t', st1) /\
                 hipEventCreate rt st1 = (hipSuccess, stop t', st')) /\
  GPUTimer_delete t st
  = snd (hipEventDestroy rt (stop t) (snd (hipEventDestroy rt (start t) st))).
Proof.
  split; [|split; [|split; [|split; [|split; [|split]]]]].
  - unfold GPUTimer_new. destruct (hipEventCreate rt st) as [[err1 ev1] st1].
    apply HIP_CHECK_exit; [simpl; auto|].
    destruct (hipEventCreate rt st1) as [[err2 ev2] st2].
    apply HIP_CHECK_exit; [simpl; auto|exact I].
  - unfold record_start. destruct (hipEventRecord rt (start t) stream st) as [err st1].
    apply HIP_CHECK_exit; [simpl; auto|exact I].
  - unfold record_stop. destruct (hipEventRecord rt (stop t) stream st) as [err st1].
    apply HIP_CHECK_exit; [simpl; auto|exact I].
  - unfold elapsed_ms. destruct (hipEventSynchronize rt (stop t) st) as [err1 st1].
    apply HIP_CHECK_exit; [simpl; auto|].
    destruct (hipEventElapsedTime rt (start t) (stop t) st1) as [[err2 ms] st2].
    apply HIP_CHECK_exit; [simpl; auto|exact I].
  - intros ms st'. unfold elapsed_ms, HIP_CHECK.
    destruct (hipEventSynchronize rt (stop t) st) as [err1 st1].
    destruct (Z.eqb_spec err1 hipSuccess) as [->|Hne1].
    + destruct (hipEventElapsedTime rt (start t) (stop t) st1) as [[err2 ms2] st2] eqn:E2.
      destruct (Z.eqb_spec err2 hipSuccess) as [->|Hne2].
      * split.
        -- intros H. injection H as <- <-. exists st1. split; [reflexivity|exact E2].
        -- intros [s1 [H1 H2]]. injection H1 as <-. rewrite E2 in H2.
           injection H2 as <- <-. reflexivity.
      * split; [discriminate|].
        intros [s1 [H1 H2]]. injection H1 as <-. rewrite E2 in H2. congruence.
    + split; [discriminate|]. intros [s1 [H1 _]]. congruence.
  - intros t' st'. unfold GPUTimer_new, HIP_CHECK.
    destruct (hipEventCreate rt st) as [[err1 ev1] st1].
    destruct (Z.eqb_spec err1 hipSuccess) as [->|Hne1].
    + destruct (hipEventCreate rt st1) as [[err2 ev2] st2] eqn:E2.
      destruct (Z.eqb_spec err2 hipSuccess) as [->|Hne2].
      * split.
        -- intros H. injection H as <- <-. exists st1. split; [reflexivity|exact E2].
        -- intros [s1 [H1 H2]]. destruct t' as [a b]. cbn [start stop] in *.
           injection H1 as <- <-. rewrite E2 in H2. injection H2 as <- <-. reflexivity.
      * split; [discriminate|].
        intros [s1 [H1 H2]]. injection H1 as _ <-. rewrite E2 in H2. congruence.
    + split; [discriminate|]. intros [s1 [H1 _]]. congruence.
  - unfold GPUTimer_delete.
    destruct (hipEventDestroy rt (start t) st) as [e1 st1]. cbn [snd].
    destruct (hipEventDestroy rt (stop t) st1) as [e2 st2]. reflexivity.
Qed.

